(** * S-ETERN lesson player: a shallow embedding of the playback engine

    The development follows the TypeScript sources:
    - [types.ts]            the data model ([LessonStep], [LessonPlan], [PlayerState]);
    - [ttsService.ts]       the memoising speech-synthesis gateway ([Tts]);
    - [storageService.ts]   the persistent session list ([Storage]);
    - [App.tsx]             follow-up navigation, background enrichment,
                            [handleNextStep] ([Lesson]);
    - [VisualPlayer.tsx]    the three flow effects, the audio tiers and the
                            live-session toggle ([Player]).

    JavaScript numbers that hold indices are integers ([Z]); a dropped or
    absent object property is [None].  A string is held as its UTF-8
    encoding: [utf16Length] is the JavaScript [length], which counts
    UTF-16 code units, and [trim] removes the ASCII white space.  Time is
    in milliseconds, as a rational number. *)

From Stdlib Require Import ZArith QArith Qminmax Lia.
From stdpp Require Import base option list strings gmap.

Open Scope Z_scope.
Open Scope string_scope.

(** ** Data model (types.ts) *)

Record Coordinates := { top : Z; left : Z }.

Record LessonStep := {
  index : Z;
  title : string;
  narration : string;
  narration_hindi : string;
  narration_3d : option string;
  narration_3d_hindi : option string;
  diagram_scrape_query : string;
  diagram_role : string;
  overlay_description : string;
  suggested_duration_ms : Z;
  imageUrl : option string;
  coordinates : option Coordinates;
  sketchfab_model_id : option string
}.

Inductive PlayerState := IDLE | LOADING | PLAYING | PAUSED | COMPLETED | ERROR.

Inductive Lang := en | hi.

#[global] Instance Coordinates_eq_dec : EqDecision Coordinates.
Proof. solve_decision. Defined.
#[global] Instance LessonStep_eq_dec : EqDecision LessonStep.
Proof. solve_decision. Defined.
#[global] Instance PlayerState_eq_dec : EqDecision PlayerState.
Proof. solve_decision. Defined.
#[global] Instance Lang_eq_dec : EqDecision Lang.
Proof. solve_decision. Defined.

(** [{ ...step, imageUrl: url }] *)
Definition withImage (url : option string) (s : LessonStep) : LessonStep :=
  {| index := index s; title := title s; narration := narration s;
     narration_hindi := narration_hindi s; narration_3d := narration_3d s;
     narration_3d_hindi := narration_3d_hindi s;
     diagram_scrape_query := diagram_scrape_query s;
     diagram_role := diagram_role s;
     overlay_description := overlay_description s;
     suggested_duration_ms := suggested_duration_ms s;
     imageUrl := url; coordinates := coordinates s;
     sketchfab_model_id := sketchfab_model_id s |}.

(** JavaScript truthiness of a [string | null | undefined] value. *)
Definition truthy (o : option string) : bool :=
  match o with
  | Some s => negb (bool_decide (s = ""))
  | None => false
  end.

(** [a || b] on such values. *)
Definition orElse (o : option string) (d : string) : string :=
  match o with
  | Some s => if bool_decide (s = "") then d else s
  | None => d
  end.

(** [text.length]: the number of UTF-16 code units of the text.  A byte
    below 128 is a character of its own, a byte from 128 to 191 continues
    a character, a byte from 192 to 239 starts a character of the basic
    plane (one unit), and a byte from 240 on starts a character beyond it
    (a surrogate pair, two units). *)
Definition utf16Units (c : Ascii.ascii) : nat :=
  let n := Ascii.nat_of_ascii c in
  if (n <? 128)%nat then 1%nat
  else if (n <? 192)%nat then 0%nat
  else if (n <? 240)%nat then 1%nat
  else 2%nat.

Fixpoint utf16Length (s : string) : nat :=
  match s with
  | String c r => (utf16Units c + utf16Length r)%nat
  | EmptyString => 0%nat
  end.

(** [String.prototype.trim] removes from both ends the WhiteSpace and
    LineTerminator code points of ECMAScript: U+0009 to U+000D, U+0020,
    U+00A0, U+1680, U+2000 to U+200A, U+2028, U+2029, U+202F, U+205F, U+3000
    and U+FEFF.  In UTF-8 they take one, two or three bytes. *)
Definition isByte (n : nat) (a : Ascii.ascii) : bool :=
  Ascii.eqb a (Ascii.ascii_of_nat n).

Definition space1 (a : Ascii.ascii) : bool :=
  existsb (fun n => isByte n a) [9; 10; 11; 12; 13; 32]%nat.

Definition space2 (a b : Ascii.ascii) : bool :=
  isByte 194 a && isByte 160 b.

Definition space3 (a b c : Ascii.ascii) : bool :=
  isByte 225 a && isByte 154 b && isByte 128 c
  || isByte 226 a && isByte 128 b
     && existsb (fun n => isByte n c)
          [128; 129; 130; 131; 132; 133; 134; 135; 136; 137; 138; 168; 169; 175]%nat
  || isByte 226 a && isByte 129 b && isByte 159 c
  || isByte 227 a && isByte 128 b && isByte 128 c
  || isByte 239 a && isByte 187 b && isByte 191 c.

(** The white space at the head of [s] is dropped; [backwards] tells that
    [s] is read from its end, so that the bytes of a code point come last
    byte first. *)
Fixpoint dropSpaces (backwards : bool) (s : string) : string :=
  match s with
  | String a r =>
      if space1 a then dropSpaces backwards r
      else
        match r with
        | String b r1 =>
            if (if backwards then space2 b a else space2 a b)
            then dropSpaces backwards r1
            else
              match r1 with
              | String c r2 =>
                  if (if backwards then space3 c b a else space3 a b c)
                  then dropSpaces backwards r2
                  else s
              | EmptyString => s
              end
        | EmptyString => s
        end
  | EmptyString => EmptyString
  end.

Definition trimStart (s : string) : string := dropSpaces false s.

Definition trimEnd (s : string) : string :=
  String.rev (dropSpaces true (String.rev s)).

Definition trim (s : string) : string := trimEnd (trimStart s).

(** ** The speech-synthesis gateway (ttsService.ts) *)

Module Tts.

(** What [ai.models.generateContent] can answer: inline audio data (possibly
    empty), a response without audio, a 429, or any other error. *)
Inductive GatewayResult :=
| Audio (data : string)
| NoAudio
| RateLimited
| Failed.

Section Gateway.

(** [K] names the continuation awaiting the promise of [generateGeminiTTS]. *)
Context {K : Type}.

Record Request := {
  rq_id : nat;
  rq_text : string;
  rq_key : string;
  rq_cont : K
}.

(** The module-level [audioCache], the texts sent to the gateway so far
    (oldest first) and the requests still awaiting their response. *)
Record State := {
  audioCache : gmap string string;
  invocations : list string;
  pending : list Request;
  nextRequest : nat
}.

Definition empty : State :=
  {| audioCache := ∅; invocations := []; pending := []; nextRequest := 0 |}.

(** A settled promise: the continuation and the value it resumes with. *)
Definition Delivery : Type := K * option string.

(** [generateGeminiTTS(text)] up to its first suspension.  The result is
    the new state and, when the promise settles without a network round
    trip (empty text or cache hit), the delivery. *)
Definition generateGeminiTTS (text : string) (k : K) (st : State)
  : State * option Delivery :=
  if bool_decide (text = "") then (st, Some (k, None))
  else
    let cacheKey := trim text in
    match audioCache st !! cacheKey with
    | Some data =>
        (st, Some (k, if bool_decide (data = "") then None else Some data))
    | None =>
        ({| audioCache := audioCache st;
            invocations := invocations st ++ [text];
            pending := pending st ++
              [{| rq_id := nextRequest st; rq_text := text;
                  rq_key := cacheKey; rq_cont := k |}];
            nextRequest := S (nextRequest st) |}, None)
    end.

Definition findRequest (id : nat) (st : State) : option Request :=
  List.find (fun r => Nat.eqb (rq_id r) id) (pending st).

Definition dropRequest (id : nat) (st : State) : list Request :=
  List.filter (fun r => negb (Nat.eqb (rq_id r) id)) (pending st).

(** The rest of [generateGeminiTTS] once the gateway answers request [id]:
    audio is cached and returned, everything else yields [null]. *)
Definition gatewayReply (id : nat) (res : GatewayResult) (st : State)
  : State * option Delivery :=
  match findRequest id st with
  | None => (st, None)
  | Some r =>
      match res with
      | Audio data =>
          if bool_decide (data = "") then
            ({| audioCache := audioCache st; invocations := invocations st;
                pending := dropRequest id st;
                nextRequest := nextRequest st |}, Some (rq_cont r, None))
          else
            ({| audioCache := <[rq_key r := data]> (audioCache st);
                invocations := invocations st;
                pending := dropRequest id st;
                nextRequest := nextRequest st |},
             Some (rq_cont r, Some data))
      | NoAudio | RateLimited | Failed =>
          ({| audioCache := audioCache st; invocations := invocations st;
              pending := dropRequest id st;
              nextRequest := nextRequest st |}, Some (rq_cont r, None))
      end
  end.

(** A session seen from the service: callers ask, the gateway answers. *)
Inductive Event :=
| Call (text : string) (k : K)
| Reply (id : nat) (res : GatewayResult).

Definition step (e : Event) (st : State) : State * option Delivery :=
  match e with
  | Call text k => generateGeminiTTS text k st
  | Reply id res => gatewayReply id res st
  end.

(** Runs a session, collecting the deliveries in order. *)
Fixpoint run (es : list Event) (st : State) : State * list Delivery :=
  match es with
  | [] => (st, [])
  | e :: es' =>
      let '(st1, d) := step e st in
      let '(st2, ds) := run es' st1 in
      (st2, match d with Some x => x :: ds | None => ds end)
  end.

(** Number of gateway invocations made for texts with cache key [key]. *)
Definition invocationsFor (key : string) (st : State) : nat :=
  length (List.filter (fun t => bool_decide (trim t = key)) (invocations st)).

End Gateway.

Arguments Request : clear implicits.
Arguments State : clear implicits.
Arguments Delivery : clear implicits.
Arguments Event : clear implicits.

End Tts.

(** ** Lesson plans and chat messages (types.ts) *)

(** [steps] is a JavaScript array; [A] is what a slot of it holds. *)
Record LessonPlan (A : Type) := {
  topic : string;
  steps : list A
}.
Arguments topic {A} _.
Arguments steps {A} _.

(** [{ ...plan, steps: ls }] *)
Definition withSteps {A B : Type} (ls : list B) (p : LessonPlan A) : LessonPlan B :=
  {| topic := topic p; steps := ls |}.

Inductive Role := user | tutor.

Record ChatMessage := {
  msg_id : string;
  role : Role;
  text : string;
  timestamp : string;
  isSystem : option bool
}.

(** ** Persistent sessions (storageService.ts) *)

Module Storage.

(** A session either lives in memory, its step objects reached through
    references ([A := nat]), or is a value read back from JSON text
    ([A := LessonStep]). *)
Record SavedSession (A : Type) := {
  id : string;
  topic : string;
  lastActive : string;
  lessonPlan : option (LessonPlan A);
  messages : list ChatMessage;
  currentStepIndex : Z
}.
Arguments id {A} _.
Arguments topic {A} _.
Arguments lastActive {A} _.
Arguments lessonPlan {A} _.
Arguments messages {A} _.
Arguments currentStepIndex {A} _.

(** The step objects of the running application, by reference. *)
Abbreviation Heap := (gmap nat LessonStep).

(** [JSON.stringify] reads the step objects a session refers to. *)
Definition readSteps (h : Heap) (ls : list nat) : list LessonStep :=
  omap (fun l => h !! l) ls.

(** [JSON.parse] allocates a new object for every step of the text. *)
Fixpoint allocSteps (vals : list LessonStep) (h : Heap) : list nat * Heap :=
  match vals with
  | [] => ([], h)
  | s :: vals' =>
      let l := fresh (dom h) in
      let '(ls, h') := allocSteps vals' (<[l := s]> h) in
      (l :: ls, h')
  end.

(** [if (step.imageUrl && step.imageUrl.startsWith('data:')) delete step.imageUrl] *)
Definition stripStep (s : LessonStep) : LessonStep :=
  match imageUrl s with
  | Some url =>
      if truthy (Some url) && String.prefix "data:" url
      then withImage None s else s
  | None => s
  end.

(** [copy.lessonPlan.steps.forEach(...)], mutating the objects in place. *)
Definition stripAll (ls : list nat) (h : Heap) : Heap :=
  foldl (fun h' l => alter stripStep l h') h ls.

(** The copy is the deep copy [JSON.parse(JSON.stringify(session))]. *)
Definition sanitizeSession (session : SavedSession nat) (h : Heap)
  : SavedSession nat * Heap :=
  match lessonPlan session with
  | Some plan =>
      let '(ls, h1) := allocSteps (readSteps h (steps plan)) h in
      ({| id := id session; topic := topic session;
          lastActive := lastActive session;
          lessonPlan := Some (withSteps ls plan);
          messages := messages session;
          currentStepIndex := currentStepIndex session |},
       stripAll ls h1)
  | None => (session, h)
  end.

(** [JSON.stringify] of a session reads the step objects it refers to. *)
Definition freeze (h : Heap) (s : SavedSession nat) : SavedSession LessonStep :=
  {| id := id s; topic := topic s; lastActive := lastActive s;
     lessonPlan :=
       (fun plan => withSteps (readSteps h (steps plan)) plan) <$> lessonPlan s;
     messages := messages s;
     currentStepIndex := currentStepIndex s |}.

(** The text kept under [STORAGE_KEY], as the list it parses to; an absent
    key reads as the empty list. *)
Abbreviation Store := (list (SavedSession LessonStep)).

Definition getSessionsFromStorage (store : Store) : Store := store.

Inductive Outcome := Saved | SavedCurrentOnly | NotSaved.

(** [fits] tells whether [localStorage.setItem] accepts a list or throws
    (quota exceeded, storage blocked). *)
Definition saveSessionToStorage (fits : Store -> bool)
    (session : SavedSession nat) (h : Heap) (store : Store)
  : Heap * Store * Outcome :=
  let '(cleanSession, h1) := sanitizeSession session h in
  let existing := getSessionsFromStorage store in
  let filtered :=
    List.filter (fun s => negb (bool_decide (id s = id cleanSession))) existing in
  let filtered := freeze h1 cleanSession :: filtered in
  let trimmed := take 10 filtered in
  if fits trimmed then (h1, trimmed, Saved)
  else
    let '(again, h2) := sanitizeSession session h1 in
    let currentOnly := [freeze h2 again] in
    if fits currentOnly then (h2, currentOnly, SavedCurrentOnly)
    else (h2, store, NotSaved).

(** Returns the new store and the list handed back to the caller. *)
Definition deleteSessionFromStorage (fits : Store -> bool)
    (sid : string) (store : Store) : Store * Store :=
  let existing := getSessionsFromStorage store in
  let filtered := List.filter (fun s => negb (bool_decide (id s = sid))) existing in
  if fits filtered then (filtered, filtered) else (store, []).

(** The life of the storage key: saves and deletions, each with the heap
    and the quota behaviour of its moment. *)
Inductive Op :=
| Save (fits : Store -> bool) (session : SavedSession nat) (h : Heap)
| Delete (fits : Store -> bool) (sid : string).

Definition apply (o : Op) (store : Store) : Store :=
  match o with
  | Save fits session h => (saveSessionToStorage fits session h store).1.2
  | Delete fits sid => (deleteSessionFromStorage fits sid store).1
  end.

Definition history (ops : list Op) : Store := foldl (fun st o => apply o st) [] ops.

(** No stored step keeps a base64 image. *)
Definition stepClean (s : LessonStep) : bool :=
  match imageUrl s with
  | Some url => negb (String.prefix "data:" url)
  | None => true
  end.

Definition sessionClean (s : SavedSession LessonStep) : bool :=
  match lessonPlan s with
  | Some plan => forallb stepClean (steps plan)
  | None => true
  end.

End Storage.

(** ** Follow-up navigation and background enrichment (App.tsx) *)

Module Lesson.

(** A slot of the live [steps] array.  The updater of
    [startBackgroundAssetGeneration] writes [newSteps[index]] without a
    bounds check, so a slot can end up holding an object with nothing but
    an [imageUrl], and the array can get holes. *)
Inductive StepSlot :=
| Present (s : LessonStep)
| ImageOnly (url : string)
| Hole.

(** A plan as [generateLesson] parses it: every slot a full step. *)
Definition dense (plan : LessonPlan LessonStep) : LessonPlan StepSlot :=
  withSteps (Present <$> steps plan) plan.

(** [{ ...newSteps[index], imageUrl: finalUrl }] *)
Definition spreadImage (finalUrl : string) (slot : option StepSlot) : StepSlot :=
  match slot with
  | Some (Present s) => Present (withImage (Some finalUrl) s)
  | Some (ImageOnly _) | Some Hole | None => ImageOnly finalUrl
  end.

(** [arr[index] = v]: in range it replaces, beyond the end it extends. *)
Definition writeSlot (i : nat) (v : StepSlot) (arr : list StepSlot) : list StepSlot :=
  if decide (i < length arr)%nat then <[i := v]> arr
  else arr ++ replicate (i - length arr) Hole ++ [v].

(** The updater passed to [setLessonPlan] by [img.onload], for a request
    issued under the plan with topic [planTopic] for step [i]. *)
Definition mergeAsset (planTopic : string) (i : nat) (finalUrl : string)
    (prev : option (LessonPlan StepSlot)) : option (LessonPlan StepSlot) :=
  match prev with
  | None => None
  | Some p =>
      if bool_decide (topic p ≠ planTopic) then Some p
      else
        let newSteps := steps p in
        Some (withSteps (writeSlot i (spreadImage finalUrl (newSteps !! i)) newSteps) p)
  end.

(** The requests [startBackgroundAssetGeneration(plan)] fans out: one per
    step without an image, with the step's position and query. *)
Definition assetRequests (plan : LessonPlan LessonStep) : list (nat * string) :=
  omap (fun '(i, s) =>
          if truthy (imageUrl s) then None else Some (i, diagram_scrape_query s))
       (imap (fun i s => (i, s)) (steps plan)).

(** [url || fallback] *)
Definition finalUrl (url : option string) (fallback : string) : string :=
  orElse url fallback.

Record FollowUpResponse := {
  answer : string;
  answer_hindi : string;
  targetStepIndex : Z;
  is_off_topic : option bool;
  new_topic_query : option string
}.

Inductive FollowUpAction :=
| ContextSwitch (query : string)
| Answer (newIndex : Z).

(** [targetStepIndex >= 0 && targetStepIndex < lessonPlan.steps.length] *)
Definition inRange (target nsteps : Z) : bool :=
  ((0 <=? target) && (target <? nsteps))%Z.

(** The part of [handleSendMessage] that follows [generateFollowUp]:
    [nsteps] is [lessonPlan.steps.length], [current] the step index. *)
Definition handleFollowUp (response : FollowUpResponse) (nsteps current : Z)
  : FollowUpAction :=
  let normal :=
    Answer (if inRange (targetStepIndex response) nsteps
            then targetStepIndex response else current) in
  match is_off_topic response, new_topic_query response with
  | Some true, Some q => if truthy (Some q) then ContextSwitch q else normal
  | _, _ => normal
  end.


End Lesson.

(** ** The player (VisualPlayer.tsx, with the state [App] feeds it) *)

Module Player.

(** The React state a render of [VisualPlayer] sees: the four values owned
    by [App] and the component's own flow state.  A callback created during
    a render keeps that render's [Ui] for as long as it lives. *)
Record Ui := {
  currentStepIndex : Z;
  playerState : PlayerState;
  isMuted : bool;
  audioLanguage : Lang;
  internalStepIndex : Z;
  isPreparing : bool;
  readyAudio : option string;
  isLiveSession : bool;
  is3DMode : bool
}.

#[global] Instance Ui_eq_dec : EqDecision Ui.
Proof. solve_decision. Defined.

Definition setCurrentStepIndex (f : Z -> Z) (u : Ui) : Ui :=
  {| currentStepIndex := f (currentStepIndex u);
     playerState := playerState u; isMuted := isMuted u;
     audioLanguage := audioLanguage u;
     internalStepIndex := internalStepIndex u; isPreparing := isPreparing u;
     readyAudio := readyAudio u; isLiveSession := isLiveSession u;
     is3DMode := is3DMode u |}.
Definition setPlayerState (v : PlayerState) (u : Ui) : Ui :=
  {| currentStepIndex := currentStepIndex u; playerState := v;
     isMuted := isMuted u; audioLanguage := audioLanguage u;
     internalStepIndex := internalStepIndex u; isPreparing := isPreparing u;
     readyAudio := readyAudio u; isLiveSession := isLiveSession u;
     is3DMode := is3DMode u |}.
Definition setIsMuted (v : bool) (u : Ui) : Ui :=
  {| currentStepIndex := currentStepIndex u; playerState := playerState u;
     isMuted := v; audioLanguage := audioLanguage u;
     internalStepIndex := internalStepIndex u; isPreparing := isPreparing u;
     readyAudio := readyAudio u; isLiveSession := isLiveSession u;
     is3DMode := is3DMode u |}.
Definition setAudioLanguage (v : Lang) (u : Ui) : Ui :=
  {| currentStepIndex := currentStepIndex u; playerState := playerState u;
     isMuted := isMuted u; audioLanguage := v;
     internalStepIndex := internalStepIndex u; isPreparing := isPreparing u;
     readyAudio := readyAudio u; isLiveSession := isLiveSession u;
     is3DMode := is3DMode u |}.
Definition setInternalStepIndex (v : Z) (u : Ui) : Ui :=
  {| currentStepIndex := currentStepIndex u; playerState := playerState u;
     isMuted := isMuted u; audioLanguage := audioLanguage u;
     internalStepIndex := v; isPreparing := isPreparing u;
     readyAudio := readyAudio u; isLiveSession := isLiveSession u;
     is3DMode := is3DMode u |}.
Definition setIsPreparing (v : bool) (u : Ui) : Ui :=
  {| currentStepIndex := currentStepIndex u; playerState := playerState u;
     isMuted := isMuted u; audioLanguage := audioLanguage u;
     internalStepIndex := internalStepIndex u; isPreparing := v;
     readyAudio := readyAudio u; isLiveSession := isLiveSession u;
     is3DMode := is3DMode u |}.
Definition setReadyAudio (v : option string) (u : Ui) : Ui :=
  {| currentStepIndex := currentStepIndex u; playerState := playerState u;
     isMuted := isMuted u; audioLanguage := audioLanguage u;
     internalStepIndex := internalStepIndex u; isPreparing := isPreparing u;
     readyAudio := v; isLiveSession := isLiveSession u;
     is3DMode := is3DMode u |}.
Definition setIsLiveSession (v : bool) (u : Ui) : Ui :=
  {| currentStepIndex := currentStepIndex u; playerState := playerState u;
     isMuted := isMuted u; audioLanguage := audioLanguage u;
     internalStepIndex := internalStepIndex u; isPreparing := isPreparing u;
     readyAudio := readyAudio u; isLiveSession := v; is3DMode := is3DMode u |}.
Definition setIs3DMode (v : bool) (u : Ui) : Ui :=
  {| currentStepIndex := currentStepIndex u; playerState := playerState u;
     isMuted := isMuted u; audioLanguage := audioLanguage u;
     internalStepIndex := internalStepIndex u; isPreparing := isPreparing u;
     readyAudio := readyAudio u; isLiveSession := isLiveSession u;
     is3DMode := v |}.

(** [audioContextRef.current.state] *)
Inductive CtxState := suspended | running.

(** An audio handle: a buffer source started on the audio context, or an
    utterance handed to the platform speech queue.  [h_onEnded] is the
    render whose [handleEnded] the handle calls when it ends (the chat
    answer of [handleSendMessage] has none); [h_active] is cleared by
    [stop()] and by [speechSynthesis.cancel()]. *)
Inductive HandleKind := BufferSource | Utterance.

#[global] Instance HandleKind_eq_dec : EqDecision HandleKind.
Proof. solve_decision. Defined.

Record Handle := {
  h_id : nat;
  h_kind : HandleKind;
  h_onEnded : option Ui;
  h_active : bool
}.

(** A call of [playPCM] suspended at [await ctx.resume()]. *)
Record PcmTask := {
  pcm_data : string;
  pcm_render : Ui
}.

(** A run of [prepare()]: the render it closes over, its [isCancelled]
    flag and the [await] it is suspended at. *)
Inductive Stage := AwaitImage | AwaitSpeech | AwaitSettle | Finished.

Record PrepTask := {
  p_id : nat;
  p_render : Ui;
  isCancelled : bool;
  p_stage : Stage
}.

(** Who awaits a [generateGeminiTTS] promise. *)
Inductive Cont := PrepCont (task : nat) | PrefetchCont.

Inductive TimerAction :=
| ImageTimeout (task : nat)
| Settle (task : nat)
| SilentEnded (render : Ui)
| Grace (render : Ui)
| Prefetch (textToPreload : string).

Record Timer := {
  t_id : nat;
  t_due : Q;
  t_action : TimerAction
}.

(** Dependency lists, compared as React does.  [step] stands in them as the
    position of the step object in the plan, [stopAudio] is stable, and
    [onNextStep] changes exactly with [currentStepIndex] and [playerState]
    (the lesson plan is fixed throughout this module). *)
Definition DepsA : Type := Z * option Z * bool * Z.
Definition DepsB : Type := bool * option Z * bool * string * bool * bool.
Definition DepsC : Type :=
  bool * PlayerState * option string * bool * string * bool * Z * Z * bool.
Definition DepsP : Type := Z * Lang.

(** What React remembers of the last run of each effect: its dependency
    list and, for the effects that return one, its cleanup.  [cleanupB] is
    the task whose [isCancelled] the cleanup sets, [cleanupC] tells
    whether the playback effect returned its [stopAudio] cleanup,
    [cleanupP] is the timer [clearTimeout] is called on. *)
Record Effects := {
  depsA : option DepsA;
  depsB : option DepsB;
  cleanupB : option nat;
  depsC : option DepsC;
  cleanupC : bool;
  depsD : option Z;
  depsP : option DepsP;
  cleanupP : option nat
}.

Record World := {
  ui : Ui;
  audioContext : option CtxState;
  speech : bool;
  audioSourceRef : option nat;
  handles : list Handle;
  resuming : list PcmTask;
  tasks : list PrepTask;
  timers : list Timer;
  tts : Tts.State Cont;
  followUp : option Ui;
  effects : Effects;
  now : Q;
  nextId : nat
}.

Definition updUi (f : Ui -> Ui) (w : World) : World :=
  {| ui := f (ui w); audioContext := audioContext w; speech := speech w;
     audioSourceRef := audioSourceRef w; handles := handles w;
     resuming := resuming w; tasks := tasks w; timers := timers w;
     tts := tts w; followUp := followUp w; effects := effects w;
     now := now w; nextId := nextId w |}.
Definition setAudioContext (v : option CtxState) (w : World) : World :=
  {| ui := ui w; audioContext := v; speech := speech w;
     audioSourceRef := audioSourceRef w; handles := handles w;
     resuming := resuming w; tasks := tasks w; timers := timers w;
     tts := tts w; followUp := followUp w; effects := effects w;
     now := now w; nextId := nextId w |}.
Definition setAudioSourceRef (v : option nat) (w : World) : World :=
  {| ui := ui w; audioContext := audioContext w; speech := speech w;
     audioSourceRef := v; handles := handles w; resuming := resuming w;
     tasks := tasks w; timers := timers w; tts := tts w;
     followUp := followUp w; effects := effects w; now := now w;
     nextId := nextId w |}.
Definition setHandles (v : list Handle) (w : World) : World :=
  {| ui := ui w; audioContext := audioContext w; speech := speech w;
     audioSourceRef := audioSourceRef w; handles := v;
     resuming := resuming w; tasks := tasks w; timers := timers w;
     tts := tts w; followUp := followUp w; effects := effects w;
     now := now w; nextId := nextId w |}.
Definition setResuming (v : list PcmTask) (w : World) : World :=
  {| ui := ui w; audioContext := audioContext w; speech := speech w;
     audioSourceRef := audioSourceRef w; handles := handles w;
     resuming := v; tasks := tasks w; timers := timers w; tts := tts w;
     followUp := followUp w; effects := effects w; now := now w;
     nextId := nextId w |}.
Definition setTasks (v : list PrepTask) (w : World) : World :=
  {| ui := ui w; audioContext := audioContext w; speech := speech w;
     audioSourceRef := audioSourceRef w; handles := handles w;
     resuming := resuming w; tasks := v; timers := timers w; tts := tts w;
     followUp := followUp w; effects := effects w; now := now w;
     nextId := nextId w |}.
Definition setTimers (v : list Timer) (w : World) : World :=
  {| ui := ui w; audioContext := audioContext w; speech := speech w;
     audioSourceRef := audioSourceRef w; handles := handles w;
     resuming := resuming w; tasks := tasks w; timers := v; tts := tts w;
     followUp := followUp w; effects := effects w; now := now w;
     nextId := nextId w |}.
Definition setTts (v : Tts.State Cont) (w : World) : World :=
  {| ui := ui w; audioContext := audioContext w; speech := speech w;
     audioSourceRef := audioSourceRef w; handles := handles w;
     resuming := resuming w; tasks := tasks w; timers := timers w; tts := v;
     followUp := followUp w; effects := effects w; now := now w;
     nextId := nextId w |}.
Definition setFollowUp (v : option Ui) (w : World) : World :=
  {| ui := ui w; audioContext := audioContext w; speech := speech w;
     audioSourceRef := audioSourceRef w; handles := handles w;
     resuming := resuming w; tasks := tasks w; timers := timers w;
     tts := tts w; followUp := v; effects := effects w; now := now w;
     nextId := nextId w |}.
Definition setEffects (v : Effects) (w : World) : World :=
  {| ui := ui w; audioContext := audioContext w; speech := speech w;
     audioSourceRef := audioSourceRef w; handles := handles w;
     resuming := resuming w; tasks := tasks w; timers := timers w;
     tts := tts w; followUp := followUp w; effects := v; now := now w;
     nextId := nextId w |}.
Definition setNow (v : Q) (w : World) : World :=
  {| ui := ui w; audioContext := audioContext w; speech := speech w;
     audioSourceRef := audioSourceRef w; handles := handles w;
     resuming := resuming w; tasks := tasks w; timers := timers w;
     tts := tts w; followUp := followUp w; effects := effects w; now := v;
     nextId := nextId w |}.
Definition setNextId (v : nat) (w : World) : World :=
  {| ui := ui w; audioContext := audioContext w; speech := speech w;
     audioSourceRef := audioSourceRef w; handles := handles w;
     resuming := resuming w; tasks := tasks w; timers := timers w;
     tts := tts w; followUp := followUp w; effects := effects w;
     now := now w; nextId := v |}.

Section Flow.

(** The lesson being played, and whether [decodePCM] and the creation of
    the buffer source succeed on a given payload. *)
Variable plan : LessonPlan LessonStep.
Variable decodable : string -> bool.

Definition totalSteps : Z := Z.of_nat (length (steps plan)).

(** [lessonPlan.steps[i]] *)
Definition stepAt (i : Z) : option LessonStep :=
  if (0 <=? i)%Z then steps plan !! Z.to_nat i else None.

(** The [step] prop of a render. *)
Definition stepProp (u : Ui) : option LessonStep := stepAt (currentStepIndex u).

Definition stepKey (u : Ui) : option Z :=
  match stepProp u with
  | Some _ => Some (currentStepIndex u)
  | None => None
  end.

Definition narrationFor (l : Lang) (s : LessonStep) : string :=
  match l with hi => narration_hindi s | en => narration s end.

(** [currentText]; [active3DPoint] is never set to anything but [null]. *)
Definition currentText (u : Ui) : string :=
  match stepProp u with
  | None => ""
  | Some s =>
      if is3DMode u then
        let en3d := orElse (narration_3d s) "Rotate the model to explore details." in
        let hi3d := orElse (narration_3d_hindi s) "विवरण देखने के लिए मॉडल को घुमाएं।" in
        match audioLanguage u with hi => hi3d | en => en3d end
      else narrationFor (audioLanguage u) s
  end.

(** *** Timers *)

Definition setTimeout (a : TimerAction) (delay : Q) (w : World) : World :=
  setNextId (S (nextId w))
    (setTimers (timers w ++
       [{| t_id := nextId w; t_due := Qred (now w + delay); t_action := a |}]) w).

Definition clearTimeout (id : nat) (w : World) : World :=
  setTimers (List.filter (fun t => negb (Nat.eqb (t_id t) id)) (timers w)) w.

(** *** Audio output *)

Definition deactivate (h : Handle) : Handle :=
  {| h_id := h_id h; h_kind := h_kind h; h_onEnded := h_onEnded h; h_active := false |}.

Definition cancelSpeech (hs : list Handle) : list Handle :=
  (fun h => match h_kind h with Utterance => deactivate h | BufferSource => h end) <$> hs.

Definition stopSource (id : nat) (hs : list Handle) : list Handle :=
  (fun h => if Nat.eqb (h_id h) id then deactivate h else h) <$> hs.

Definition stopAudio (w : World) : World :=
  let w1 := if speech w then setHandles (cancelSpeech (handles w)) w else w in
  match audioSourceRef w1 with
  | Some id => setAudioSourceRef None (setHandles (stopSource id (handles w1)) w1)
  | None => w1
  end.

(** [handleNextStep], as created by the render [c] of [App]. *)
Definition handleNextStep (c : Ui) (w : World) : World :=
  if (currentStepIndex c <? totalSteps - 1)%Z then
    let w1 := updUi (setCurrentStepIndex (fun prev => prev + 1)%Z) w in
    if bool_decide (playerState c ≠ PLAYING) then updUi (setPlayerState PLAYING) w1
    else w1
  else updUi (setPlayerState COMPLETED) w.

(** [handleEnded] of the playback effect run in render [c], and the body
    of the timeout it sets. *)
Definition handleEnded (c : Ui) (w : World) : World :=
  setTimeout (Grace c) 1000 w.

Definition grace (c : Ui) (w : World) : World :=
  if bool_decide (playerState c = PLAYING) && negb (is3DMode c)
     && negb (isLiveSession c)
     && bool_decide (currentStepIndex c = internalStepIndex c)
  then handleNextStep c w else w.

Definition addHandle (kind : HandleKind) (cb : option Ui) (w : World) : World :=
  setNextId (S (nextId w))
    (setHandles (handles w ++
       [{| h_id := nextId w; h_kind := kind; h_onEnded := cb; h_active := true |}]) w).

Definition fallbackToWebSpeech (c : Ui) (w : World) : World :=
  if speech w then addHandle Utterance (Some c) w else handleEnded c w.

(** [playPCM] from [await decodePCM] on. *)
Definition startSource (data : string) (c : Ui) (w : World) : World :=
  if decodable data then
    setAudioSourceRef (Some (nextId w)) (addHandle BufferSource (Some c) w)
  else fallbackToWebSpeech c w.

Definition playPCM (data : string) (c : Ui) (w : World) : World :=
  match audioContext w with
  | None => handleEnded c w
  | Some suspended =>
      setResuming (resuming w ++ [{| pcm_data := data; pcm_render := c |}]) w
  | Some running => startSource data c w
  end.

Definition silentDuration (text : string) : Q :=
  Qmax 3000 (inject_Z (Z.of_nat (utf16Length text)) / 15 * 1000).

(** *** The preparation task *)

Definition findTask (k : nat) (w : World) : option PrepTask :=
  List.find (fun t => Nat.eqb (p_id t) k) (tasks w).

Definition setStage (s : Stage) (t : PrepTask) : PrepTask :=
  {| p_id := p_id t; p_render := p_render t; isCancelled := isCancelled t; p_stage := s |}.

Definition cancel (t : PrepTask) : PrepTask :=
  {| p_id := p_id t; p_render := p_render t; isCancelled := true; p_stage := p_stage t |}.

Definition updTask (k : nat) (f : PrepTask -> PrepTask) (w : World) : World :=
  setTasks ((fun t => if Nat.eqb (p_id t) k then f t else t) <$> tasks w) w.

(** From [if (!isCancelled) { setReadyAudio(audioData); ... }] on. *)
Definition afterSpeech (k : nat) (audioData : option string) (w : World) : World :=
  match findTask k w with
  | None => w
  | Some t =>
      if isCancelled t then updTask k (setStage Finished) w
      else
        setTimeout (Settle k) 500
          (updTask k (setStage AwaitSettle) (updUi (setReadyAudio audioData) w))
  end.

Definition deliver (d : option (Tts.Delivery Cont)) (w : World) : World :=
  match d with
  | Some (PrepCont k, audioData) => afterSpeech k audioData w
  | Some (PrefetchCont, _) | None => w
  end.

(** From [let audioData = null] on: the image, if any, has settled. *)
Definition afterImage (k : nat) (w : World) : World :=
  match findTask k w with
  | None => w
  | Some t =>
      if isMuted (p_render t) then afterSpeech k None w
      else
        let '(st, d) :=
          Tts.generateGeminiTTS (currentText (p_render t)) (PrepCont k) (tts w) in
        deliver d (updTask k (setStage AwaitSpeech) (setTts st w))
  end.

(** [resolve()] of the image promise: only its first call resumes the task. *)
Definition resolveImage (k : nat) (w : World) : World :=
  match findTask k w with
  | Some t =>
      match p_stage t with
      | AwaitImage => afterImage k w
      | _ => w
      end
  | None => w
  end.

(** After the 500 ms settle delay. *)
Definition settle (k : nat) (w : World) : World :=
  match findTask k w with
  | None => w
  | Some t =>
      updTask k (setStage Finished)
        (if isCancelled t then w else updUi (setIsPreparing false) w)
  end.

(** *** The effects *)

(** Index-change effect. *)
Definition effectA (u : Ui) (w : World) : World :=
  match stepProp u with
  | None => w
  | Some _ =>
      if isLiveSession u then w
      else if bool_decide (currentStepIndex u ≠ internalStepIndex u) then
        updUi (fun x => setReadyAudio None
                 (setInternalStepIndex (currentStepIndex u) (setIsPreparing true x)))
          (stopAudio w)
      else w
  end.

(** Prepare effect; it returns the task whose [isCancelled] its cleanup
    sets, if it got past the guard. *)
Definition effectB (u : Ui) (w : World) : World * option nat :=
  match stepProp u with
  | None => (w, None)
  | Some s =>
      if negb (isPreparing u) || isLiveSession u then (w, None)
      else
        let k := nextId w in
        let w1 :=
          setNextId (S k)
            (setTasks (tasks w ++
               [{| p_id := k; p_render := u; isCancelled := false;
                   p_stage := AwaitImage |}]) w) in
        (if negb (is3DMode u) && truthy (imageUrl s)
         then setTimeout (ImageTimeout k) 5000 w1
         else afterImage k w1, Some k)
  end.

(** Playback effect; it tells whether it got past the guards and
    returned its cleanup, [stopAudio()]. *)
Definition effectC (u : Ui) (w : World) : World * bool :=
  if isPreparing u || isLiveSession u then (w, false)
  else if bool_decide (internalStepIndex u ≠ currentStepIndex u) then (w, false)
  else if bool_decide (playerState u ≠ PLAYING) then (w, false)
  else
    let w1 := stopAudio w in
    (if truthy (readyAudio u) && negb (isMuted u) then
       playPCM (default "" (readyAudio u)) u w1
     else if negb (isMuted u) && negb (truthy (readyAudio u)) then
       fallbackToWebSpeech u w1
     else setTimeout (SilentEnded u) (silentDuration (currentText u)) w1, true).

(** [setIs3DMode(false); setActive3DPoint(null)] on every index change. *)
Definition effectD (u : Ui) (w : World) : World :=
  updUi (setIs3DMode false) w.

(** The look-ahead prefetch of [App]; it returns the timer its cleanup
    clears. *)
Definition effectP (u : Ui) (w : World) : World * option nat :=
  if (totalSteps - 1 <=? currentStepIndex u)%Z then (w, None)
  else
    match stepAt (currentStepIndex u + 1) with
    | Some nextStep =>
        (setTimeout (Prefetch (narrationFor (audioLanguage u) nextStep)) 4000 w,
         Some (nextId w))
    | None => (w, None)
    end.

Definition depsAof (u : Ui) : DepsA :=
  (currentStepIndex u, stepKey u, isLiveSession u, internalStepIndex u).
Definition depsBof (u : Ui) : DepsB :=
  (isPreparing u, stepKey u, is3DMode u, currentText u, isMuted u, isLiveSession u).
Definition depsCof (u : Ui) : DepsC :=
  (isPreparing u, playerState u, readyAudio u, isMuted u, currentText u,
   isLiveSession u, internalStepIndex u, currentStepIndex u, is3DMode u).
Definition depsPof (u : Ui) : DepsP := (currentStepIndex u, audioLanguage u).

Definition runCleanupB (c : option nat) (w : World) : World :=
  match c with
  | Some k => updTask k cancel w
  | None => w
  end.

Definition runCleanupC (c : bool) (w : World) : World :=
  if c then stopAudio w else w.

Definition runCleanupP (c : option nat) (w : World) : World :=
  match c with
  | Some id => clearTimeout id w
  | None => w
  end.

(** One render and the flush of its passive effects: first the cleanups
    of the effects whose dependencies changed, then their bodies, the
    effects of [VisualPlayer] before the one of [App].  State set by an
    effect is seen by the next render only.  Afterwards every effect's
    remembered dependency list is the list of this render. *)
Definition render (w : World) : World :=
  let u := ui w in
  let fx := effects w in
  let chA := bool_decide (depsA fx ≠ Some (depsAof u)) in
  let chB := bool_decide (depsB fx ≠ Some (depsBof u)) in
  let chC := bool_decide (depsC fx ≠ Some (depsCof u)) in
  let chD := bool_decide (depsD fx ≠ Some (currentStepIndex u)) in
  let chP := bool_decide (depsP fx ≠ Some (depsPof u)) in
  let w := if chB then runCleanupB (cleanupB fx) w else w in
  let w := if chC then runCleanupC (cleanupC fx) w else w in
  let w := if chP then runCleanupP (cleanupP fx) w else w in
  let w := if chA then effectA u w else w in
  let rB := if chB then effectB u w else (w, cleanupB fx) in
  let rC := if chC then effectC u rB.1 else (rB.1, cleanupC fx) in
  let w := if chD then effectD u rC.1 else rC.1 in
  let rP := if chP then effectP u w else (w, cleanupP fx) in
  setEffects
    {| depsA := Some (depsAof u); depsB := Some (depsBof u); cleanupB := rB.2;
       depsC := Some (depsCof u); cleanupC := rC.2;
       depsD := Some (currentStepIndex u);
       depsP := Some (depsPof u); cleanupP := rP.2 |} rP.1.

(** Renders until no effect has set new state; React gives up after 50
    nested updates. *)
Fixpoint commit (fuel : nat) (w : World) : World :=
  match fuel with
  | O => w
  | S n =>
      let w' := render w in
      if bool_decide (ui w' = ui w) then w' else commit n w'
  end.

Definition maxUpdateDepth : nat := 50.

(** *** Events *)

(** What can happen between two renders: the user's clicks, the chat, the
    passing of time and the callbacks of the platform. *)
Inductive Event :=
| ClickPlay
| ClickPause
| ClickRestart
| ToggleMute
| SetAudioLanguage (l : Lang)
| ToggleLive
| LiveError
| Send
| FollowUp (response : Lesson.FollowUpResponse)
| FollowUpFailed
| Tick
| Wait (dt : Q)
| ImageSettled (task : nat)
| Gateway (id : nat) (res : Tts.GatewayResult)
| ContextResumed
| HandleDone (id : nat).

(** The control bar, the settings and the mute button are rendered outside
    a live session only, and not at all on the splash and loading screens. *)
Definition playerShown (u : Ui) : bool :=
  negb (bool_decide (playerState u = LOADING))
  && negb (bool_decide (stepProp u = None) && bool_decide (playerState u = IDLE)).

Definition controlsShown (u : Ui) : bool :=
  playerShown u && negb (isLiveSession u).

(** The pending timer that fires next: the least due time, the oldest
    timer among equals. *)
Definition earliest (ts : list Timer) : option Timer :=
  match ts with
  | [] => None
  | t :: r =>
      Some (fold_left (fun best x =>
              if Qle_bool (t_due best) (t_due x) then best else x) r t)
  end.

Definition fire (t : Timer) (w : World) : World :=
  let w := setNow (if Qle_bool (now w) (t_due t) then t_due t else now w) w in
  let w := clearTimeout (t_id t) w in
  match t_action t with
  | ImageTimeout k => resolveImage k w
  | Settle k => settle k w
  | SilentEnded c => handleEnded c w
  | Grace c => grace c w
  | Prefetch textToPreload =>
      let '(st, d) := Tts.generateGeminiTTS textToPreload PrefetchCont (tts w) in
      deliver d (setTts st w)
  end.

(** [toggleLiveSession] *)
Definition toggleLiveSession (w : World) : World :=
  if isLiveSession (ui w) then updUi (setIsLiveSession false) w
  else updUi (setIsLiveSession true) (stopAudio (updUi (setPlayerState PAUSED) w)).

(** The tail of [handleSendMessage] for a follow-up answer; [c] is the
    render the handler was created in.  An off-topic answer replaces the
    lesson, which is outside what this module follows. *)
Definition answerFollowUp (c : Ui) (response : Lesson.FollowUpResponse) (w : World)
  : World :=
  match Lesson.handleFollowUp response totalSteps (currentStepIndex (ui w)) with
  | Lesson.ContextSwitch _ => w
  | Lesson.Answer _ =>
      let w1 :=
        if Lesson.inRange (Lesson.targetStepIndex response) totalSteps
        then updUi (setCurrentStepIndex (fun _ => Lesson.targetStepIndex response)) w
        else w in
      if speech w1 then
        if isMuted c then w1
        else addHandle Utterance None (setHandles (cancelSpeech (handles w1)) w1)
      else updUi (setPlayerState IDLE) w1
  end.

Definition handle (e : Event) (w : World) : World :=
  let u := ui w in
  match e with
  | ClickPlay =>
      if controlsShown u && bool_decide (stepProp u ≠ None)
      then updUi (setPlayerState PLAYING) w else w
  | ClickPause =>
      if controlsShown u && bool_decide (stepProp u ≠ None)
      then updUi (setPlayerState PAUSED) w else w
  | ClickRestart =>
      if controlsShown u
      then updUi (fun x => setPlayerState PLAYING (setCurrentStepIndex (fun _ => 0%Z) x)) w
      else w
  | ToggleMute =>
      if controlsShown u then updUi (setIsMuted (negb (isMuted u))) w else w
  | SetAudioLanguage l =>
      if controlsShown u then updUi (setAudioLanguage l) w else w
  | ToggleLive => if playerShown u then toggleLiveSession w else w
  | LiveError => updUi (setIsLiveSession false) w
  | Send =>
      match followUp w with
      | Some _ => w
      | None => setFollowUp (Some u) (updUi (setPlayerState PAUSED) w)
      end
  | FollowUp response =>
      match followUp w with
      | Some c => answerFollowUp c response (setFollowUp None w)
      | None => w
      end
  | FollowUpFailed =>
      match followUp w with
      | Some _ => updUi (setPlayerState IDLE) (setFollowUp None w)
      | None => w
      end
  | Tick =>
      match earliest (timers w) with
      | Some t => fire t w
      | None => w
      end
  | Wait dt =>
      if Qle_bool 0 dt
         && forallb (fun t => Qle_bool (now w + dt) (t_due t)) (timers w)
      then setNow (Qred (now w + dt)) w else w
  | ImageSettled k => resolveImage k w
  | Gateway id res =>
      let '(st, d) := Tts.gatewayReply id res (tts w) in
      deliver d (setTts st w)
  | ContextResumed =>
      match audioContext w, resuming w with
      | Some suspended, _ :: _ =>
          fold_left (fun w' p => startSource (pcm_data p) (pcm_render p) w')
            (resuming w) (setResuming [] (setAudioContext (Some running) w))
      | _, _ => w
      end
  | HandleDone id =>
      match List.find (fun h => Nat.eqb (h_id h) id) (handles w) with
      | Some h =>
          let w1 :=
            setHandles (List.filter (fun x => negb (Nat.eqb (h_id x) id)) (handles w)) w in
          match h_onEnded h with
          | Some c => handleEnded c w1
          | None => w1
          end
      | None => w
      end
  end.

(** An event, and the renders it causes if it changed any state. *)
Definition react (e : Event) (w : World) : World :=
  let w1 := handle e w in
  if bool_decide (ui w1 = ui w) then w1 else commit maxUpdateDepth w1.

Definition run (es : list Event) (w : World) : World :=
  fold_left (fun w' e => react e w') es w.

(** The first render with the lesson loaded, as [createNewLesson] leaves
    [App]: step 0, [PLAYING], English. *)
Definition initialUi (muted : bool) : Ui :=
  {| currentStepIndex := 0; playerState := PLAYING; isMuted := muted;
     audioLanguage := en; internalStepIndex := -1; isPreparing := false;
     readyAudio := None; isLiveSession := false; is3DMode := false |}.

Definition mount (muted : bool) (ctx : option CtxState) (synth : bool) : World :=
  commit maxUpdateDepth
    {| ui := initialUi muted; audioContext := ctx; speech := synth;
       audioSourceRef := None; handles := []; resuming := []; tasks := [];
       timers := []; tts := Tts.empty; followUp := None;
       effects :=
         {| depsA := None; depsB := None; cleanupB := None; depsC := None;
            cleanupC := false; depsD := None; depsP := None; cleanupP := None |};
       now := 0; nextId := 0 |}.

(** The audio sources that sound: active buffer sources, and the head of
    the speech queue if it holds an active utterance. *)
Definition playingSources (w : World) : list Handle :=
  List.filter (fun h => h_active h && bool_decide (h_kind h = BufferSource)) (handles w).

Definition speakingUtterances (w : World) : list Handle :=
  take 1 (List.filter (fun h => h_active h && bool_decide (h_kind h = Utterance)) (handles w)).

Definition activeHandles (w : World) : nat :=
  (length (playingSources w) + length (speakingUtterances w))%nat.

End Flow.

End Player.

(** ** A sample lesson, for the scenarios

    Three steps without resolved images, as [generateLesson] returns them;
    the English narrations are 30, 60 and 90 characters long. *)

Definition sampleStep (i : Z) (heading text : string) : LessonStep :=
  {| index := i; title := heading; narration := text;
     narration_hindi := "paudhe prakash se sharkara banate hain";
     narration_3d := None; narration_3d_hindi := None;
     diagram_scrape_query := "cross section of a leaf";
     diagram_role := "main"; overlay_description := "leaf";
     suggested_duration_ms := 5000; imageUrl := None;
     coordinates := Some {| top := 50; left := 50 |};
     sketchfab_model_id := None |}.

Definition samplePlan : LessonPlan LessonStep :=
  {| topic := "Photosynthesis";
     steps :=
       [ sampleStep 0 "Light" "Plants make sugar from light..";
         sampleStep 1 "Chlorophyll" "Chlorophyll in the leaf absorbs red and blue light energy...";
         sampleStep 2 "Glucose" "Water and carbon dioxide are combined into glucose, and oxygen leaves through the stomata." ] |}.

(** A follow-up answer that points at the last step. *)
Definition jumpToLast : Lesson.FollowUpResponse :=
  {| Lesson.answer := "See the last diagram.";
     Lesson.answer_hindi := "antim chitra dekhen";
     Lesson.targetStepIndex := 2;
     Lesson.is_off_topic := Some false;
     Lesson.new_topic_query := None |}.

(** ** The image gateway (geminiService.ts) *)

From stdpp Require Import pretty.

Module Gemini.

(** [part.inlineData]; the SDK leaves both fields optional. *)
Record InlineData := {
  mimeType : option string;
  data : option string
}.

(** A part of the first candidate's content: text, inline data, or both. *)
Record Part := {
  text : option string;
  inlineData : option InlineData
}.

(** What [ai.models.generateContent] comes back with: a response, whose
    [candidates?.[0]?.content?.parts] may be missing, or an exception. *)
Inductive Response :=
| Content (parts : option (list Part))
| Thrown.

(** [`${x}`] for a string that may be [undefined]. *)
Definition template (o : option string) : string := default "undefined" o.

(** The loop of [generateDiagram] over the parts. *)
Fixpoint firstInline (parts : list Part) : option string :=
  match parts with
  | [] => None
  | part :: rest =>
      match inlineData part with
      | Some d =>
          Some ("data:" +:+ template (mimeType d) +:+ ";base64," +:+ template (data d))
      | None => firstInline rest
      end
  end.

(** [generateDiagram(prompt)], from the response on. *)
Definition generateDiagram (r : Response) : option string :=
  match r with
  | Content parts => firstInline (default [] parts)
  | Thrown => None
  end.

End Gemini.

(** ** Background enrichment, step by step (App.tsx) *)

Module Enrichment.

Section Assets.

(** The platform's [encodeURIComponent]. *)
Variable encodeURIComponent : string -> string.

(** The Pollinations address used when the image model gave nothing. *)
Definition fallbackUrl (query : string) (index : nat) : string :=
  "https://image.pollinations.ai/prompt/"
  +:+ encodeURIComponent
        (query +:+ " educational textbook diagram white background no text")
  +:+ "?width=960&height=540&nologo=true&seed=" +:+ pretty (index + 999)%nat.

(** [const finalUrl = url || `https://image.pollinations.ai/...`] *)
Definition assetUrl (r : Gemini.Response) (query : string) (index : nat) : string :=
  Lesson.finalUrl (Gemini.generateDiagram r) (fallbackUrl query index).

(** The body of the [forEach] for the step at [index] of the plan the
    enrichment was started for, once [generateDiagram] has answered:
    [loaded] tells whether the preloading [Image] fired [onload]; nothing
    listens to its [onerror]. *)
Definition enrichStep (planTopic : string) (index : nat) (s : LessonStep)
    (r : Gemini.Response) (loaded : bool)
    (prev : option (LessonPlan Lesson.StepSlot)) : option (LessonPlan Lesson.StepSlot) :=
  if truthy (imageUrl s) then prev
  else if loaded
       then Lesson.mergeAsset planTopic index
              (assetUrl r (diagram_scrape_query s) index) prev
       else prev.

(** [startBackgroundAssetGeneration(plan)]: the callback of [forEach]
    runs for every step; [order] lists the steps in the order in which
    their pictures settle, [answers] and [loaded] tell what the image model
    and the preloading [Image] did for each. *)
Definition startBackgroundAssetGeneration (plan : LessonPlan LessonStep)
    (answers : nat -> Gemini.Response) (loaded : nat -> bool) (order : list nat)
    (prev : option (LessonPlan Lesson.StepSlot)) : option (LessonPlan Lesson.StepSlot) :=
  foldl (fun live index =>
           match steps plan !! index with
           | Some s => enrichStep (topic plan) index s (answers index) (loaded index) live
           | None => live
           end) prev order.

End Assets.

End Enrichment.

(** ** Decoding the synthesized audio (VisualPlayer)

    [decodePCM] turns the base64 payload of the synthesis gateway into an
    audio buffer of 16-bit samples at 24 kHz.  A JavaScript string is the
    list of its UTF-16 code units.  What belongs to the platform stays a
    parameter: [window.atob] (which throws on text that is not base64),
    the byte order of typed arrays, and whether the audio context accepts
    a buffer of a given length. *)

Module Pcm.

Record AudioBuffer := {
  numberOfChannels : nat;
  sampleRate : Z;
  channelData : list Q
}.

Section Platform.

Variable atob : string -> option (list Z).
Variable littleEndian : bool.
Variable createBuffer : nat -> bool.

(** [bytes[i] = binaryString.charCodeAt(i)], stored in a [Uint8Array]. *)
Definition toUint8 (charCode : Z) : Z := (charCode mod 256)%Z.

(** One element of [new Int16Array(bytes.buffer)]: two bytes in the byte
    order of the platform, read in two's complement. *)
Definition toInt16 (first second : Z) : Z :=
  let v := (if littleEndian then first + 256 * second else second + 256 * first)%Z in
  if (v <? 32768)%Z then v else (v - 65536)%Z.

(** [new Int16Array(bytes.buffer)] throws a [RangeError] unless the byte
    length is a multiple of two. *)
Fixpoint int16Array (bytes : list Z) : option (list Z) :=
  match bytes with
  | [] => Some []
  | [_] => None
  | first :: second :: rest => cons (toInt16 first second) <$> int16Array rest
  end.

(** [dataInt16[i] / 32768.0]; the quotient is exact in a [Float32Array]. *)
Definition toFloat (sample : Z) : Q := inject_Z sample / 32768.

Definition decodePCM (base64Data : string) : option AudioBuffer :=
  match atob base64Data with
  | None => None
  | Some binaryString =>
      let bytes := toUint8 <$> binaryString in
      match int16Array bytes with
      | None => None
      | Some dataInt16 =>
          let float32 := toFloat <$> dataInt16 in
          if createBuffer (length float32)
          then Some {| numberOfChannels := 1; sampleRate := 24000;
                       channelData := float32 |}
          else None
      end
  end.

End Platform.

End Pcm.

(** *** The platform, as the standards have it

    [window.atob] is the forgiving base64 decoding of the HTML standard:
    ASCII white space is dropped, up to two padding signs are removed from
    a text whose length is a multiple of four, a remainder of one character
    or a character outside the alphabet is an error, and the bits left
    over at the end are discarded.  Typed arrays are little-endian on the
    machines browsers run on, and an audio context refuses a buffer of
    length zero. *)

Module Platform.

Definition isAsciiWhitespace (c : Ascii.ascii) : bool :=
  let n := Ascii.nat_of_ascii c in
  (n =? 9)%nat || (n =? 10)%nat || (n =? 12)%nat || (n =? 13)%nat || (n =? 32)%nat.

(** The value of a character of the base64 alphabet. *)
Definition sextet (c : Ascii.ascii) : option Z :=
  let n := Z.of_nat (Ascii.nat_of_ascii c) in
  if (65 <=? n)%Z && (n <=? 90)%Z then Some (n - 65)%Z
  else if (97 <=? n)%Z && (n <=? 122)%Z then Some (n - 71)%Z
  else if (48 <=? n)%Z && (n <=? 57)%Z then Some (n + 4)%Z
  else if (n =? 43)%Z then Some 62%Z
  else if (n =? 47)%Z then Some 63%Z
  else None.

Definition isPadding (c : Ascii.ascii) : bool := (Ascii.nat_of_ascii c =? 61)%nat.

(** Removes one padding sign from the end, if there is one. *)
Definition dropPadding (data : list Ascii.ascii) : list Ascii.ascii :=
  match reverse data with
  | c :: r => if isPadding c then reverse r else data
  | [] => data
  end.

Fixpoint octets (sextets : list Z) : list Z :=
  match sextets with
  | a :: b :: c :: d :: rest =>
      (a * 4 + b / 16)%Z :: ((b mod 16) * 16 + c / 4)%Z :: ((c mod 4) * 64 + d)%Z
      :: octets rest
  | [a; b; c] => [(a * 4 + b / 16)%Z; ((b mod 16) * 16 + c / 4)%Z]
  | [a; b] => [(a * 4 + b / 16)%Z]
  | _ => []
  end.

Definition atob (text : string) : option (list Z) :=
  let data := List.filter (fun c => negb (isAsciiWhitespace c)) (String.list_ascii_of_string text) in
  let data :=
    if (length data mod 4 =? 0)%nat then dropPadding (dropPadding data) else data in
  if (length data mod 4 =? 1)%nat then None
  else octets <$> mapM sextet data.

Definition littleEndian : bool := true.

Definition createBuffer (length : nat) : bool := negb (length =? 0)%nat.

(** [playPCM] gets past its [try] block on this payload. *)
Definition decodes (base64Data : string) : bool :=
  match Pcm.decodePCM atob littleEndian createBuffer base64Data with
  | Some _ => true
  | None => false
  end.

End Platform.

(** ** A lesson whose pictures arrive while it plays (App.tsx)

    The [Player] module follows one lesson plan.  When [img.onload] merges
    a picture, [setLessonPlan] puts a new plan object in its place: the
    step at [index] is a new object, [handleNextStep] (whose dependencies
    are the plan, the step index and the player state) is a new function,
    and so is what depends on them.  The next render therefore re-runs the
    playback effect (through [onNextStep]) and the prefetch effect (through
    [lessonPlan]) whatever the index, and the index-change and prepare
    effects (through [step]) when the picture is the one of the step
    shown.  A dependency that has changed identity is recorded as a
    forgotten dependency list, which differs from every new one. *)

Module Session.
Import Player.

(** The updater of [img.onload] on a plan without holes, for a step of
    the plan. *)
Definition mergePicture (index : nat) (finalUrl : string)
    (plan : LessonPlan LessonStep) : LessonPlan LessonStep :=
  withSteps (alter (withImage (Some finalUrl)) index (steps plan)) plan.






End Session.

(** ** Vocabulary of the statements

    The notions the theorems are stated with: what is observed of a
    service, a store or a player, and the invariants of their runs. *)

(** *** Synthesis service *)

(** What the caller of a request answered with [res] resumes with. *)
Definition audioOf (res : Tts.GatewayResult) : option string :=
  match res with
  | Tts.Audio data => if bool_decide (data = "") then None else Some data
  | Tts.NoAudio | Tts.RateLimited | Tts.Failed => None
  end.

(** *** Persistent sessions *)

Section StorageNotions.
Import Storage.

(** The invariant of the storage key. *)
Definition wellKept (store : Store) : Prop :=
  (length store <= 10)%nat
  /\ NoDup (id <$> store)
  /\ Forall (fun s => sessionClean s = true) store.

End StorageNotions.

(** *** Player *)

Section PlayerNotions.
Import Player.

Variable plan : LessonPlan LessonStep.

(** The part of the React state no effect ever sets. *)
Definition appState (u : Ui) : Z * PlayerState * bool * Lang * bool :=
  (currentStepIndex u, playerState u, isMuted u, audioLanguage u, isLiveSession u).

(** A render's state with the prepared audio forgotten. *)
Definition noAudio (u : Ui) : Ui := setReadyAudio None u.

(** Whether the index-change effect, run for render [u], sets state. *)
Definition firesA (u : Ui) : bool :=
  bool_decide (stepProp plan u ≠ None) && negb (isLiveSession u)
  && bool_decide (currentStepIndex u ≠ internalStepIndex u).

(** The state after a render, up to the prepared audio: only the
    index-change effect and the 3D reset have spoken. *)
Definition afterA (w : World) : Ui :=
  let u := ui w in
  if bool_decide (depsA (effects w) ≠ Some (depsAof plan u)) && firesA u
  then setInternalStepIndex (currentStepIndex u) (setIsPreparing true u)
  else u.

(** The same for the 3D reset, which runs when the step index has changed. *)
Definition afterD (w : World) (u : Ui) : Ui :=
  if bool_decide (depsD (effects w) ≠ Some (currentStepIndex (ui w)))
  then setIs3DMode false u else u.

(** The dependency lists React remembers are those of render [u]. *)
Definition storedFor (u : Ui) (fx : Effects) : Prop :=
  depsA fx = Some (depsAof plan u)
  /\ depsB fx = Some (depsBof plan u)
  /\ depsC fx = Some (depsCof plan u)
  /\ depsD fx = Some (currentStepIndex u)
  /\ depsP fx = Some (depsPof u).

(** A world between two events: every effect has run for the state the
    world is in. *)
Definition settled (w : World) : Prop := storedFor (ui w) (effects w).

(** Two views of a task that differ in its stage at most. *)
Definition sameTask (t t' : PrepTask) : Prop :=
  p_id t' = p_id t /\ p_render t' = p_render t /\ isCancelled t' = isCancelled t.

(** The same tasks, each at the same or a later [await]. *)
Definition stageOnly (l l' : list PrepTask) : Prop := Forall2 sameTask l l'.

(** What the cleanup of the prepare effect and its bookkeeping guarantee:
    a task that is not cancelled is the one the last run of the effect
    started, and that run saw the dependencies the task closes over. *)
Definition taskOk (fx : Effects) (t : PrepTask) : Prop :=
  stepProp plan (p_render t) <> None
  /\ (isCancelled t = false ->
      cleanupB fx = Some (p_id t) /\ depsB fx = Some (depsBof plan (p_render t))).

(** Every task of the world satisfies [taskOk]. *)
Definition tasksOk (w : World) : Prop := Forall (taskOk (effects w)) (tasks w).

(** The invariant of the worlds a run passes through. *)
Definition good (w : World) : Prop := tasksOk w /\ settled w.

(** The task an event resumes, if it resumes one: its image settles or
    times out, its synthesis request is answered, its settle delay ends. *)
Definition deliversTo (e : Event) (w : World) : option nat :=
  match e with
  | ImageSettled k => Some k
  | Gateway id _ =>
      match Tts.findRequest id (tts w) with
      | Some r =>
          match Tts.rq_cont r with
          | PrepCont k => Some k
          | PrefetchCont => None
          end
      | None => None
      end
  | Tick =>
      match earliest (timers w) with
      | Some t =>
          match t_action t with
          | ImageTimeout k | Settle k => Some k
          | SilentEnded _ | Grace _ | Prefetch _ => None
          end
      | None => None
      end
  | _ => None
  end.

(** The same handle, possibly stopped in between. *)
Definition calmerHandle (h h' : Handle) : Prop :=
  h_id h' = h_id h /\ h_kind h' = h_kind h /\ h_onEnded h' = h_onEnded h
  /\ (h_active h' = true -> h_active h = true).

(** No handle was added or started, and [audioSourceRef] was at most
    cleared. *)
Definition quietStep (w w' : World) : Prop :=
  Forall2 calmerHandle (handles w) (handles w')
  /\ (audioSourceRef w' = audioSourceRef w \/ audioSourceRef w' = None).

(** A render in which the playback effect cannot get past its guards. *)
Definition idle (u : Ui) : Prop := isLiveSession u = true \/ playerState u <> PLAYING.

(** What [stopAudio] leaves sounding: nothing it can reach. *)
Definition unreached (ref : option nat) (synth : bool) (h : Handle) : Prop :=
  h_active h = true ->
  ref <> Some (h_id h) /\ (synth = true -> h_kind h = BufferSource).

(** No task carries an identifier that is still to be handed out. *)
Definition freshIds (w : World) : Prop :=
  Forall (fun t => (p_id t < nextId w)%nat) (tasks w).

(** The same task, cancelled. *)
Definition superseded (t t' : PrepTask) : Prop :=
  p_id t' = p_id t /\ p_render t' = p_render t /\ isCancelled t' = true.





(** What a viewer could measure: the clock, the step shown, the phase, and
    when the silent playback that is under way will end. *)
Definition silentEnds (w : World) : list Q :=
  omap (fun t => match t_action t with SilentEnded _ => Some (t_due t) | _ => None end)
    (timers w).


End PlayerNotions.

Section PlayerTraces.
Import Player.


End PlayerTraces.

(** The sample lesson while step 1 plays its synthesized narration: step 0
    has been prepared, played and ended, step 1 has been prepared and its
    buffer source sounds. *)
Definition stepOnePlaying : Player.World :=
  Player.run samplePlan Platform.decodes
    [Player.Gateway 0 (Tts.Audio "QUJDRA=="); Player.Tick; Player.HandleDone 3;
     Player.Tick; Player.Gateway 1 (Tts.Audio "REVGRw=="); Player.Tick]
    (Player.mount samplePlan Platform.decodes false (Some Player.running) true).

(** *** Persistent sessions, read back *)

Section StorageReadBack.
Import Storage.

(** What the picture of a step is once base64 data is not kept. *)
Definition keptImage (s : LessonStep) : option string :=
  match imageUrl s with
  | Some url => if String.prefix "data:" url then None else Some url
  | None => None
  end.

(** A session as it reads back once its base64 pictures are gone. *)
Definition stripped (s : SavedSession LessonStep) : SavedSession LessonStep :=
  {| id := id s; topic := topic s; lastActive := lastActive s;
     lessonPlan :=
       (fun plan => withSteps ((fun st => withImage (keptImage st) st) <$> steps plan) plan)
         <$> lessonPlan s;
     messages := messages s; currentStepIndex := currentStepIndex s |}.

(** Every step the session refers to is an object of the heap. *)
Definition closed (h : Heap) (s : SavedSession nat) : Prop :=
  match lessonPlan s with
  | Some plan => Forall (fun l => is_Some (h !! l)) (steps plan)
  | None => True
  end.

(** The sessions of a list other than the one with identifier [sid]. *)
Definition others (sid : string) (store : Store) : Store :=
  List.filter (fun s => negb (bool_decide (id s = sid))) store.

End StorageReadBack.

(** *** Synthesis requests and their callers *)

Section TtsNotions.
Context {K : Type}.

(** The callers of a session, in the order of their calls. *)
Definition callers (es : list (Tts.Event K)) : list K :=
  omap (fun e => match e with Tts.Call _ k => Some k | Tts.Reply _ _ => None end) es.

(** Pending requests carry distinct identifiers, all handed out already. *)
Definition requestsDistinct (st : Tts.State K) : Prop :=
  NoDup (Tts.rq_id <$> Tts.pending st)
  /\ Forall (fun r => (Tts.rq_id r < Tts.nextRequest st)%nat) (Tts.pending st).

(** Every cached audio is non-empty and was the answer for a text sent to
    the gateway; no empty text was ever sent. *)
Definition cacheSound (st : Tts.State K) : Prop :=
  (forall key data, Tts.audioCache st !! key = Some data ->
     data <> "" /\ exists text, text ∈ Tts.invocations st /\ trim text = key)
  /\ Forall (fun r => Tts.rq_text r ∈ Tts.invocations st
                      /\ Tts.rq_key r = trim (Tts.rq_text r)) (Tts.pending st)
  /\ ("" ∉ Tts.invocations st).

End TtsNotions.

(** *** Pictures *)

Section PictureNotions.

Variable encodeURIComponent : string -> string.

(** The step at [index] once its picture has settled: untouched if it had
    one or if the picture did not load, otherwise with the address the
    enrichment chose. *)
Definition pictured (answers : nat -> Gemini.Response) (loaded : nat -> bool)
    (index : nat) (s : LessonStep) : LessonStep :=
  if truthy (imageUrl s) || negb (loaded index) then s
  else withImage
         (Some (Enrichment.assetUrl encodeURIComponent (answers index)
                  (diagram_scrape_query s) index)) s.

End PictureNotions.

(** *** A player without narration sources *)

Section PlayerInvariants.
Import Player.

Variable plan : LessonPlan LessonStep.

(** Nothing sounds and nothing is about to: there is no audio handle, no
    [playPCM] waits for the audio context, every preparation and the
    pending chat question were started by a muted render, and the only
    synthesis requests awaiting their answer are prefetches. *)
Definition soundless (w : World) : Prop :=
  handles w = [] /\ resuming w = [] /\ audioSourceRef w = None
  /\ Forall (fun t => isMuted (p_render t) = true) (tasks w)
  /\ (forall c, followUp w = Some c -> isMuted c = true)
  /\ Forall (fun r => Tts.rq_cont r = PrefetchCont) (Tts.pending (tts w)).

(** The index-change effect has nothing to do for render [u]: there is no
    step, a live session runs, or the player has caught up with the step
    index of [App]. *)
Definition caughtUp (u : Ui) : Prop :=
  stepProp plan u = None \/ isLiveSession u = true
  \/ internalStepIndex u = currentStepIndex u.

(** What a preparation suspended at stage [s] waits for is on its way:
    the five-second timer of the image wait, the answer of the synthesis
    gateway, or the settle delay. *)
Definition pendingFor (w : World) (k : nat) (s : Stage) : Prop :=
  match s with
  | AwaitImage => exists x, x ∈ timers w /\ t_action x = ImageTimeout k
  | AwaitSpeech => exists r, r ∈ Tts.pending (tts w) /\ Tts.rq_cont r = PrepCont k
  | AwaitSettle => exists x, x ∈ timers w /\ t_action x = Settle k
  | Finished => True
  end.

(** The bookkeeping of tasks, timers and synthesis requests: identifiers
    are distinct and handed out in order, every task that is not excused
    by [skip] has what it waits for on its way, and the timer [cp] that
    the cleanup of the prefetch effect would clear is a prefetch timer. *)
Definition kept (cp : option nat) (skip : nat -> Stage -> Prop) (w : World) : Prop :=
  NoDup (p_id <$> tasks w)
  /\ Forall (fun t => (p_id t < nextId w)%nat) (tasks w)
  /\ NoDup (t_id <$> timers w)
  /\ Forall (fun x => (t_id x < nextId w)%nat) (timers w)
  /\ requestsDistinct (tts w)
  /\ Forall (fun t => skip (p_id t) (p_stage t) \/ pendingFor w (p_id t) (p_stage t))
       (tasks w)
  /\ (forall id, cp = Some id ->
        (id < nextId w)%nat
        /\ Forall (fun x => t_id x = id -> exists text, t_action x = Prefetch text)
             (timers w)).

(** No task is excused. *)
Definition nobody : nat -> Stage -> Prop := fun _ _ => False.

(** Only the tasks numbered [k] are excused, or only those at stage [s]. *)
Definition task (k : nat) : nat -> Stage -> Prop := fun k' _ => k' = k.
Definition taskAt (k : nat) (s : Stage) : nat -> Stage -> Prop :=
  fun k' s' => k' = k /\ s' = s.

(** Every task was started by a render that was preparing. *)
Definition fromPreparing (w : World) : Prop :=
  Forall (fun t => isPreparing (p_render t) = true) (tasks w).

(** If the prepare effect last ran for a render that was preparing a step
    outside a live session, the task it started is there, not cancelled,
    and it is the one its cleanup would cancel. *)
Definition currentTask (w : World) : Prop :=
  forall u0, depsB (effects w) = Some (depsBof plan u0) ->
    isPreparing u0 = true -> stepProp plan u0 <> None -> isLiveSession u0 = false ->
    exists t, t ∈ tasks w /\ cleanupB (effects w) = Some (p_id t) /\ isCancelled t = false.

(** A task that ran to its end without being cancelled has switched the
    loading state off. *)
Definition finishedQuiet (w : World) : Prop :=
  Forall (fun t => p_stage t = Finished -> isCancelled t = false ->
                   isPreparing (ui w) = false) (tasks w).

(** No task has newly run to its end without being cancelled. *)
Definition noneFinished (w w' : World) : Prop :=
  forall t, t ∈ tasks w' -> p_stage t = Finished -> isCancelled t = false -> t ∈ tasks w.

(** The task the cleanup of the prepare effect would cancel was started
    by a render that shows what render [u] shows, is not cancelled, has
    not finished, and what it waits for is on its way. *)
Definition underWay (w : World) (t : PrepTask) : Prop :=
  t ∈ tasks w /\ isCancelled t = false
  /\ cleanupB (effects w) = Some (p_id t)
  /\ depsBof plan (p_render t) = depsBof plan (ui w)
  /\ p_stage t <> Finished
  /\ pendingFor w (p_id t) (p_stage t).

(** *** The look-ahead prefetch *)

Definition isPrefetch (x : Timer) : bool :=
  match t_action x with Prefetch _ => true | _ => false end.

(** Timer [x] will prefetch the narration of the step after the one of
    the dependency list [d], in the language of [d]. *)
Definition prefetchFor (d : option DepsP) (x : Timer) : Prop :=
  exists i l s,
    d = Some (i, l) /\ stepAt plan (i + 1) = Some s
    /\ t_action x = Prefetch (narrationFor l s).

(** Every pending prefetch timer is the one the cleanup of the prefetch
    effect would clear, and it was set for the dependencies [d]. *)
Definition onePrefetch (cp : option nat) (d : option DepsP) (w : World) : Prop :=
  Forall (fun x => isPrefetch x = true -> cp = Some (t_id x) /\ prefetchFor d x)
    (timers w).

(** Every timer of [w'] was pending in [w] or is not a prefetch timer. *)
Definition timersGrow (w w' : World) : Prop :=
  Forall (fun x => x ∈ timers w \/ isPrefetch x = false) (timers w').

End PlayerInvariants.

(** * Properties *)

(** ** Follow-up navigation *)



(** ** Background enrichment *)

(** C8: an asset that arrives when no lesson is active, or when the active
    lesson's topic differs from the topic the request was issued under, is
    discarded: the updater returns the live plan untouched.  A result is
    merged only into a plan with the request's topic, and then only the
    slot of its step changes. *)
Theorem stale_asset_never_touches_the_new_lesson
    (planTopic : string) (i : nat) (url : string)
    (prev : option (LessonPlan Lesson.StepSlot)) :
  (prev = None -> Lesson.mergeAsset planTopic i url prev = None)
  /\ (forall p, prev = Some p -> topic p <> planTopic ->
        Lesson.mergeAsset planTopic i url prev = Some p)
  /\ (Lesson.mergeAsset planTopic i url prev <> prev ->
        exists p, prev = Some p /\ topic p = planTopic)
  /\ (forall p, prev = Some p -> topic p = planTopic ->
        exists p', Lesson.mergeAsset planTopic i url prev = Some p'
          /\ topic p' = topic p
          /\ steps p' !! i = Some (Lesson.spreadImage url (steps p !! i))
          /\ forall j, j <> i -> (j < length (steps p))%nat ->
               steps p' !! j = steps p !! j).
Proof.
  unfold Lesson.mergeAsset. repeat split.
  - intros ->. reflexivity.
  - intros p -> Hne. rewrite bool_decide_eq_true_2; auto.
  - destruct prev as [p|]; [|congruence]. case_bool_decide; [congruence|].
    intros _. exists p. auto.
  - intros p -> Heq. rewrite bool_decide_eq_false_2 by tauto.
    eexists. split; [reflexivity|]. simpl. unfold Lesson.writeSlot.
    split; [reflexivity|]. case_decide.
    + split.
      * by apply list_lookup_insert_eq.
      * intros j Hj _. by apply list_lookup_insert_ne.
    + split.
      * rewrite lookup_app_r by lia.
        rewrite lookup_app_r; rewrite length_replicate; [|lia].
        by rewrite Nat.sub_diag.
      * intros j Hj Hlt. by rewrite lookup_app_l.
Qed.

(** A picture requested under the topic "Atoms" arrives when "Cells" is
    the active lesson. *)
Lemma stale_asset_witness :
  Lesson.mergeAsset "Atoms" 0 "https://img/0.png"
    (Some {| topic := "Cells"; steps := [Lesson.Hole] |})
  = Some {| topic := "Cells"; steps := [Lesson.Hole] |}.
Proof.
  apply (proj1 (proj2 (stale_asset_never_touches_the_new_lesson
                         "Atoms" 0 "https://img/0.png"
                         (Some {| topic := "Cells"; steps := [Lesson.Hole] |})))).
  - reflexivity.
  - simpl. discriminate.
Defined.

(** ** The synthesis cache *)

Section TtsFacts.

Context {K : Type}.

Implicit Types (st : Tts.State K) (e : Tts.Event K).

Lemma generateGeminiTTS_cached st text k data :
  text <> "" ->
  Tts.audioCache st !! trim text = Some data ->
  Tts.generateGeminiTTS text k st
  = (st, Some (k, if bool_decide (data = "") then None else Some data)).
Proof.
  intros Hne Hc. unfold Tts.generateGeminiTTS.
  rewrite bool_decide_eq_false_2 by done. by rewrite Hc.
Qed.

Lemma generateGeminiTTS_miss st text k :
  text <> "" ->
  Tts.audioCache st !! trim text = None ->
  Tts.invocations (Tts.generateGeminiTTS text k st).1 = (Tts.invocations st ++ [text])%list
  /\ (Tts.generateGeminiTTS text k st).2 = None.
Proof.
  intros Hne Hc. unfold Tts.generateGeminiTTS.
  rewrite bool_decide_eq_false_2 by done. by rewrite Hc.
Qed.

Lemma step_cache_mono e st key :
  is_Some (Tts.audioCache st !! key) ->
  is_Some (Tts.audioCache (Tts.step e st).1 !! key).
Proof.
  intros Hk. destruct e as [text k | id res]; simpl.
  - unfold Tts.generateGeminiTTS. repeat case_match; simpl; auto.
  - unfold Tts.gatewayReply. repeat case_match; simpl; auto.
    destruct (decide (Tts.rq_key r = key)) as [->|].
    + rewrite lookup_insert_eq. eauto.
    + by rewrite lookup_insert_ne.
Qed.

Lemma step_invocations_cached e st key :
  is_Some (Tts.audioCache st !! key) ->
  Tts.invocationsFor key (Tts.step e st).1 = Tts.invocationsFor key st.
Proof.
  intros [data Hk]. destruct e as [text k | id res]; simpl.
  - unfold Tts.generateGeminiTTS. case_bool_decide; [done|].
    destruct (Tts.audioCache st !! trim text) eqn:Hc; [done|].
    unfold Tts.invocationsFor. simpl. rewrite List.filter_app. simpl.
    rewrite bool_decide_eq_false_2; [by rewrite app_nil_r|].
    intros <-. congruence.
  - unfold Tts.gatewayReply. repeat case_match; reflexivity.
Qed.

Lemma run_cons_state e (es : list (Tts.Event K)) st :
  (Tts.run (e :: es) st).1 = (Tts.run es (Tts.step e st).1).1.
Proof.
  simpl. destruct (Tts.step e st) as [st1 d]. simpl.
  by destruct (Tts.run es st1).
Qed.

Lemma run_invocations_cached (es : list (Tts.Event K)) st key :
  is_Some (Tts.audioCache st !! key) ->
  Tts.invocationsFor key (Tts.run es st).1 = Tts.invocationsFor key st.
Proof.
  revert st. induction es as [|e es IH]; intros st Hk; [done|].
  rewrite run_cons_state, IH by (by apply step_cache_mono).
  by apply step_invocations_cached.
Qed.

Lemma gatewayReply_audio st id data r :
  Tts.findRequest id st = Some r -> data <> "" ->
  Tts.audioCache (Tts.gatewayReply id (Tts.Audio data) st).1 !! Tts.rq_key r = Some data
  /\ (Tts.gatewayReply id (Tts.Audio data) st).2 = Some (Tts.rq_cont r, Some data).
Proof.
  intros Hf Hne. unfold Tts.gatewayReply. rewrite Hf.
  rewrite bool_decide_eq_false_2 by done. simpl.
  by rewrite lookup_insert_eq.
Qed.

Lemma gatewayReply_no_audio st id res r :
  Tts.findRequest id st = Some r -> audioOf res = None ->
  Tts.audioCache (Tts.gatewayReply id res st).1 = Tts.audioCache st
  /\ (Tts.gatewayReply id res st).2 = Some (Tts.rq_cont r, None).
Proof.
  intros Hf Hn. unfold Tts.gatewayReply. rewrite Hf.
  destruct res; simpl in *; auto. case_bool_decide; [done|discriminate].
Qed.

Lemma findRequest_fresh text k st :
  text <> "" -> Tts.audioCache st !! trim text = None ->
  Forall (fun r => Tts.rq_id r <> Tts.nextRequest st) (Tts.pending st) ->
  Tts.findRequest (Tts.nextRequest st) (Tts.generateGeminiTTS text k st).1
  = Some {| Tts.rq_id := Tts.nextRequest st; Tts.rq_text := text;
            Tts.rq_key := trim text; Tts.rq_cont := k |}.
Proof.
  intros Hne Hc Hfr. unfold Tts.generateGeminiTTS.
  rewrite bool_decide_eq_false_2 by done. rewrite Hc. simpl.
  unfold Tts.findRequest. simpl.
  induction Hfr as [|r rs Hr _ IH]; simpl.
  - by rewrite Nat.eqb_refl.
  - apply Nat.eqb_neq in Hr. by rewrite Hr.
Qed.

End TtsFacts.

(** C4, as the service does it: once the gateway has answered a text with
    audio, that audio is in the cache under the trimmed text, and from then
    on no request whose text trims to a cached key reaches the gateway.  A
    request answered without audio caches nothing, so the next request for
    the text invokes the gateway again; and two callers asking for the
    same uncached text at once both invoke it, both get their own answer,
    and the cache keeps the audio of the later one. *)
Theorem synthesis_is_memoised_once_it_succeeded :
  (forall (st : Tts.State nat) id data r,
      Tts.findRequest id st = Some r -> data <> "" ->
      Tts.audioCache (Tts.gatewayReply id (Tts.Audio data) st).1 !! Tts.rq_key r
      = Some data)
  /\ (forall (es : list (Tts.Event nat)) (st : Tts.State nat) key,
        is_Some (Tts.audioCache st !! key) ->
        Tts.invocationsFor key (Tts.run es st).1 = Tts.invocationsFor key st)
  /\ (forall (st : Tts.State nat) text k data,
        text <> "" -> Tts.audioCache st !! trim text = Some data -> data <> "" ->
        Tts.generateGeminiTTS text k st = (st, Some (k, Some data)))
  /\ (forall (st : Tts.State nat) id res r,
        Tts.findRequest id st = Some r -> audioOf res = None ->
        Tts.audioCache (Tts.gatewayReply id res st).1 = Tts.audioCache st)
  /\ (forall text (k1 k2 : nat) res1 res2,
        text <> "" ->
        let '(st, ds) :=
          Tts.run [Tts.Call text k1; Tts.Call text k2;
                   Tts.Reply 0 res1; Tts.Reply 1 res2] Tts.empty in
        Tts.invocations st = [text; text]
        /\ ds = [(k1, audioOf res1); (k2, audioOf res2)]
        /\ Tts.pending st = []
        /\ Tts.audioCache st !! trim text
           = match audioOf res2 with
             | Some d => Some d
             | None => audioOf res1
             end).
Proof.
  split; [|split; [|split; [|split]]].
  - intros st id data r Hf Hne. by apply gatewayReply_audio.
  - intros es st key Hk. by apply run_invocations_cached.
  - intros st text k data Hne Hc Hd.
    rewrite (generateGeminiTTS_cached st text k data) by done.
    by rewrite bool_decide_eq_false_2.
  - intros st id res r Hf Hn. by apply (gatewayReply_no_audio st id res r).
  - intros text k1 k2 res1 res2 Hne. simpl.
    unfold Tts.generateGeminiTTS at 1. rewrite bool_decide_eq_false_2 by done.
    simpl. rewrite lookup_empty.
    unfold Tts.generateGeminiTTS at 1. rewrite bool_decide_eq_false_2 by done.
    simpl. rewrite lookup_empty. simpl.
    unfold Tts.gatewayReply, Tts.findRequest, Tts.dropRequest.
    destruct res1 as [d1| | |], res2 as [d2| | |]; simpl;
      repeat case_bool_decide; simpl;
      rewrite ?lookup_insert_eq, ?lookup_empty; done.
Qed.

(** After one answered request for a text, two more requests for it (one
    with surrounding blanks) leave the number of gateway invocations at 1. *)
Lemma synthesis_memo_witness :
  Tts.invocationsFor "Hello"
    (Tts.run [Tts.Call " Hello " 7%nat; Tts.Call "Hello" 8%nat]
       (Tts.run [Tts.Call "Hello" 0%nat; Tts.Reply 0 (Tts.Audio "QUJD")] Tts.empty).1).1
  = 1%nat.
Proof.
  rewrite (proj1 (proj2 synthesis_is_memoised_once_it_succeeded)).
  - vm_compute. reflexivity.
  - vm_compute. eauto.
Defined.

(** C4, counterexample: the first request for a text is answered without
    audio, nothing is cached, and the replay of the step invokes the
    gateway a second time for the same text. *)
Lemma replay_after_empty_answer_invokes_gateway_again :
  Tts.invocations
    (Tts.run [Tts.Call "Hello" 0%nat; Tts.Reply 0 Tts.NoAudio; Tts.Call "Hello" 1%nat]
       Tts.empty).1
  = ["Hello"; "Hello"]
  /\ ~ (Tts.invocationsFor "Hello"
          (Tts.run [Tts.Call "Hello" 0%nat; Tts.Reply 0 Tts.NoAudio;
                    Tts.Call "Hello" 1%nat] Tts.empty).1 <= 1)%nat.
Proof. vm_compute. split; [reflexivity | lia]. Qed.

(** ** The persistent session list *)

Section StorageFacts.

Import Storage.

Lemma allocSteps_spec (vals : list LessonStep) (h : Heap) :
  let '(ls, h') := allocSteps vals h in
  h ⊆ h'
  /\ Forall (fun l => h !! l = None) ls
  /\ Forall2 (fun l s => h' !! l = Some s) ls vals.
Proof.
  revert h. induction vals as [|s vals IH]; intros h; simpl.
  - repeat split; auto.
  - set (l := fresh (dom h)).
    assert (Hl : h !! l = None) by (apply not_elem_of_dom, is_fresh).
    specialize (IH (<[l := s]> h)).
    destruct (allocSteps vals (<[l := s]> h)) as [ls h'].
    destruct IH as (Hsub & Hfresh & Hcopy).
    assert (Hsub' : h ⊆ h').
    { etrans; [|exact Hsub]. by apply insert_subseteq. }
    repeat split; auto.
    + constructor; auto.
      eapply Forall_impl; [exact Hfresh|]. simpl. intros x Hx.
      apply lookup_insert_None in Hx. tauto.
    + constructor; auto.
      eapply lookup_weaken; [|exact Hsub]. by rewrite lookup_insert_eq.
Qed.

Lemma falsy_has_no_prefix (url : string) :
  truthy (Some url) = false -> String.prefix "data:" url = false.
Proof.
  destruct url as [|a url]; [reflexivity|]. unfold truthy.
  by rewrite bool_decide_eq_false_2.
Qed.

Lemma stripStep_clean (s : LessonStep) : stepClean (stripStep s) = true.
Proof.
  unfold stripStep. destruct (imageUrl s) as [url|] eqn:E.
  - destruct (truthy (Some url) && String.prefix "data:" url) eqn:P.
    + reflexivity.
    + unfold stepClean. rewrite E.
      apply andb_false_iff in P as [P|P]; [|by rewrite P].
      by rewrite falsy_has_no_prefix.
  - unfold stepClean. by rewrite E.
Qed.

Lemma stripStep_idem (s : LessonStep) : stripStep (stripStep s) = stripStep s.
Proof.
  destruct (imageUrl s) as [url|] eqn:E.
  - destruct (truthy (Some url) && String.prefix "data:" url) eqn:P.
    + assert (stripStep s = withImage None s) as ->; [|reflexivity].
      unfold stripStep. by rewrite E, P.
    + assert (stripStep s = s) as ->; [|unfold stripStep]; unfold stripStep;
        by rewrite E, P.
  - assert (stripStep s = s) as ->; unfold stripStep; by rewrite E.
Qed.

Lemma stripAll_lookup (ls : list nat) (h : Heap) (l : nat) :
  stripAll ls h !! l
  = if bool_decide (l ∈ ls) then stripStep <$> h !! l else h !! l.
Proof.
  unfold stripAll. revert h. induction ls as [|x ls IH]; intros h.
  - rewrite bool_decide_eq_false_2 by apply not_elem_of_nil. reflexivity.
  - cbn [foldl]. rewrite IH. destruct (decide (l = x)) as [->|Hne].
    + rewrite lookup_alter_eq.
      rewrite (bool_decide_eq_true_2 (x ∈ x :: ls)) by apply list_elem_of_here.
      case_bool_decide; [|done]. destruct (h !! x); simpl; [|done].
      by rewrite stripStep_idem.
    + rewrite lookup_alter_ne by done.
      destruct (decide (l ∈ ls)).
      * by rewrite !bool_decide_eq_true_2 by (done || by apply list_elem_of_further).
      * rewrite (bool_decide_eq_false_2 (l ∈ ls)) by done.
        rewrite (bool_decide_eq_false_2 (l ∈ x :: ls)); [done|].
        rewrite not_elem_of_cons. tauto.
Qed.

(** What [sanitizeSession] returns, read back: the session with every
    step stripped, and a heap in which every older object is as it was. *)
Lemma sanitizeSession_spec (session : SavedSession nat) (h : Heap) :
  let '(copy, h') := sanitizeSession session h in
  id (freeze h' copy) = id session
  /\ sessionClean (freeze h' copy) = true
  /\ (forall l s, h !! l = Some s -> h' !! l = Some s).
Proof.
  unfold sanitizeSession. destruct (lessonPlan session) as [plan|] eqn:Ep.
  - pose proof (allocSteps_spec (readSteps h (steps plan)) h) as Ha.
    destruct (allocSteps (readSteps h (steps plan)) h) as [ls h1].
    destruct Ha as (Hsub & Hfresh & Hcopy).
    split; [reflexivity|]. split.
    + unfold sessionClean, freeze. simpl. unfold readSteps.
      apply forallb_forall. intros s Hs.
      apply list_elem_of_In, list_elem_of_omap in Hs as (l & Hl & Hs).
      rewrite stripAll_lookup, bool_decide_eq_true_2 in Hs by done.
      destruct (h1 !! l); simplify_eq/=. apply stripStep_clean.
    + intros l s Hl. rewrite stripAll_lookup.
      rewrite bool_decide_eq_false_2.
      * by eapply lookup_weaken.
      * intros Hin. rewrite Forall_forall in Hfresh.
        specialize (Hfresh l Hin). congruence.
  - split; [reflexivity|]. split; [|auto].
    unfold sessionClean, freeze. simpl. by rewrite Ep.
Qed.

Lemma filter_other_ids (sid : string) (store : Store) :
  NoDup (id <$> store) ->
  NoDup (id <$> List.filter (fun s => negb (bool_decide (id s = sid))) store)
  /\ sid ∉ (id <$> List.filter (fun s => negb (bool_decide (id s = sid))) store).
Proof.
  induction store as [|s store IH]; simpl; intros Hnd.
  - split; [constructor | apply not_elem_of_nil].
  - apply NoDup_cons in Hnd as [Hs Hnd]. destruct (IH Hnd) as [IH1 IH2].
    case_bool_decide; simpl; [done|].
    split.
    + apply NoDup_cons. split; [|done].
      intros Hin. apply Hs. apply list_elem_of_fmap in Hin as (x & -> & Hx).
      apply list_elem_of_fmap. exists x. split; [done|].
      apply list_elem_of_In in Hx. apply filter_In in Hx as [Hx _].
      by apply list_elem_of_In.
    + rewrite not_elem_of_cons. split; [congruence|done].
Qed.

Lemma filter_clean (f : SavedSession LessonStep -> bool) (store : Store) :
  Forall (fun s => sessionClean s = true) store ->
  Forall (fun s => sessionClean s = true) (List.filter f store).
Proof.
  intros H. apply Forall_forall. intros x Hx.
  apply list_elem_of_In, filter_In in Hx as [Hx _].
  rewrite Forall_forall in H. by apply H, list_elem_of_In.
Qed.

Lemma wellKept_take (n : nat) (store : Store) :
  (n <= 10)%nat ->
  NoDup (id <$> store) -> Forall (fun s => sessionClean s = true) store ->
  wellKept (take n store).
Proof.
  intros Hn Hnd Hcl. repeat split.
  - rewrite length_take. lia.
  - rewrite fmap_take. eapply sublist_NoDup; [exact Hnd|apply sublist_take].
  - by apply Forall_take.
Qed.

Lemma save_spec fits session h (store : Store) :
  wellKept store ->
  let '(h', store', outcome) := saveSessionToStorage fits session h store in
  wellKept store'
  /\ match outcome with
     | NotSaved => store' = store
     | Saved | SavedCurrentOnly =>
         exists c rest, store' = c :: rest
           /\ id c = id session /\ id session ∉ (id <$> rest)
     end
  /\ (forall l s, h !! l = Some s -> h' !! l = Some s).
Proof.
  intros (Hlen & Hnd & Hcl). unfold saveSessionToStorage, getSessionsFromStorage.
  pose proof (sanitizeSession_spec session h) as H1.
  destruct (sanitizeSession session h) as [c h1]. destruct H1 as (Hid & Hclean & Hkeep).
  destruct (filter_other_ids (id (freeze h1 c)) store Hnd) as [Hnd' Hnot].
  destruct (fits _); cbv beta match.
  - split; [|split; [|done]].
    + apply wellKept_take; [lia| |].
      * rewrite fmap_cons. apply NoDup_cons. split; [|done]. exact Hnot.
      * constructor; [done|]. by apply filter_clean.
    + cbn [take]. eexists _, _. split; [reflexivity|]. split; [done|].
      rewrite <- Hid. rewrite fmap_take.
      intros Hin. by apply subseteq_take in Hin.
  - pose proof (sanitizeSession_spec session h1) as H2.
    destruct (sanitizeSession session h1) as [c2 h2].
    destruct H2 as (Hid2 & Hclean2 & Hkeep2).
    destruct (fits _); cbv beta match; (split; [|split; [|by auto]]).
    + repeat split; [simpl; lia| |].
      * apply NoDup_singleton.
      * by constructor.
    + eexists _, _. split; [reflexivity|]. split; [done|]. apply not_elem_of_nil.
    + done.
    + reflexivity.
Qed.

Lemma save_wellKept fits session h (store : Store) :
  wellKept store -> wellKept (saveSessionToStorage fits session h store).1.2.
Proof.
  intros Hk. pose proof (save_spec fits session h store Hk) as H.
  destruct (saveSessionToStorage fits session h store) as [[h' store'] o].
  apply H.
Qed.

Lemma delete_wellKept fits sid (store : Store) :
  wellKept store -> wellKept (deleteSessionFromStorage fits sid store).1.
Proof.
  intros (Hlen & Hnd & Hcl). unfold deleteSessionFromStorage, getSessionsFromStorage.
  case_match; simpl; [|done].
  repeat split.
  - etrans; [apply filter_length_le|done].
  - by apply filter_other_ids.
  - by apply filter_clean.
Qed.

Lemma history_wellKept (ops : list Op) : wellKept (history ops).
Proof.
  unfold history.
  assert (forall st, wellKept st -> wellKept (foldl (fun st o => Storage.apply o st) st ops)) as H.
  { induction ops as [|o ops IH]; intros st Hst; simpl; [done|].
    apply IH. destruct o; simpl.
    - by apply save_wellKept.
    - by apply delete_wellKept. }
  apply H. repeat split; simpl; [lia|constructor|constructor].
Qed.

End StorageFacts.

(** ** The player *)

Section PlayerFacts.

Import Player.

Variable plan : LessonPlan LessonStep.
Variable decodable : string -> bool.

Ltac flow_unfold :=
  unfold effectA, effectB, effectC, effectD, effectP,
    runCleanupB, runCleanupC, runCleanupP,
    settle, resolveImage, afterImage, deliver, afterSpeech, updTask,
    playPCM, startSource, fallbackToWebSpeech, addHandle,
    grace, handleEnded, handleNextStep, stopAudio, clearTimeout, setTimeout in *.

Ltac frame :=
  intros; flow_unfold; repeat (case_match; simpl in * ); simpl; try reflexivity.

(** *** State that only [App] and the live toggle write *)

Lemma noAudio_setReadyAudio a u : noAudio (setReadyAudio a u) = noAudio u.
Proof. reflexivity. Qed.

Lemma noAudio_appState u u' : noAudio u = noAudio u' -> appState u = appState u'.
Proof.
  destruct u, u'. unfold noAudio, setReadyAudio, appState. simpl.
  intros H. injection H as -> -> -> -> -> -> -> ->. reflexivity.
Qed.

Lemma noAudio_depsA u u' : noAudio u = noAudio u' -> depsAof plan u = depsAof plan u'.
Proof.
  destruct u, u'. unfold noAudio, setReadyAudio, depsAof, stepKey, stepProp. simpl.
  intros H. injection H as -> -> -> -> -> -> -> ->. reflexivity.
Qed.

Lemma noAudio_depsB u u' : noAudio u = noAudio u' -> depsBof plan u = depsBof plan u'.
Proof.
  destruct u, u'.
  unfold noAudio, setReadyAudio, depsBof, stepKey, currentText, stepProp. simpl.
  intros H. injection H as -> -> -> -> -> -> -> ->. reflexivity.
Qed.

Lemma appState_index u u' :
  appState u = appState u' -> currentStepIndex u = currentStepIndex u'.
Proof. unfold appState. intros H. by injection H. Qed.

Lemma same_but_audio u u' :
  noAudio u = noAudio u' -> readyAudio u = readyAudio u' -> u = u'.
Proof.
  destruct u, u'. unfold noAudio, setReadyAudio. simpl. intros H ->.
  injection H as -> -> -> -> -> -> -> ->. reflexivity.
Qed.

(** *** What the effects leave alone *)

Lemma stopAudio_ui w : ui (stopAudio w) = ui w.
Proof. frame. Qed.

Lemma runCleanupB_ui c w : ui (runCleanupB c w) = ui w.
Proof. frame. Qed.
Lemma runCleanupC_ui c w : ui (runCleanupC c w) = ui w.
Proof. frame. Qed.
Lemma runCleanupP_ui c w : ui (runCleanupP c w) = ui w.
Proof. frame. Qed.

Lemma effectA_ui u w :
  ui (effectA plan u w)
  = if firesA plan u
    then setReadyAudio None
           (setInternalStepIndex (currentStepIndex u) (setIsPreparing true (ui w)))
    else ui w.
Proof.
  unfold firesA, effectA. destruct (stepProp plan u) as [s|] eqn:E.
  - rewrite (bool_decide_eq_true_2 (Some s ≠ None)) by done.
    destruct (isLiveSession u); simpl; [done|].
    case_bool_decide; simpl; [|done]. by rewrite stopAudio_ui.
  - by rewrite (bool_decide_eq_false_2 (None ≠ None)) by (intros H; by apply H).
Qed.

Lemma afterSpeech_noAudio k a w : noAudio (ui (afterSpeech k a w)) = noAudio (ui w).
Proof. frame. Qed.

Lemma afterImage_noAudio k w : noAudio (ui (afterImage plan k w)) = noAudio (ui w).
Proof. frame. Qed.

Lemma effectB_noAudio u w : noAudio (ui (effectB plan u w).1) = noAudio (ui w).
Proof. frame. Qed.

Lemma effectC_ui u w : ui (effectC plan decodable u w).1 = ui w.
Proof. frame. Qed.

Lemma effectD_ui u w : ui (effectD u w) = setIs3DMode false (ui w).
Proof. reflexivity. Qed.

Lemma effectP_ui u w : ui (effectP plan u w).1 = ui w.
Proof. frame. Qed.

Lemma render_noAudio w :
  noAudio (ui (render plan decodable w)) = noAudio (afterD w (afterA plan w)).
Proof.
  unfold render, afterA, afterD. cbv zeta.
  set (u := ui w). set (fx := effects w).
  set (chA := bool_decide (depsA fx ≠ _)). set (chB := bool_decide (depsB fx ≠ _)).
  set (chC := bool_decide (depsC fx ≠ _)). set (chD := bool_decide (depsD fx ≠ _)).
  set (chP := bool_decide (depsP fx ≠ _)).
  set (w1 := if chB then _ else w).
  set (w2 := if chC then _ else w1).
  set (w3 := if chP then _ else w2).
  assert (H3 : ui w3 = u).
  { subst w3 w2 w1. destruct chB, chC, chP;
      rewrite ?runCleanupP_ui, ?runCleanupC_ui, ?runCleanupB_ui; done. }
  set (w4 := if chA then _ else w3).
  assert (H4 : noAudio (ui w4)
               = noAudio (if chA && firesA plan u
                          then setInternalStepIndex (currentStepIndex u) (setIsPreparing true u)
                          else u)).
  { subst w4. destruct chA; simpl; [|by rewrite H3].
    rewrite effectA_ui, H3. by destruct (firesA plan u). }
  set (rB := if chB then _ else (w4, _)).
  assert (HB : noAudio (ui rB.1) = noAudio (ui w4)).
  { subst rB. destruct chB; [apply effectB_noAudio|done]. }
  set (rC := if chC then _ else (rB.1, _)).
  assert (HC : ui rC.1 = ui rB.1).
  { subst rC. destruct chC; [apply effectC_ui|done]. }
  set (w5 := if chD then _ else rC.1).
  set (rP := if chP then _ else (w5, _)).
  assert (HP : ui rP.1 = ui w5).
  { subst rP. destruct chP; [apply effectP_ui|done]. }
  cbn [ui setEffects]. rewrite HP. subst w5. destruct chD.
  - rewrite effectD_ui, HC.
    change (noAudio (setIs3DMode false (ui rB.1)))
      with (setIs3DMode false (noAudio (ui rB.1))).
    by rewrite HB, H4.
  - by rewrite HC, HB, H4.
Qed.

Lemma render_appState w :
  appState (ui (render plan decodable w)) = appState (ui w).
Proof.
  rewrite (noAudio_appState _ _ (render_noAudio w)).
  unfold afterD, afterA. by repeat case_match.
Qed.

(** *** The effects remember the render they ran in *)

Lemma render_stored w : storedFor plan (ui w) (effects (render plan decodable w)).
Proof. unfold render, storedFor. cbv zeta. cbn [effects setEffects depsA depsB depsC depsD depsP]. done. Qed.

Lemma render_settles w :
  ui (render plan decodable w) = ui w -> settled plan (render plan decodable w).
Proof. intros H. unfold settled. rewrite H. apply render_stored. Qed.

Lemma render_quiet_ui w :
  depsA (effects w) = Some (depsAof plan (ui w)) ->
  depsB (effects w) = Some (depsBof plan (ui w)) ->
  depsD (effects w) = Some (currentStepIndex (ui w)) ->
  ui (render plan decodable w) = ui w.
Proof.
  intros HA HB HD. unfold render. cbv zeta.
  rewrite (bool_decide_eq_false_2 (depsA _ ≠ _)) by (by intros H; apply H).
  rewrite (bool_decide_eq_false_2 (depsB _ ≠ _)) by (by intros H; apply H).
  rewrite (bool_decide_eq_false_2 (depsD _ ≠ _)) by (by intros H; apply H).
  set (chC := bool_decide (depsC _ ≠ _)). set (chP := bool_decide (depsP _ ≠ _)).
  cbn [ui setEffects]. destruct chC, chP; cbn [fst snd];
    rewrite ?effectP_ui, ?effectC_ui, ?runCleanupP_ui, ?runCleanupC_ui; done.
Qed.

Lemma depsAof_3D b u : depsAof plan (setIs3DMode b u) = depsAof plan u.
Proof. reflexivity. Qed.

(** After one render the index-change effect has nothing left to do. *)
Lemma second_render_noAudio w :
  let w1 := render plan decodable w in
  noAudio (ui (render plan decodable w1)) = noAudio (ui w1).
Proof.
  intros w1. rewrite render_noAudio.
  pose proof (render_stored w) as (HA & _ & _ & HD & _). fold w1 in HA, HD.
  pose proof (render_appState w) as Happ. fold w1 in Happ.
  pose proof (render_noAudio w) as H1. fold w1 in H1.
  assert (Hcur : currentStepIndex (ui w1) = currentStepIndex (ui w))
    by apply appState_index, Happ.
  unfold afterD at 1. rewrite HD, Hcur.
  rewrite (bool_decide_eq_false_2 (Some _ ≠ Some _)) by (by intros H; apply H).
  unfold afterA at 1. rewrite HA.
  destruct (bool_decide (Some (depsAof plan (ui w)) ≠ Some (depsAof plan (ui w1)))) eqn:Hch;
    [|done].
  apply bool_decide_eq_true in Hch.
  destruct (firesA plan (ui w1)) eqn:Hf; [|done]. exfalso.
  unfold afterA in H1.
  destruct (bool_decide (depsA (effects w) ≠ Some (depsAof plan (ui w))) && firesA plan (ui w))
    eqn:Hfired.
  - assert (Hint : internalStepIndex (ui w1) = currentStepIndex (ui w)).
    { change (internalStepIndex (noAudio (ui w1)) = currentStepIndex (ui w)).
      rewrite H1. unfold afterD. by case_match. }
    unfold firesA in Hf. rewrite !andb_true_iff in Hf. destruct Hf as [_ Hne].
    apply bool_decide_eq_true in Hne. congruence.
  - apply Hch. f_equal. symmetry.
    rewrite (noAudio_depsA _ _ H1). unfold afterD. case_match; [apply depsAof_3D|done].
Qed.

(** Three renders are enough for any world to settle. *)
Lemma commit_settles n w : settled plan (commit plan decodable (3 + n) w).
Proof.
  cbn [commit Nat.add]. case_bool_decide as H1; [apply render_settles; exact H1|].
  case_bool_decide as H2; [apply render_settles; exact H2|].
  pose proof (second_render_noAudio w) as HN. cbv zeta in HN.
  pose proof (render_stored (render plan decodable w)) as (HA & HB & _ & HD & _).
  set (w1 := render plan decodable w) in *.
  set (w2 := render plan decodable w1) in *.
  clearbody w2. clearbody w1.
  assert (H3 : ui (render plan decodable w2) = ui w2).
  { apply render_quiet_ui.
    - rewrite HA. f_equal. symmetry. exact (noAudio_depsA _ _ HN).
    - rewrite HB. f_equal. symmetry. exact (noAudio_depsB _ _ HN).
    - rewrite HD. f_equal. symmetry. apply appState_index, noAudio_appState, HN. }
  assert (Hs : settled plan (render plan decodable w2)) by (apply render_settles; exact H3).
  destruct n; cbn [commit]; rewrite bool_decide_eq_true_2 by exact H3; exact Hs.
Qed.

(** The third render of a commit never sets state. *)
Lemma third_render_quiet w :
  let w2 := render plan decodable (render plan decodable w) in
  ui (render plan decodable w2) = ui w2.
Proof.
  intros w2.
  pose proof (second_render_noAudio w) as HN. cbv zeta in HN.
  pose proof (render_stored (render plan decodable w)) as (HA & HB & _ & HD & _).
  fold w2 in HN, HA, HB, HD.
  set (w1 := render plan decodable w) in *. clearbody w2. clearbody w1.
  apply render_quiet_ui.
  - rewrite HA. f_equal. symmetry. exact (noAudio_depsA _ _ HN).
  - rewrite HB. f_equal. symmetry. exact (noAudio_depsB _ _ HN).
  - rewrite HD. f_equal. symmetry. apply appState_index, noAudio_appState, HN.
Qed.

(** The flow effects cannot feed each other for ever: whatever the state,
    a commit is over after three renders at most, far from the 50 nested
    updates at which React gives up, and it ends in a world whose effects
    have all run for the state it is in. *)
Theorem effect_loop_settles_within_three_renders (n : nat) (w : World) :
  commit plan decodable (3 + n) w = commit plan decodable 3 w
  /\ commit plan decodable maxUpdateDepth w = commit plan decodable 3 w
  /\ ui (render plan decodable (commit plan decodable 3 w))
     = ui (commit plan decodable 3 w).
Proof.
  assert (Hfuel : forall m, commit plan decodable (3 + m) w = commit plan decodable 3 w).
  { intros m. cbn [commit Nat.add].
    case_bool_decide as H1; [done|]. case_bool_decide as H2; [done|].
    pose proof (third_render_quiet w) as H3. cbv zeta in H3.
    set (w2 := render plan decodable (render plan decodable w)) in *. clearbody w2.
    rewrite (bool_decide_eq_true_2 _ H3). by destruct m. }
  split; [apply Hfuel|]. split; [apply (Hfuel 47%nat)|].
  pose proof (commit_settles 0 w) as (HA & HB & _ & HD & _).
  cbn [Nat.add] in HA, HB, HD.
  set (w3 := commit plan decodable 3 w) in *. clearbody w3.
  by apply render_quiet_ui.
Qed.

Lemma commit_appState n w :
  appState (ui (commit plan decodable n w)) = appState (ui w).
Proof.
  revert w. induction n as [|n IH]; intros w; cbn [commit]; [done|].
  case_bool_decide; [apply render_appState|].
  rewrite IH. apply render_appState.
Qed.

(** *** Preparation tasks *)

Lemma stageOnly_refl l : stageOnly l l.
Proof. apply Forall_Forall2_diag, Forall_forall. by intros t _. Qed.

Lemma stageOnly_trans l1 l2 l3 : stageOnly l1 l2 -> stageOnly l2 l3 -> stageOnly l1 l3.
Proof.
  unfold stageOnly. intros H12 H23. eapply Forall2_trans; [|exact H12|exact H23].
  intros x y z (? & ? & ?) (? & ? & ?). unfold sameTask. repeat split; congruence.
Qed.

Lemma stageOnly_fmap (g : PrepTask -> PrepTask) l :
  (forall t, sameTask t (g t)) -> stageOnly l (g <$> l).
Proof. intros Hg. apply Forall2_fmap_r, Forall_Forall2_diag, Forall_forall. auto. Qed.

Lemma sameTask_stage k s t :
  sameTask t (if Nat.eqb (p_id t) k then setStage s t else t).
Proof. by case_match. Qed.

Ltac tasks_frame :=
  intros; flow_unfold; repeat (case_match; simpl in * ); simpl;
  rewrite <- ?list_fmap_compose;
  first [ apply stageOnly_refl
        | apply stageOnly_fmap; intros ?; unfold compose; simpl;
          repeat case_match; done ].

Lemma afterSpeech_tasks k a w : stageOnly (tasks w) (tasks (afterSpeech k a w)).
Proof. tasks_frame. Qed.

Lemma deliver_tasks d w : stageOnly (tasks w) (tasks (deliver d w)).
Proof. tasks_frame. Qed.

Lemma afterImage_tasks k w : stageOnly (tasks w) (tasks (afterImage plan k w)).
Proof. tasks_frame. Qed.

Lemma resolveImage_tasks k w : stageOnly (tasks w) (tasks (resolveImage plan k w)).
Proof. tasks_frame. Qed.

Lemma settle_tasks k w : stageOnly (tasks w) (tasks (settle k w)).
Proof. tasks_frame. Qed.

Lemma effectA_tasks u w : tasks (effectA plan u w) = tasks w.
Proof. frame. Qed.
Lemma effectC_tasks u w : tasks (effectC plan decodable u w).1 = tasks w.
Proof. frame. Qed.
Lemma effectP_tasks u w : tasks (effectP plan u w).1 = tasks w.
Proof. frame. Qed.
Lemma runCleanupC_tasks c w : tasks (runCleanupC c w) = tasks w.
Proof. frame. Qed.
Lemma runCleanupP_tasks c w : tasks (runCleanupP c w) = tasks w.
Proof. frame. Qed.

(** The prepare effect either does nothing or starts one task, for the
    render it runs in. *)
Lemma effectB_tasks u w :
  ((effectB plan u w).2 = None /\ tasks (effectB plan u w).1 = tasks w)
  \/ (exists k,
        (effectB plan u w).2 = Some k
        /\ stepProp plan u <> None /\ isPreparing u = true /\ isLiveSession u = false
        /\ stageOnly
             (tasks w ++ [{| p_id := k; p_render := u; isCancelled := false;
                             p_stage := AwaitImage |}])
             (tasks (effectB plan u w).1)).
Proof.
  unfold effectB. destruct (stepProp plan u) as [s|] eqn:Es; [|by left].
  destruct (isPreparing u) eqn:Ep; simpl; [|by left].
  destruct (isLiveSession u) eqn:El; simpl; [by left|].
  right. exists (nextId w). split; [done|]. split; [done|]. split; [done|]. split; [done|].
  case_match.
  - apply stageOnly_refl.
  - apply (afterImage_tasks (nextId w)
             (setNextId (S (nextId w))
                (setTasks (tasks w ++ [{| p_id := nextId w; p_render := u;
                                          isCancelled := false; p_stage := AwaitImage |}]) w))).
Qed.

Lemma taskOk_stageOnly fx l l' :
  stageOnly l l' -> Forall (taskOk plan fx) l -> Forall (taskOk plan fx) l'.
Proof.
  induction 1 as [|t t' l l' (Hi & Hr & Hc) _ IH]; intros H; [done|].
  apply Forall_cons in H as [Ht Hl]. constructor; [|by apply IH].
  unfold taskOk in *. rewrite Hi, Hr, Hc. exact Ht.
Qed.

Lemma taskOk_cancelled fx fx' l :
  Forall (taskOk plan fx) l ->
  Forall (fun t => isCancelled t = true) l ->
  Forall (taskOk plan fx') l.
Proof.
  intros H1 H2. apply Forall_forall. intros t Ht.
  rewrite Forall_forall in H1, H2. destruct (H1 t Ht) as [Hs _].
  split; [done|]. rewrite (H2 t Ht). discriminate.
Qed.

Lemma runCleanupB_cancels w :
  tasksOk plan w ->
  Forall (taskOk plan (effects w)) (tasks (runCleanupB (cleanupB (effects w)) w))
  /\ Forall (fun t => isCancelled t = true)
        (tasks (runCleanupB (cleanupB (effects w)) w)).
Proof.
  unfold tasksOk, runCleanupB. intros H.
  destruct (cleanupB (effects w)) as [k|] eqn:Ec.
  - unfold updTask. cbn [tasks setTasks]. rewrite !Forall_fmap.
    split; (eapply Forall_impl; [exact H|]); intros t [Hs Ht]; simpl.
    + destruct (Nat.eqb (p_id t) k); [|done]. split; [done|]. simpl. discriminate.
    + destruct (isCancelled t) eqn:E.
      * by destruct (Nat.eqb (p_id t) k).
      * destruct (Ht eq_refl) as [Hk _]. rewrite Ec in Hk. injection Hk as ->.
        by rewrite Nat.eqb_refl.
  - split; [done|]. eapply Forall_impl; [exact H|]. intros t [Hs Ht].
    destruct (isCancelled t); [done|]. destruct (Ht eq_refl) as [Hk _]. congruence.
Qed.

(** The part of a render that concerns the preparation tasks: the cleanup
    of the prepare effect, then (after the index-change effect, which does
    not touch them) its body. *)
Lemma render_tasks w :
  let u := ui w in
  let fx := effects w in
  let chB := bool_decide (depsB fx ≠ Some (depsBof plan u)) in
  exists wB,
    tasks wB = tasks (if chB then runCleanupB (cleanupB fx) w else w)
    /\ let rB := if chB then effectB plan u wB else (wB, cleanupB fx) in
       tasks (render plan decodable w) = tasks rB.1
       /\ cleanupB (effects (render plan decodable w)) = rB.2
       /\ depsB (effects (render plan decodable w)) = Some (depsBof plan u).
Proof.
  intros u fx chB. unfold render. cbv zeta. fold u fx chB.
  set (chA := bool_decide (depsA fx ≠ _)).
  set (chC := bool_decide (depsC fx ≠ _)). set (chD := bool_decide (depsD fx ≠ _)).
  set (chP := bool_decide (depsP fx ≠ _)).
  set (w1 := if chB then _ else w).
  set (w2 := if chC then _ else w1).
  set (w3 := if chP then _ else w2).
  set (w4 := if chA then _ else w3).
  exists w4. split.
  { subst w4 w3 w2. destruct chA, chP, chC;
      rewrite ?effectA_tasks, ?runCleanupP_tasks, ?runCleanupC_tasks; reflexivity. }
  cbv zeta. set (rB := if chB then _ else (w4, _)).
  set (rC := if chC then _ else (rB.1, _)).
  set (w5 := if chD then _ else rC.1).
  set (rP := if chP then _ else (w5, _)).
  cbn [tasks effects setEffects cleanupB depsB]. split; [|done].
  subst rP w5 rC. destruct chP, chD, chC; cbn [fst snd];
    rewrite ?effectP_tasks; unfold effectD; cbn [tasks updUi];
    rewrite ?effectC_tasks; reflexivity.
Qed.

Lemma render_tasksOk w : tasksOk plan w -> tasksOk plan (render plan decodable w).
Proof.
  intros Hok. destruct (render_tasks w) as (wB & HwB & Ht & Hc & Hd).
  unfold tasksOk. rewrite Ht. clear Ht.
  set (fx' := effects (render plan decodable w)) in *. clearbody fx'.
  destruct (bool_decide (depsB (effects w) ≠ Some (depsBof plan (ui w)))) eqn:Hch.
  - destruct (runCleanupB_cancels w Hok) as [Hok1 Hcan]. rewrite <- HwB in Hok1, Hcan.
    destruct (effectB_tasks (ui w) wB) as [[Hn Hsame] | (k & Hk & Hs & Hp & Hl & Hst)].
    + rewrite Hsame. by eapply taskOk_cancelled.
    + eapply taskOk_stageOnly; [exact Hst|]. apply Forall_app. split.
      * by eapply taskOk_cancelled.
      * constructor; [|done]. split; [done|]. intros _. cbn [p_id p_render].
        rewrite Hc, Hd, Hk. done.
  - apply bool_decide_eq_false in Hch.
    assert (Hdeps : depsB (effects w) = Some (depsBof plan (ui w))).
    { destruct (decide (depsB (effects w) = Some (depsBof plan (ui w)))); [done|].
      by exfalso. }
    cbn [fst snd] in *. rewrite HwB. eapply Forall_impl; [exact Hok|].
    intros t [Hs Hlive]. split; [done|]. intros Hn. destruct (Hlive Hn) as [H1 H2].
    rewrite Hc, Hd. split; [done|]. by rewrite <- H2, Hdeps.
Qed.

Lemma commit_tasksOk n w : tasksOk plan w -> tasksOk plan (commit plan decodable n w).
Proof.
  revert w. induction n as [|n IH]; intros w Hok; cbn [commit]; [done|].
  case_bool_decide; [by apply render_tasksOk|]. by apply IH, render_tasksOk.
Qed.

(** *** Event handlers *)

Lemma resumeAll_frame (ps : list PcmTask) w :
  let w' := fold_left (fun w' p => startSource decodable (pcm_data p) (pcm_render p) w') ps w in
  ui w' = ui w /\ tasks w' = tasks w /\ effects w' = effects w /\ tts w' = tts w.
Proof.
  revert w. induction ps as [|p ps IH]; intros w; cbn [fold_left]; [done|].
  destruct (IH (startSource decodable (pcm_data p) (pcm_render p) w)) as (-> & -> & -> & ->).
  frame; done.
Qed.

Lemma handle_effects e w : effects (handle plan decodable e w) = effects w.
Proof.
  destruct e; unfold handle, fire, toggleLiveSession, answerFollowUp;
    try (frame; fail).
  destruct (audioContext w) as [[|]|]; try done.
  destruct (resuming w) as [|p ps] eqn:E; [done|]. rewrite <- E.
  by destruct (resumeAll_frame (resuming w) (setResuming [] (setAudioContext (Some running) w)))
    as (_ & _ & -> & _).
Qed.

Lemma handle_tasks e w : stageOnly (tasks w) (tasks (handle plan decodable e w)).
Proof.
  destruct e; unfold handle, fire, toggleLiveSession, answerFollowUp;
    try (tasks_frame; fail).
  destruct (audioContext w) as [[|]|]; try apply stageOnly_refl.
  destruct (resuming w) as [|p ps] eqn:E; [apply stageOnly_refl|]. rewrite <- E.
  destruct (resumeAll_frame (resuming w) (setResuming [] (setAudioContext (Some running) w)))
    as (_ & -> & _ & _).
  apply stageOnly_refl.
Qed.

Lemma handle_tasksOk e w : tasksOk plan w -> tasksOk plan (handle plan decodable e w).
Proof.
  unfold tasksOk. rewrite handle_effects. apply taskOk_stageOnly, handle_tasks.
Qed.

(** *** Reachable worlds *)

Lemma react_good e w : good plan w -> good plan (react plan decodable e w).
Proof.
  intros [Hok Hset]. unfold react. case_bool_decide as Hui.
  - split; [by apply handle_tasksOk|].
    unfold settled. rewrite handle_effects, Hui. exact Hset.
  - split; [by apply commit_tasksOk, handle_tasksOk|]. apply (commit_settles 47).
Qed.

Lemma mount_good muted ctx synth : good plan (mount plan decodable muted ctx synth).
Proof.
  split; [|apply (commit_settles 47)]. apply commit_tasksOk. constructor.
Qed.

Lemma run_good es w : good plan w -> good plan (run plan decodable es w).
Proof.
  revert w. induction es as [|e es IH]; intros w Hw; [done|].
  apply IH, react_good, Hw.
Qed.

(** *** Completions of a preparation task *)

Lemma find_fmap_sameTask (g : PrepTask -> PrepTask) k l :
  (forall t, p_id (g t) = p_id t) ->
  List.find (fun t => Nat.eqb (p_id t) k) (g <$> l)
  = g <$> List.find (fun t => Nat.eqb (p_id t) k) l.
Proof.
  intros Hg. induction l as [|t l IH]; [done|]. cbn [fmap list_fmap List.find].
  rewrite Hg. by destruct (Nat.eqb (p_id t) k).
Qed.

Lemma findTask_updTask_stage k s w :
  findTask k (updTask k (setStage s) w) = setStage s <$> findTask k w.
Proof.
  unfold findTask, updTask. cbn [tasks setTasks].
  rewrite (find_fmap_sameTask (fun t => if Nat.eqb (p_id t) k then setStage s t else t)).
  - destruct (List.find _ (tasks w)) as [t|] eqn:E; [|done]. simpl.
    apply find_some in E as [_ E]. by rewrite E.
  - intros t. by case_match.
Qed.

Lemma generateGeminiTTS_cont (text : string) (c c' : Cont) a st st' :
  Tts.generateGeminiTTS text c st = (st', Some (c', a)) -> c' = c.
Proof. unfold Tts.generateGeminiTTS. repeat case_match; intros; by simplify_eq. Qed.

Lemma gatewayReply_delivers id res (st : Tts.State Cont) r :
  Tts.findRequest id st = Some r ->
  exists a, (Tts.gatewayReply id res st).2 = Some (Tts.rq_cont r, a).
Proof.
  intros H. unfold Tts.gatewayReply. rewrite H. repeat case_match; simpl; eauto.
Qed.

Lemma afterSpeech_cancelled k a w t :
  findTask k w = Some t -> isCancelled t = true -> ui (afterSpeech k a w) = ui w.
Proof. intros Hf Hc. unfold afterSpeech. by rewrite Hf, Hc. Qed.

Lemma afterImage_cancelled k w t :
  findTask k w = Some t -> isCancelled t = true -> ui (afterImage plan k w) = ui w.
Proof.
  intros Hf Hc. unfold afterImage. rewrite Hf.
  destruct (isMuted (p_render t)); [by eapply afterSpeech_cancelled|].
  destruct (Tts.generateGeminiTTS _ _ _) as [st [[c a]|]] eqn:E; [|done].
  apply generateGeminiTTS_cont in E as ->. unfold deliver.
  erewrite afterSpeech_cancelled; [done| |].
  - rewrite findTask_updTask_stage.
    change (findTask k (setTts st w)) with (findTask k w). by rewrite Hf.
  - done.
Qed.

Lemma resolveImage_cancelled k w t :
  findTask k w = Some t -> isCancelled t = true -> ui (resolveImage plan k w) = ui w.
Proof.
  intros Hf Hc. unfold resolveImage. rewrite Hf.
  destruct (p_stage t); try done. by eapply afterImage_cancelled.
Qed.

Lemma settle_cancelled k w t :
  findTask k w = Some t -> isCancelled t = true -> ui (settle k w) = ui w.
Proof. intros Hf Hc. unfold settle. by rewrite Hf, Hc. Qed.

(** The completion of a cancelled task sets no state. *)
Lemma cancelled_delivery_sets_nothing e w k t :
  deliversTo e w = Some k -> findTask k w = Some t -> isCancelled t = true ->
  ui (handle plan decodable e w) = ui w.
Proof.
  intros Hd Hf Hc. destruct e; try discriminate; cbn [deliversTo handle] in *.
  - destruct (earliest (timers w)) as [tm|]; [|done]. unfold fire.
    set (w1 := clearTimeout _ _).
    assert (Hf1 : findTask k w1 = Some t) by exact Hf.
    assert (Hu1 : ui w1 = ui w) by reflexivity.
    destruct (t_action tm); simplify_eq.
    + by erewrite resolveImage_cancelled.
    + by erewrite settle_cancelled.
  - simplify_eq. by eapply resolveImage_cancelled.
  - destruct (Tts.findRequest id (tts w)) as [r|] eqn:Er; [|done].
    destruct (gatewayReply_delivers id res (tts w) r Er) as [a Ha].
    destruct (Tts.gatewayReply id res (tts w)) as [st d]. simpl in Ha. subst d.
    destruct (Tts.rq_cont r); simplify_eq. cbn [deliver].
    by erewrite afterSpeech_cancelled.
Qed.

(** A task that is not cancelled closes over the step the player is at. *)
Lemma live_task_is_current w t :
  good plan w -> t ∈ tasks w -> isCancelled t = false ->
  currentStepIndex (p_render t) = currentStepIndex (ui w)
  /\ isMuted (p_render t) = isMuted (ui w)
  /\ cleanupB (effects w) = Some (p_id t).
Proof.
  intros [Hok (_ & HB & _)] Hin Hlive. unfold tasksOk in Hok.
  rewrite Forall_forall in Hok. destruct (Hok t Hin) as [Hstep Hb].
  destruct (Hb Hlive) as [Hc Hd]. rewrite Hd in HB. injection HB as _ Hkey _ _ Hm _.
  split; [|by split]. unfold stepKey in Hkey.
  destruct (stepProp plan (p_render t)); [|done].
  destruct (stepProp plan (ui w)); by simplify_eq.
Qed.

(** C1: at any point of any run, a preparation task whose step is no
    longer the current one has been cancelled; the completion of a
    cancelled task (its image settling, its synthesis answer, the end of its
    settle delay) changes nothing of the React state; and a completion that
    does change it belongs to the task the prepare effect started last,
    which targets the current step index. *)
Theorem stale_preparation_is_never_applied
    (muted : bool) (ctx : option CtxState) (synth : bool) (es : list Event) :
  let w := run plan decodable es (mount plan decodable muted ctx synth) in
  (forall t, t ∈ tasks w ->
     currentStepIndex (p_render t) <> currentStepIndex (ui w) ->
     isCancelled t = true)
  /\ (forall e k t,
       deliversTo e w = Some k -> findTask k w = Some t -> isCancelled t = true ->
       ui (react plan decodable e w) = ui w)
  /\ (forall e k t,
       deliversTo e w = Some k -> findTask k w = Some t ->
       ui (react plan decodable e w) <> ui w ->
       isCancelled t = false
       /\ currentStepIndex (p_render t) = currentStepIndex (ui w)
       /\ cleanupB (effects w) = Some k).
Proof.
  intros w.
  assert (Hgood : good plan w) by apply run_good, mount_good.
  assert (Hnoop : forall e k t,
             deliversTo e w = Some k -> findTask k w = Some t -> isCancelled t = true ->
             ui (react plan decodable e w) = ui w).
  { intros e k t Hd Hf Hc. unfold react.
    pose proof (cancelled_delivery_sets_nothing e w k t Hd Hf Hc) as Hu.
    by rewrite bool_decide_eq_true_2. }
  split; [|split; [exact Hnoop|]].
  - intros t Hin Hne. destruct (isCancelled t) eqn:Hc; [done|].
    destruct (live_task_is_current w t Hgood Hin Hc) as [Hcur _]. done.
  - intros e k t Hd Hf Hch. destruct (isCancelled t) eqn:Hc.
    { exfalso. apply Hch. by eapply Hnoop. }
    unfold findTask in Hf. apply find_some in Hf as [Hin Hid].
    apply Nat.eqb_eq in Hid. apply list_elem_of_In in Hin.
    destruct (live_task_is_current w t Hgood Hin Hc) as (Hcur & _ & Hcl).
    rewrite Hid in Hcl. done.
Qed.

(** *** Audio while nothing may play *)

Lemma calmer_fmap (g : Handle -> Handle) hs :
  (forall h, calmerHandle h (g h)) -> Forall2 calmerHandle hs (g <$> hs).
Proof. intros Hg. apply Forall2_fmap_r, Forall_Forall2_diag, Forall_forall. auto. Qed.

Lemma calmerHandle_refl h : calmerHandle h h.
Proof. by repeat split. Qed.

Lemma calmerHandle_deactivate h : calmerHandle h (deactivate h).
Proof. repeat split. simpl. discriminate. Qed.

Lemma quietStep_refl w : quietStep w w.
Proof.
  split; [|by left]. apply Forall_Forall2_diag, Forall_forall.
  intros h _. apply calmerHandle_refl.
Qed.

Lemma quietStep_eq w w' :
  handles w' = handles w -> audioSourceRef w' = audioSourceRef w -> quietStep w w'.
Proof. intros Hh Hr. unfold quietStep. rewrite Hh, Hr. apply quietStep_refl. Qed.

Lemma quietStep_trans w1 w2 w3 : quietStep w1 w2 -> quietStep w2 w3 -> quietStep w1 w3.
Proof.
  intros [H12 R12] [H23 R23]. split.
  - eapply Forall2_trans; [|exact H12|exact H23].
    intros x y z (? & ? & ? & ?) (? & ? & ? & ?). repeat split; try congruence. auto.
  - destruct R23 as [-> | ->]; [exact R12|by right].
Qed.

Lemma stopAudio_quiet w : quietStep w (stopAudio w).
Proof.
  unfold stopAudio.
  set (w1 := if speech w then setHandles (cancelSpeech (handles w)) w else w).
  assert (H1 : quietStep w w1).
  { subst w1. destruct (speech w); [|apply quietStep_refl]. split; [|by left].
    apply calmer_fmap. intros h.
    destruct (h_kind h); [apply calmerHandle_refl|apply calmerHandle_deactivate]. }
  eapply quietStep_trans; [exact H1|]. destruct (audioSourceRef w1) as [id|];
    [|apply quietStep_refl].
  split; [|by right]. cbn [handles setAudioSourceRef setHandles]. apply calmer_fmap.
  intros h. destruct (Nat.eqb (h_id h) id);
    [apply calmerHandle_deactivate|apply calmerHandle_refl].
Qed.

Lemma idle_appState u u' : appState u = appState u' -> idle u -> idle u'.
Proof.
  unfold appState, idle. intros H. injection H as _ Hp _ _ Hl. by rewrite Hp, Hl.
Qed.

Lemma effectC_idle u w : idle u -> effectC plan decodable u w = (w, false).
Proof.
  intros [Hl|Hp]; unfold effectC.
  - rewrite Hl, orb_true_r. done.
  - destruct (isPreparing u || isLiveSession u); [done|].
    case_bool_decide; [done|]. by rewrite bool_decide_eq_true_2.
Qed.

Lemma effectA_quiet u w : quietStep w (effectA plan u w).
Proof.
  unfold effectA. repeat case_match; try apply quietStep_refl.
  eapply quietStep_trans; [apply stopAudio_quiet|]. by apply quietStep_eq.
Qed.

Lemma effectB_quiet u w : quietStep w (effectB plan u w).1.
Proof. apply quietStep_eq; frame. Qed.

Lemma effectP_quiet u w : quietStep w (effectP plan u w).1.
Proof. apply quietStep_eq; frame. Qed.

Lemma render_idle_quiet w : idle (ui w) -> quietStep w (render plan decodable w).
Proof.
  intros Hidle. unfold render. cbv zeta.
  set (u := ui w). set (fx := effects w).
  set (chA := bool_decide (depsA fx ≠ _)). set (chB := bool_decide (depsB fx ≠ _)).
  set (chC := bool_decide (depsC fx ≠ _)). set (chD := bool_decide (depsD fx ≠ _)).
  set (chP := bool_decide (depsP fx ≠ _)).
  set (w1 := if chB then _ else w).
  assert (H1 : quietStep w w1).
  { subst w1. destruct chB; [|apply quietStep_refl]. apply quietStep_eq; frame. }
  set (w2 := if chC then _ else w1).
  assert (H2 : quietStep w1 w2).
  { subst w2. destruct chC; [|apply quietStep_refl]. unfold runCleanupC.
    case_match; [apply stopAudio_quiet|apply quietStep_refl]. }
  set (w3 := if chP then _ else w2).
  assert (H3 : quietStep w2 w3).
  { subst w3. destruct chP; [|apply quietStep_refl]. apply quietStep_eq; frame. }
  set (w4 := if chA then _ else w3).
  assert (H4 : quietStep w3 w4).
  { subst w4. destruct chA; [apply effectA_quiet|apply quietStep_refl]. }
  set (rB := if chB then _ else (w4, _)).
  assert (HB : quietStep w4 rB.1).
  { subst rB. destruct chB; [apply effectB_quiet|apply quietStep_refl]. }
  set (rC := if chC then _ else (rB.1, _)).
  assert (HC : rC.1 = rB.1).
  { subst rC. destruct chC; [|done]. by rewrite effectC_idle. }
  set (w5 := if chD then _ else rC.1).
  assert (H5 : quietStep rB.1 w5).
  { subst w5. rewrite HC. destruct chD; [|apply quietStep_refl]. by apply quietStep_eq. }
  set (rP := if chP then _ else (w5, _)).
  assert (HP : quietStep w5 rP.1).
  { subst rP. destruct chP; [apply effectP_quiet|apply quietStep_refl]. }
  clearbody rP w5 rC rB w4 w3 w2 w1.
  apply (quietStep_trans _ rP.1); [|by apply quietStep_eq].
  repeat (eapply quietStep_trans; [eassumption|]). apply quietStep_refl.
Qed.

Lemma commit_idle_quiet n w : idle (ui w) -> quietStep w (commit plan decodable n w).
Proof.
  revert w. induction n as [|n IH]; intros w Hidle; cbn [commit]; [apply quietStep_refl|].
  case_bool_decide; [by apply render_idle_quiet|].
  eapply quietStep_trans; [by apply render_idle_quiet|]. apply IH.
  eapply idle_appState; [|exact Hidle]. symmetry. apply render_appState.
Qed.

Lemma stopAudio_unreached w :
  Forall (unreached (audioSourceRef w) (speech w)) (handles (stopAudio w)).
Proof.
  assert (Hspeech : forall h,
            unreached None (speech w)
              (if speech w
               then match h_kind h with Utterance => deactivate h | BufferSource => h end
               else h)).
  { intros h. destruct (speech w); [|by split].
    destruct (h_kind h) eqn:Ek; intros Ha; [by split|discriminate Ha]. }
  unfold stopAudio.
  set (w1 := if speech w then setHandles (cancelSpeech (handles w)) w else w).
  assert (Hr : audioSourceRef w1 = audioSourceRef w) by (subst w1; by destruct (speech w)).
  assert (H1 : Forall (unreached None (speech w)) (handles w1)).
  { subst w1. destruct (speech w) eqn:Es.
    - cbn [handles setHandles]. apply Forall_fmap, Forall_forall. intros h _.
      exact (Hspeech h).
    - apply Forall_forall. intros h _. split; [done|]. intros Hs. discriminate Hs. }
  rewrite Hr. destruct (audioSourceRef w) as [id|].
  - cbn [handles setHandles setAudioSourceRef]. unfold stopSource.
    apply Forall_fmap. eapply Forall_impl; [exact H1|]. intros h Hh. unfold compose.
    destruct (Nat.eqb (h_id h) id) eqn:Ei.
    + intros Ha. discriminate Ha.
    + intros Ha. destruct (Hh Ha) as [_ Hk]. split; [|exact Hk].
      apply Nat.eqb_neq in Ei. congruence.
  - exact H1.
Qed.

Lemma unreached_calmer ref synth hs hs' :
  Forall2 calmerHandle hs hs' ->
  Forall (unreached ref synth) hs -> Forall (unreached ref synth) hs'.
Proof.
  induction 1 as [|h h' hs hs' (Hi & Hk & _ & Ha) _ IH]; intros H; [done|].
  apply Forall_cons in H as [Hh Hhs]. constructor; [|by apply IH].
  unfold unreached in *. rewrite Hi, Hk. intros Hact. apply Hh, Ha, Hact.
Qed.

Lemma playerShown_paused u : playerState u = PAUSED -> playerShown plan u = true.
Proof.
  unfold playerShown. intros ->.
  rewrite (bool_decide_eq_false_2 (PAUSED = LOADING)) by discriminate.
  rewrite (bool_decide_eq_false_2 (PAUSED = IDLE)) by discriminate.
  by rewrite andb_false_r.
Qed.

Lemma stopAudio_clears_ref w : audioSourceRef (stopAudio w) = None.
Proof.
  unfold stopAudio.
  set (w1 := if speech w then setHandles (cancelSpeech (handles w)) w else w).
  destruct (audioSourceRef w1) eqn:E; [reflexivity|exact E].
Qed.

(** [stopAudio] starts nothing, stops the source [audioSourceRef] holds
    and, where the platform has a speech queue, every utterance; it clears
    the ref and sets no React state.  A source the ref does not hold is out
    of its reach. *)
Theorem stopAudio_silences_what_it_holds (w : World) :
  audioSourceRef (stopAudio w) = None
  /\ ui (stopAudio w) = ui w
  /\ Forall2 calmerHandle (handles w) (handles (stopAudio w))
  /\ Forall (unreached (audioSourceRef w) (speech w)) (handles (stopAudio w)).
Proof.
  split; [apply stopAudio_clears_ref|]. split; [apply stopAudio_ui|].
  split; [apply (stopAudio_quiet w)|apply stopAudio_unreached].
Qed.

Lemma commit_idle n w :
  idle (ui w) ->
  let w' := commit plan decodable n w in
  appState (ui w') = appState (ui w)
  /\ Forall2 calmerHandle (handles w) (handles w')
  /\ (audioSourceRef w = None -> audioSourceRef w' = None).
Proof.
  intros Hidle w'. split; [apply commit_appState|].
  destruct (commit_idle_quiet n w Hidle) as [Hh Hr]. split; [exact Hh|].
  intros Hn. destruct Hr as [Hr|Hr]; [by etrans|exact Hr].
Qed.

(** C5, as the code does it: activating the live session sets the play
    intent to [PAUSED], stops the source the player holds and cancels the
    speech queue, and starts nothing; deactivating it clears the live flag
    and nothing else, so the sequencer is at the same step index with play
    intent [PAUSED], and no playback starts until the user presses play.
    Whenever the live session is switched off, the step index and the play
    intent are those of that moment: none from before the session is
    restored. *)
Theorem live_session_pauses_and_stays_paused (w : World) :
  isLiveSession (ui w) = false ->
  playerShown plan (ui w) = true ->
  let w1 := react plan decodable ToggleLive w in
  let w2 := react plan decodable ToggleLive w1 in
  (isLiveSession (ui w1) = true
   /\ playerState (ui w1) = PAUSED
   /\ currentStepIndex (ui w1) = currentStepIndex (ui w)
   /\ audioSourceRef w1 = None
   /\ Forall2 calmerHandle (handles w) (handles w1)
   /\ Forall (unreached (audioSourceRef w) (speech w)) (handles w1))
  /\ (isLiveSession (ui w2) = false
      /\ playerState (ui w2) = PAUSED
      /\ currentStepIndex (ui w2) = currentStepIndex (ui w)
      /\ audioSourceRef w2 = None
      /\ Forall2 calmerHandle (handles w1) (handles w2))
  /\ (forall v : World,
        isLiveSession (ui v) = true -> playerShown plan (ui v) = true ->
        let v' := react plan decodable ToggleLive v in
        isLiveSession (ui v') = false
        /\ playerState (ui v') = playerState (ui v)
        /\ currentStepIndex (ui v') = currentStepIndex (ui v)).
Proof.
  intros Hlive Hshown w1 w2.
  assert (Hoff : forall v : World,
            isLiveSession (ui v) = true -> playerShown plan (ui v) = true ->
            let v' := react plan decodable ToggleLive v in
            isLiveSession (ui v') = false
            /\ playerState (ui v') = playerState (ui v)
            /\ currentStepIndex (ui v') = currentStepIndex (ui v)).
  { intros v Hl Hs v'. subst v'. unfold react. cbn [handle]. rewrite Hs.
    unfold toggleLiveSession. rewrite Hl.
    set (vh := updUi (setIsLiveSession false) v).
    rewrite bool_decide_eq_false_2.
    2:{ intros E. apply (f_equal isLiveSession) in E. cbn in E. congruence. }
    pose proof (commit_appState maxUpdateDepth vh) as Ha.
    set (c := commit plan decodable maxUpdateDepth vh) in *. clearbody c.
    unfold appState in Ha. cbn in Ha. injection Ha as Hi Hp _ _ Hlv. done. }
  apply and_assoc. split; [|exact Hoff]. clear Hoff.
  set (wp := updUi (setPlayerState PAUSED) w).
  set (wh := updUi (setIsLiveSession true) (stopAudio wp)).
  assert (Hui : ui wh = setIsLiveSession true (setPlayerState PAUSED (ui w))).
  { subst wh. cbn [ui updUi]. by rewrite stopAudio_ui. }
  assert (Hw1 : w1 = commit plan decodable maxUpdateDepth wh).
  { subst w1. unfold react. cbn [handle]. rewrite Hshown. unfold toggleLiveSession.
    rewrite Hlive. fold wp wh. rewrite bool_decide_eq_false_2; [done|].
    rewrite Hui. intros E. apply (f_equal isLiveSession) in E. simpl in E. congruence. }
  clearbody w1.
  assert (Hidle : idle (ui wh)) by (left; by rewrite Hui).
  destruct (commit_idle maxUpdateDepth wh Hidle) as (Happ & Hcalm & Href).
  rewrite <- Hw1 in Happ, Hcalm, Href. rewrite Hui in Happ.
  unfold appState in Happ. cbn in Happ. injection Happ as Hi Hp _ _ Hl.
  assert (Hr1 : audioSourceRef w1 = None).
  { apply Href. subst wh. cbn [audioSourceRef updUi]. apply stopAudio_clears_ref. }
  assert (Hstop : quietStep wp (stopAudio wp)) by apply stopAudio_quiet.
  split.
  { split; [done|]. split; [done|]. split; [done|]. split; [done|]. split.
    - eapply Forall2_trans; [|exact (proj1 Hstop)|exact Hcalm].
      intros x y z (? & ? & ? & ?) (? & ? & ? & ?). repeat split; try congruence. auto.
    - eapply unreached_calmer; [exact Hcalm|]. exact (stopAudio_unreached wp). }
  set (wh2 := updUi (setIsLiveSession false) w1).
  assert (Hw2 : w2 = commit plan decodable maxUpdateDepth wh2).
  { subst w2. unfold react. cbn [handle]. rewrite (playerShown_paused _ Hp).
    unfold toggleLiveSession. rewrite Hl. fold wh2.
    rewrite bool_decide_eq_false_2; [done|].
    intros E. apply (f_equal isLiveSession) in E. cbn in E. congruence. }
  clearbody w2.
  assert (Hidle2 : idle (ui wh2)).
  { right. subst wh2. cbn. rewrite Hp. discriminate. }
  destruct (commit_idle maxUpdateDepth wh2 Hidle2) as (Happ2 & Hcalm2 & Href2).
  rewrite <- Hw2 in Happ2, Hcalm2, Href2.
  unfold appState in Happ2. cbn in Happ2. injection Happ2 as Hi2 Hp2 _ _ Hl2.
  split; [done|]. split; [congruence|]. split; [congruence|]. split; [|exact Hcalm2].
  by apply Href2.
Qed.

(** *** Task identifiers are fresh *)

Lemma stageOnly_fresh l l' n :
  stageOnly l l' ->
  Forall (fun t => (p_id t < n)%nat) l -> Forall (fun t => (p_id t < n)%nat) l'.
Proof.
  induction 1 as [|t t' l l' (Hi & _) _ IH]; intros H; [done|].
  apply Forall_cons in H as [Ht Hl]. constructor; [by rewrite Hi|by apply IH].
Qed.

Lemma fresh_mono l n m :
  (n <= m)%nat ->
  Forall (fun t => (p_id t < n)%nat) l -> Forall (fun t => (p_id t < m)%nat) l.
Proof. intros Hle H. eapply Forall_impl; [exact H|]. intros t Ht. simpl in Ht. lia. Qed.

Ltac nextId_frame :=
  intros; flow_unfold; repeat (case_match; simpl in * ); simpl; lia.

Lemma resumeAll_nextId (ps : list PcmTask) w :
  (nextId w <= nextId (fold_left
     (fun w' p => startSource decodable (pcm_data p) (pcm_render p) w') ps w))%nat.
Proof.
  revert w. induction ps as [|p ps IH]; intros w; cbn [fold_left]; [done|].
  etrans; [|apply IH]. nextId_frame.
Qed.

Lemma handle_nextId e w : (nextId w <= nextId (handle plan decodable e w))%nat.
Proof.
  destruct e; unfold handle, fire, toggleLiveSession, answerFollowUp;
    try (nextId_frame; fail).
  destruct (audioContext w) as [[|]|]; try done.
  destruct (resuming w) as [|p ps] eqn:E; [done|]. rewrite <- E.
  apply (resumeAll_nextId (resuming w) (setResuming [] (setAudioContext (Some running) w))).
Qed.

Lemma handle_fresh e w : freshIds w -> freshIds (handle plan decodable e w).
Proof.
  intros H. unfold freshIds. eapply stageOnly_fresh; [apply handle_tasks|].
  eapply fresh_mono; [apply handle_nextId|exact H].
Qed.

Lemma runCleanupB_nextId c w : nextId (runCleanupB c w) = nextId w.
Proof. frame. Qed.
Lemma runCleanupC_nextId c w : nextId (runCleanupC c w) = nextId w.
Proof. frame. Qed.
Lemma runCleanupP_nextId c w : nextId (runCleanupP c w) = nextId w.
Proof. frame. Qed.
Lemma effectA_nextId u w : nextId (effectA plan u w) = nextId w.
Proof. frame. Qed.
Lemma effectC_nextId u w : (nextId w <= nextId (effectC plan decodable u w).1)%nat.
Proof. nextId_frame. Qed.
Lemma effectP_nextId u w : (nextId w <= nextId (effectP plan u w).1)%nat.
Proof. nextId_frame. Qed.
Lemma afterImage_nextId k w : (nextId w <= nextId (afterImage plan k w))%nat.
Proof. nextId_frame. Qed.

Lemma runCleanupB_fresh c w : freshIds w -> freshIds (runCleanupB c w).
Proof.
  unfold freshIds. rewrite runCleanupB_nextId. unfold runCleanupB, updTask.
  destruct c as [k|]; [|done]. cbn [tasks setTasks]. rewrite Forall_fmap.
  intros H. eapply Forall_impl; [exact H|]. intros t Ht. simpl. by case_match.
Qed.

Lemma effectB_fresh u w : freshIds w -> freshIds (effectB plan u w).1.
Proof.
  intros H. unfold effectB, freshIds in *. destruct (stepProp plan u); [|done].
  case_match; [done|]. cbn [fst].
  set (w1 := setNextId _ _).
  assert (H1 : Forall (fun t => (p_id t < nextId w1)%nat) (tasks w1)).
  { subst w1. cbn [tasks nextId setNextId setTasks]. apply Forall_app. split.
    - eapply fresh_mono; [|exact H]. lia.
    - constructor; [simpl; lia|done]. }
  clearbody w1. case_match.
  - eapply fresh_mono; [|exact H1]. nextId_frame.
  - eapply stageOnly_fresh; [apply afterImage_tasks|].
    eapply fresh_mono; [apply afterImage_nextId|exact H1].
Qed.

Lemma render_fresh w : freshIds w -> freshIds (render plan decodable w).
Proof.
  intros H. unfold render. cbv zeta.
  set (u := ui w). set (fx := effects w).
  set (chA := bool_decide (depsA fx ≠ _)). set (chB := bool_decide (depsB fx ≠ _)).
  set (chC := bool_decide (depsC fx ≠ _)). set (chD := bool_decide (depsD fx ≠ _)).
  set (chP := bool_decide (depsP fx ≠ _)).
  set (w1 := if chB then _ else w).
  assert (H1 : freshIds w1) by (subst w1; destruct chB; [by apply runCleanupB_fresh|done]).
  set (w2 := if chC then _ else w1).
  assert (H2 : freshIds w2).
  { subst w2. destruct chC; [|done]. unfold freshIds.
    by rewrite runCleanupC_nextId, runCleanupC_tasks. }
  set (w3 := if chP then _ else w2).
  assert (H3 : freshIds w3).
  { subst w3. destruct chP; [|done]. unfold freshIds.
    by rewrite runCleanupP_nextId, runCleanupP_tasks. }
  set (w4 := if chA then _ else w3).
  assert (H4 : freshIds w4).
  { subst w4. destruct chA; [|done]. unfold freshIds.
    by rewrite effectA_nextId, effectA_tasks. }
  set (rB := if chB then _ else (w4, _)).
  assert (HB : freshIds rB.1) by (subst rB; destruct chB; [by apply effectB_fresh|done]).
  set (rC := if chC then _ else (rB.1, _)).
  assert (HC : freshIds rC.1).
  { subst rC. destruct chC; [|done]. unfold freshIds. rewrite effectC_tasks.
    eapply fresh_mono; [apply effectC_nextId|exact HB]. }
  set (w5 := if chD then _ else rC.1).
  assert (H5 : freshIds w5) by (subst w5; by destruct chD).
  set (rP := if chP then _ else (w5, _)).
  assert (HP : freshIds rP.1).
  { subst rP. destruct chP; [|done]. unfold freshIds. rewrite effectP_tasks.
    eapply fresh_mono; [apply effectP_nextId|exact H5]. }
  exact HP.
Qed.

Lemma commit_fresh n w : freshIds w -> freshIds (commit plan decodable n w).
Proof.
  revert w. induction n as [|n IH]; intros w H; cbn [commit]; [done|].
  case_bool_decide; [by apply render_fresh|]. by apply IH, render_fresh.
Qed.

Lemma run_fresh muted ctx synth es :
  freshIds (run plan decodable es (mount plan decodable muted ctx synth)).
Proof.
  assert (H0 : freshIds (mount plan decodable muted ctx synth)).
  { apply commit_fresh. constructor. }
  revert H0. generalize (mount plan decodable muted ctx synth).
  induction es as [|e es IH]; intros w Hw; [done|]. cbn [run fold_left].
  apply IH. unfold react. case_bool_decide; [by apply handle_fresh|].
  by apply commit_fresh, handle_fresh.
Qed.

(** *** Toggling mute while a step is prepared *)

Lemma superseded_stageOnly l l1 l2 :
  Forall2 superseded l l1 -> stageOnly l1 l2 -> Forall2 superseded l l2.
Proof.
  intros H1 H2. eapply Forall2_trans; [|exact H1|exact H2].
  intros x y z (? & ? & ?) (? & ? & ?). unfold superseded. repeat split; congruence.
Qed.

Lemma runCleanupB_supersedes w :
  tasksOk plan w ->
  Forall2 superseded (tasks w) (tasks (runCleanupB (cleanupB (effects w)) w)).
Proof.
  intros Hok. destruct (runCleanupB_cancels w Hok) as [_ Hcan].
  assert (Hsame : Forall2 (fun t t' => p_id t' = p_id t /\ p_render t' = p_render t) (tasks w) (tasks (runCleanupB (cleanupB (effects w)) w))).
  { unfold runCleanupB, updTask. destruct (cleanupB (effects w)) as [k|].
    - cbn [tasks setTasks]. apply Forall2_fmap_r, Forall_Forall2_diag, Forall_forall.
      intros t _. simpl. by destruct (Nat.eqb (p_id t) k).
    - apply Forall_Forall2_diag, Forall_forall. by intros t _. }
  revert Hcan Hsame. generalize (tasks (runCleanupB (cleanupB (effects w)) w)).
  intros l' Hcan Hsame. induction Hsame as [|t t' l l' [Hi Hr] _ IH]; [constructor|].
  apply Forall_cons in Hcan as [Hc Hcan]. constructor; [done|by apply IH].
Qed.

Lemma runCleanupB_tts c w : tts (runCleanupB c w) = tts w.
Proof. frame. Qed.
Lemma runCleanupC_tts c w : tts (runCleanupC c w) = tts w.
Proof. frame. Qed.
Lemma runCleanupP_tts c w : tts (runCleanupP c w) = tts w.
Proof. frame. Qed.
Lemma effectA_tts u w : tts (effectA plan u w) = tts w.
Proof. frame. Qed.
Lemma effectC_tts u w : tts (effectC plan decodable u w).1 = tts w.
Proof. frame. Qed.
Lemma effectP_tts u w : tts (effectP plan u w).1 = tts w.
Proof. frame. Qed.
Lemma afterSpeech_tts k a w : tts (afterSpeech k a w) = tts w.
Proof. frame. Qed.

(** A render, as far as the preparation tasks and the synthesis service
    are concerned: what precedes the body of the prepare effect leaves
    both alone but for the cancellation, and so does what follows it. *)
Lemma render_prepare w :
  let u := ui w in
  let fx := effects w in
  let chB := bool_decide (depsB fx ≠ Some (depsBof plan u)) in
  exists wB,
    tasks wB = tasks (if chB then runCleanupB (cleanupB fx) w else w)
    /\ tts wB = tts w /\ nextId wB = nextId w
    /\ let rB := if chB then effectB plan u wB else (wB, cleanupB fx) in
       tasks (render plan decodable w) = tasks rB.1
       /\ tts (render plan decodable w) = tts rB.1
       /\ cleanupB (effects (render plan decodable w)) = rB.2.
Proof.
  intros u fx chB. unfold render. cbv zeta. fold u fx chB.
  set (chA := bool_decide (depsA fx ≠ _)).
  set (chC := bool_decide (depsC fx ≠ _)). set (chD := bool_decide (depsD fx ≠ _)).
  set (chP := bool_decide (depsP fx ≠ _)).
  set (w1 := if chB then _ else w).
  set (w2 := if chC then _ else w1).
  set (w3 := if chP then _ else w2).
  set (w4 := if chA then _ else w3).
  exists w4. split; [|split; [|split]].
  { subst w4 w3 w2. destruct chA, chP, chC;
      rewrite ?effectA_tasks, ?runCleanupP_tasks, ?runCleanupC_tasks; reflexivity. }
  { subst w4 w3 w2 w1. destruct chA, chP, chC, chB;
      rewrite ?effectA_tts, ?runCleanupP_tts, ?runCleanupC_tts, ?runCleanupB_tts;
      reflexivity. }
  { subst w4 w3 w2 w1. destruct chA, chP, chC, chB;
      rewrite ?effectA_nextId, ?runCleanupP_nextId, ?runCleanupC_nextId,
        ?runCleanupB_nextId; reflexivity. }
  cbv zeta. set (rB := if chB then _ else (w4, _)).
  set (rC := if chC then _ else (rB.1, _)).
  set (w5 := if chD then _ else rC.1).
  set (rP := if chP then _ else (w5, _)).
  cbn [tasks tts effects setEffects cleanupB]. split; [|split; [|done]].
  - subst rP w5 rC. destruct chP, chD, chC; cbn [fst snd];
      rewrite ?effectP_tasks; unfold effectD; cbn [tasks updUi];
      rewrite ?effectC_tasks; reflexivity.
  - subst rP w5 rC. destruct chP, chD, chC; cbn [fst snd];
      rewrite ?effectP_tts; unfold effectD; cbn [tts updUi];
      rewrite ?effectC_tts; reflexivity.
Qed.

Lemma find_fresh (l : list PrepTask) k new :
  Forall (fun t => (p_id t < k)%nat) l -> p_id new = k ->
  List.find (fun t => Nat.eqb (p_id t) k) (l ++ [new]) = Some new.
Proof.
  intros Hl Hn. induction Hl as [|t l Ht _ IH]; cbn [app List.find].
  - by rewrite Hn, Nat.eqb_refl.
  - destruct (Nat.eqb_spec (p_id t) k); [lia|exact IH].
Qed.

Lemma deliver_tts d w : tts (deliver d w) = tts w.
Proof. destruct d as [[[k|] a]|]; cbn [deliver]; [apply afterSpeech_tts|done|done]. Qed.

(** The body of the prepare effect past its guard: it starts the task
    [nextId w]; muted, it does not touch the synthesis service; unmuted and
    with no image to wait for, it asks for the narration at once. *)
Lemma effectB_spec u s w :
  freshIds w -> stepProp plan u = Some s ->
  isPreparing u = true -> isLiveSession u = false ->
  (effectB plan u w).2 = Some (nextId w)
  /\ (isMuted u = true -> tts (effectB plan u w).1 = tts w)
  /\ (isMuted u = false -> negb (is3DMode u) && truthy (imageUrl s) = false ->
      tts (effectB plan u w).1
      = (Tts.generateGeminiTTS (currentText plan u) (PrepCont (nextId w)) (tts w)).1).
Proof.
  intros Hf Hs Hp Hl. unfold effectB. rewrite Hs, Hp, Hl. cbn [negb orb].
  set (new := {| p_id := nextId w; p_render := u; isCancelled := false;
                 p_stage := AwaitImage |}).
  set (w1 := setNextId _ _).
  assert (Hfind : findTask (nextId w) w1 = Some new)
    by (apply find_fresh; [exact Hf|done]).
  assert (Htts : tts w1 = tts w) by done.
  clearbody w1. split; [by case_match|]. split.
  - intros Hm. case_match; cbn [fst]; [by rewrite <- Htts|].
    unfold afterImage. rewrite Hfind. cbn [p_render new]. rewrite Hm.
    by rewrite afterSpeech_tts.
  - intros Hm Him. rewrite Him. cbn [fst]. unfold afterImage. rewrite Hfind.
    cbn [p_render new]. rewrite Hm, Htts.
    destruct (Tts.generateGeminiTTS _ _ _) as [st d]. by rewrite deliver_tts.
Qed.

(** With the index-change effect and the 3D reset at rest, everything a
    commit does to the preparation tasks and to the synthesis service is
    done by its first render. *)
Lemma commit_one_round n w :
  depsA (effects w) = Some (depsAof plan (ui w)) ->
  depsD (effects w) = Some (currentStepIndex (ui w)) ->
  let r := render plan decodable w in
  tasks (commit plan decodable (S n) w) = tasks r
  /\ tts (commit plan decodable (S n) w) = tts r
  /\ cleanupB (effects (commit plan decodable (S n) w)) = cleanupB (effects r).
Proof.
  intros HA HD r. cbn [commit]. fold r. case_bool_decide as H1; [done|].
  destruct n as [|n]; [done|]. cbn [commit].
  pose proof (render_stored w) as (HA1 & HB1 & _ & HD1 & _). fold r in HA1, HB1, HD1.
  pose proof (render_noAudio w) as HN. fold r in HN.
  unfold afterD, afterA in HN. rewrite HA, HD in HN.
  rewrite !(bool_decide_eq_false_2 (Some _ ≠ Some _)) in HN by (by intros H; apply H).
  cbn [andb] in HN.
  pose proof (render_prepare r) as (wB & HtB & HsB & _ & Hrest). cbv zeta in Hrest.
  clearbody r.
  assert (HB2 : depsB (effects r) = Some (depsBof plan (ui r)))
    by (rewrite HB1; f_equal; symmetry; exact (noAudio_depsB _ _ HN)).
  assert (H2 : ui (render plan decodable r) = ui r).
  { apply render_quiet_ui; [|exact HB2|].
    - rewrite HA1. f_equal. symmetry. exact (noAudio_depsA _ _ HN).
    - rewrite HD1. f_equal. symmetry. apply appState_index, noAudio_appState, HN. }
  rewrite (bool_decide_eq_true_2 _ H2).
  rewrite (bool_decide_eq_false_2 (depsB _ ≠ _)) in Hrest, HtB by (by intros H; apply H).
  cbn [fst snd] in Hrest. destruct Hrest as (Ht & Hs & Hc).
  rewrite Ht, Hs, Hc, HtB, HsB. done.
Qed.

Lemma afterImage_tts k t w :
  findTask k w = Some t ->
  tts (afterImage plan k w)
  = if isMuted (p_render t) then tts w
    else (Tts.generateGeminiTTS (currentText plan (p_render t)) (PrepCont k) (tts w)).1.
Proof.
  intros Hf. unfold afterImage. rewrite Hf. destruct (isMuted (p_render t)).
  - apply afterSpeech_tts.
  - destruct (Tts.generateGeminiTTS _ _ _) as [st d]. by rewrite deliver_tts.
Qed.

(** The playback effect of a muted render, past its guards: no audio
    handle, no synthesis, one timer for the synthetic end of the step. *)
Lemma effectC_muted u w :
  isMuted u = true -> (effectC plan decodable u w).2 = true ->
  let w' := (effectC plan decodable u w).1 in
  tts w' = tts w
  /\ handles w' = handles (stopAudio w)
  /\ resuming w' = resuming w
  /\ timers w'
     = (timers w ++ [{| t_id := nextId w;
                        t_due := Qred (now w + silentDuration (currentText plan u));
                        t_action := SilentEnded u |}])%list.
Proof.
  intros Hm. unfold effectC. rewrite Hm.
  destruct (isPreparing u || isLiveSession u); [discriminate|].
  case_bool_decide; [discriminate|]. case_bool_decide; [discriminate|].
  intros _. rewrite andb_false_r. cbn [negb andb fst].
  unfold setTimeout. cbn [tts handles resuming timers setNextId setTimers].
  repeat split; frame.
Qed.

(** C6, as the code has it.  [isMuted] is a dependency of the prepare
    effect: toggling mute while a step is prepared cancels every
    preparation in flight and starts a new one for the same step, in the
    render with the new mute flag.  When the toggle mutes, the restart
    leaves the synthesis service alone; when it unmutes, the restart (at
    once if the step has no picture to wait for, otherwise when the picture
    has settled) asks [generateGeminiTTS] for the narration of the step.
    Mute is read a second time by the playback effect, which for a muted
    render makes no request, starts no audio and sets the timer of the
    synthetic end. *)
Theorem mute_toggle_restarts_the_preparation
    (muted : bool) (ctx : option CtxState) (synth : bool) (es : list Event) :
  let w := run plan decodable es (mount plan decodable muted ctx synth) in
  isPreparing (ui w) = true ->
  controlsShown plan (ui w) = true ->
  stepProp plan (ui w) <> None ->
  let w' := react plan decodable ToggleMute w in
  (exists old new,
      tasks w' = (old ++ [new])%list
      /\ Forall2 superseded (tasks w) old
      /\ p_id new = nextId w
      /\ p_render new = setIsMuted (negb (isMuted (ui w))) (ui w)
      /\ isCancelled new = false
      /\ cleanupB (effects w') = Some (p_id new))
  /\ (isMuted (ui w) = false -> tts w' = tts w)
  /\ (isMuted (ui w) = true ->
      (forall s, stepProp plan (ui w) = Some s ->
                 negb (is3DMode (ui w)) && truthy (imageUrl s) = false) ->
      tts w'
      = (Tts.generateGeminiTTS (currentText plan (ui w)) (PrepCont (nextId w)) (tts w)).1)
  /\ (forall k t w0,
        findTask k w0 = Some t ->
        tts (afterImage plan k w0)
        = if isMuted (p_render t) then tts w0
          else (Tts.generateGeminiTTS (currentText plan (p_render t)) (PrepCont k)
                  (tts w0)).1)
  /\ (forall u w0,
        isMuted u = true -> (effectC plan decodable u w0).2 = true ->
        let w1 := (effectC plan decodable u w0).1 in
        tts w1 = tts w0
        /\ handles w1 = handles (stopAudio w0)
        /\ resuming w1 = resuming w0
        /\ timers w1
           = (timers w0 ++
                [{| t_id := nextId w0;
                    t_due :=
                      Qred (now w0
                            + Qmax 3000
                                (inject_Z (Z.of_nat (utf16Length (currentText plan u)))
                                 / 15 * 1000));
                    t_action := SilentEnded u |}])%list).
Proof.
  intros w Hp Hcs Hstep w'.
  assert (Hgood : good plan w) by apply run_good, mount_good.
  assert (Hfresh : freshIds w) by apply run_fresh.
  split; [|split; [|split; [|split; [apply afterImage_tts|apply effectC_muted]]]];
    subst w'; clearbody w.
  all: set (u' := setIsMuted (negb (isMuted (ui w))) (ui w)).
  all: destruct Hgood as [Hok (HA & HB & _ & HD & _)].
  all: assert (Hlive : isLiveSession (ui w) = false)
         by (unfold controlsShown in Hcs; apply andb_true_iff in Hcs as [_ Hcs];
             by apply negb_true_iff in Hcs).
  all: pose proof (handle_tasksOk ToggleMute w Hok) as Hokh.
  all: pose proof (handle_fresh ToggleMute w Hfresh) as Hfh.
  all: unfold react; unfold handle in *; rewrite Hcs in *.
  all: set (wh := updUi (setIsMuted (negb (isMuted (ui w)))) w) in *.
  all: assert (Hne : ui wh <> ui w)
         by (intros H; apply (f_equal isMuted) in H; simpl in H;
             destruct (isMuted (ui w)); discriminate).
  all: rewrite (bool_decide_eq_false_2 _ Hne).
  all: destruct (commit_one_round 49 wh HA HD) as (Ht & Hs & Hc).
  all: change (commit plan decodable maxUpdateDepth wh)
         with (commit plan decodable 50 wh); rewrite ?Ht, ?Hs, ?Hc.
  all: destruct (render_prepare wh) as (wB & HtB & HsB & HnB & Hrest); cbv zeta in Hrest.
  all: assert (HchB : depsB (effects wh) <> Some (depsBof plan (ui wh)))
         by (change (depsB (effects w) <> Some (depsBof plan u')); rewrite HB;
             unfold depsBof; intros H; injection H as H; simpl in H;
             destruct (isMuted (ui w)); discriminate).
  all: rewrite (bool_decide_eq_true_2 _ HchB) in Hrest, HtB.
  all: change (ui wh) with u' in Hrest.
  all: destruct Hrest as (Ht1 & Hs1 & Hc1); rewrite ?Ht1, ?Hs1, ?Hc1.
  all: assert (HfB : freshIds wB)
         by (pose proof (runCleanupB_fresh (cleanupB (effects wh)) wh Hfh) as H;
             unfold freshIds in *; rewrite runCleanupB_nextId in H;
             rewrite HtB, HnB; exact H).
  all: destruct (stepProp plan (ui w)) as [s|] eqn:Es; [|done].
  all: destruct (effectB_spec u' s wB HfB Es Hp Hlive) as (Hk & Hmut & Hunm).
  - destruct (effectB_tasks u' wB) as [[Hn _] | (k & Hk' & _ & _ & _ & Hst)];
      [congruence|].
    rewrite Hk in Hk'. injection Hk' as <-.
    apply Forall2_app_inv_l in Hst as (old & l1 & Hold & Hnew & Heq).
    apply Forall2_cons_inv_l in Hnew as (new & l2 & (Hi & Hr & Hcn) & Hnil & ->).
    apply Forall2_nil_inv_l in Hnil as ->.
    exists old, new. rewrite Heq, Hk, Hi, HnB. cbn [p_id p_render isCancelled] in *.
    repeat split; try done.
    eapply superseded_stageOnly; [|exact Hold]. rewrite HtB.
    apply (runCleanupB_supersedes wh Hokh).
  - intros Hm. rewrite Hmut, HsB; [done|]. subst u'. simpl. by rewrite Hm.
  - intros Hm Him. rewrite Hunm, HsB, HnB; [done| |by apply Him].
    subst u'. simpl. by rewrite Hm.
Qed.

(** *** Running a muted lesson *)









End PlayerFacts.

(** ** A muted lesson, from the first step to the last *)

Section SilentLesson.
Import Player.













End SilentLesson.

(** ** Scenarios on the sample lesson *)

(** The preparation of step 0 is answered by the gateway after a follow-up
    has moved the lesson to its last step: the answer changes nothing. *)
Lemma stale_preparation_witness :
  let w :=
    Player.run samplePlan Platform.decodes [Player.Send; Player.FollowUp jumpToLast]
      (Player.mount samplePlan Platform.decodes false (Some Player.running) true) in
  Player.ui (Player.react samplePlan Platform.decodes (Player.Gateway 0 (Tts.Audio "QUJDRA==")) w)
  = Player.ui w.
Proof.
  intros w.
  eapply (proj1 (proj2 (stale_preparation_is_never_applied
                          samplePlan Platform.decodes false (Some Player.running) true
                          [Player.Send; Player.FollowUp jumpToLast]))
            (Player.Gateway 0 (Tts.Audio "QUJDRA==")) 1%nat).
  - vm_compute. reflexivity.
  - vm_compute. reflexivity.
  - reflexivity.
Defined.

(** C2, the code at a failing input.  Unmuted, audio context still
    suspended: step 0 is prepared with synthesized audio (four bytes, two
    samples, which [decodePCM] decodes) and the playback effect calls
    [playPCM], which waits for [ctx.resume()]; the user pauses and plays
    again, so a second [playPCM] waits too; when the context resumes both
    calls start their buffer source.  Two sources sound at once, and
    [audioSourceRef] holds only the second, so no later [stopAudio] can
    reach the first. *)
Theorem two_sources_sound_after_resume :
  let payload := "QUJDRA==" in
  let w :=
    Player.run samplePlan Platform.decodes
      [Player.Gateway 0 (Tts.Audio payload); Player.Tick; Player.ClickPause;
       Player.ClickPlay; Player.ContextResumed]
      (Player.mount samplePlan Platform.decodes false (Some Player.suspended) true) in
  (Platform.atob payload = Some [65%Z; 66%Z; 67%Z; 68%Z]
   /\ Pcm.channelData
        <$> Pcm.decodePCM Platform.atob Platform.littleEndian Platform.createBuffer payload
      = Some [(16961 # 32768)%Q; (17475 # 32768)%Q])
  /\ Player.activeHandles w = 2%nat
  /\ Player.h_id <$> Player.playingSources w = [3%nat; 4%nat]
  /\ Player.speakingUtterances w = []
  /\ Player.audioSourceRef w = Some 4%nat
  /\ Player.h_id <$> Player.playingSources (Player.stopAudio w) = [3%nat].
Proof. vm_compute. repeat split; reflexivity. Qed.

(** C3, the code at two failing inputs.  Muted playback of step 0: the
    playback effect sets the silent-completion timer (due at 3500 ms).
    - The user pauses at 1500 ms, which runs the cleanup of the effect but
      leaves the timer; it fires, [handleEnded] waits its second, and its
      check reads the state of the render it was created in, so
      [onNextStep] runs: the lesson moves to step 1 while paused.
    - A follow-up answer moves the lesson to its last step at 500 ms; the
      timer of step 0 still fires, and the [handleNextStep] of that old
      render adds one to the index of the last step: the index leaves the
      plan and no step is shown. *)
Theorem superseded_playback_still_advances :
  let w0 := Player.mount samplePlan Platform.decodes true (Some Player.running) true in
  let w1 := Player.run samplePlan Platform.decodes
              [Player.Tick; Player.Wait 1000; Player.ClickPause] w0 in
  let w2 := Player.run samplePlan Platform.decodes
              [Player.Tick; Player.Tick; Player.Tick] w1 in
  let v1 := Player.run samplePlan Platform.decodes
              [Player.Tick; Player.Send; Player.FollowUp jumpToLast] w0 in
  let v2 := Player.run samplePlan Platform.decodes
              [Player.Tick; Player.Tick; Player.Tick] v1 in
  (Player.now w1 = 1500%Q
   /\ Player.playerState (Player.ui w1) = PAUSED
   /\ Player.currentStepIndex (Player.ui w1) = 0%Z
   /\ Player.t_due <$> Player.timers w1 = [4000%Q; 3500%Q])
  /\ (Player.now w2 = 4500%Q
      /\ Player.playerState (Player.ui w2) = PAUSED
      /\ Player.currentStepIndex (Player.ui w2) = 1%Z)
  /\ (Player.now v1 = 500%Q
      /\ Player.currentStepIndex (Player.ui v1) = 2%Z
      /\ Player.totalSteps samplePlan = 3%Z
      /\ silentEnds v1 = [3500%Q])
  /\ (Player.now v2 = 4500%Q
      /\ Player.currentStepIndex (Player.ui v2) = 3%Z
      /\ Player.stepProp samplePlan (Player.ui v2) = None).
Proof. vm_compute. repeat split; reflexivity. Qed.

(** C5, where the sentence of the specification fails: step 1 is playing,
    the live session is switched on and off again; the audio has stopped,
    the step is still step 1, and the phase is [PAUSED], not the [PLAYING]
    it was before the live session. *)
Lemma live_session_does_not_resume_playing :
  let w := stepOnePlaying in
  let w2 := Player.run samplePlan Platform.decodes [Player.ToggleLive; Player.ToggleLive] w in
  (Player.currentStepIndex (Player.ui w) = 1%Z
   /\ Player.playerState (Player.ui w) = PLAYING
   /\ Player.activeHandles w = 1%nat)
  /\ (Player.isLiveSession (Player.ui w2) = false
      /\ Player.currentStepIndex (Player.ui w2) = 1%Z
      /\ Player.playerState (Player.ui w2) = PAUSED
      /\ Player.activeHandles w2 = 0%nat
      /\ Player.playerState (Player.ui w2) <> Player.playerState (Player.ui w)).
Proof. vm_compute. repeat split; try reflexivity. discriminate. Qed.

(** The same episode, read off the general statement. *)
Lemma live_session_witness :
  let w := stepOnePlaying in
  let w2 := Player.run samplePlan Platform.decodes [Player.ToggleLive; Player.ToggleLive] w in
  Player.isLiveSession (Player.ui w) = false
  /\ Player.playerShown samplePlan (Player.ui w) = true
  /\ Player.isLiveSession (Player.ui w2) = false
  /\ Player.playerState (Player.ui w2) = PAUSED
  /\ Player.currentStepIndex (Player.ui w2) = Player.currentStepIndex (Player.ui w).
Proof.
  intros w w2.
  assert (H1 : Player.isLiveSession (Player.ui w) = false) by (vm_compute; reflexivity).
  assert (H2 : Player.playerShown samplePlan (Player.ui w) = true)
    by (vm_compute; reflexivity).
  split; [exact H1|]. split; [exact H2|].
  destruct (live_session_pauses_and_stays_paused samplePlan Platform.decodes w H1 H2)
    as (_ & (Hl & Hp & Hi & _) & _).
  split; [exact Hl|]. split; [exact Hp|exact Hi].
Defined.

(** C6, where the sentence of the specification fails.  Step 0 is being
    prepared, muted, and nothing has been asked of the synthesis gateway;
    the user unmutes: the preparation under way is cancelled and the new one
    asks the gateway for the narration of step 0.  Started unmuted, with the
    request of step 0 still unanswered, muting and unmuting again sends a
    second request for the same text. *)
Lemma unmuting_while_loading_requests_synthesis :
  let text := "Plants make sugar from light.." in
  let w := Player.mount samplePlan Platform.decodes true (Some Player.running) true in
  let w' := Player.react samplePlan Platform.decodes Player.ToggleMute w in
  let v := Player.mount samplePlan Platform.decodes false (Some Player.running) true in
  let v' := Player.run samplePlan Platform.decodes [Player.ToggleMute; Player.ToggleMute] v in
  (Player.isPreparing (Player.ui w) = true
   /\ Player.currentStepIndex (Player.ui w) = 0%Z
   /\ Tts.invocations (Player.tts w) = []
   /\ Player.isPreparing (Player.ui w') = true
   /\ Player.currentStepIndex (Player.ui w') = 0%Z
   /\ Tts.invocations (Player.tts w') = [text]
   /\ Player.isCancelled <$> Player.tasks w' = [true; false])
  /\ (Player.isPreparing (Player.ui v) = true
      /\ Tts.invocations (Player.tts v) = [text]
      /\ Player.isPreparing (Player.ui v') = true
      /\ Player.currentStepIndex (Player.ui v') = 0%Z
      /\ Tts.invocations (Player.tts v') = [text; text]).
Proof. vm_compute. repeat split; reflexivity. Qed.

(** Unmuting right after the muted lesson was mounted: the restarted
    preparation of step 0 asks for its narration. *)
Lemma mute_toggle_witness :
  let w :=
    Player.run samplePlan Platform.decodes []
      (Player.mount samplePlan Platform.decodes true (Some Player.running) true) in
  Player.tts (Player.react samplePlan Platform.decodes Player.ToggleMute w)
  = (Tts.generateGeminiTTS (Player.currentText samplePlan (Player.ui w))
       (Player.PrepCont (Player.nextId w)) (Player.tts w)).1.
Proof.
  intros w.
  pose proof (mute_toggle_restarts_the_preparation samplePlan Platform.decodes true
                (Some Player.running) true []) as H.
  cbv zeta in H. fold w in H.
  assert (H1 : Player.isPreparing (Player.ui w) = true) by (vm_compute; reflexivity).
  assert (H2 : Player.controlsShown samplePlan (Player.ui w) = true)
    by (vm_compute; reflexivity).
  assert (H3 : Player.stepProp samplePlan (Player.ui w) <> None)
    by (vm_compute; discriminate).
  assert (H4 : Player.isMuted (Player.ui w) = true) by (vm_compute; reflexivity).
  assert (H5 : Player.stepProp samplePlan (Player.ui w)
               = Some (sampleStep 0 "Light" "Plants make sugar from light.."))
    by (vm_compute; reflexivity).
  destruct (H H1 H2 H3) as (_ & _ & Hreq & _).
  apply (Hreq H4). intros s Hs. rewrite H5 in Hs. injection Hs as <-.
  apply andb_false_intro2. reflexivity.
Defined.


(** * Further properties *)

(** ** The persistent session list, in full *)

Section StorageMore.
Import Storage.

Lemma withImage_same (s : LessonStep) : withImage (imageUrl s) s = s.
Proof. by destruct s. Qed.

Lemma stripStep_keptImage (s : LessonStep) : stripStep s = withImage (keptImage s) s.
Proof.
  unfold stripStep, keptImage. destruct (imageUrl s) as [url|] eqn:E.
  - destruct (String.prefix "data:" url) eqn:P.
    + assert (truthy (Some url) = true) as ->; [|done].
      destruct url; [discriminate|]. unfold truthy.
      by rewrite bool_decide_eq_false_2.
    + rewrite andb_false_r, <- E. symmetry. apply withImage_same.
  - rewrite <- E. symmetry. apply withImage_same.
Qed.

Lemma readSteps_stripAll (h1 : Heap) (ls' ls : list nat) (vals : list LessonStep) :
  Forall2 (fun l s => h1 !! l = Some s) ls vals ->
  (forall l, l ∈ ls -> l ∈ ls') ->
  readSteps (stripAll ls' h1) ls = stripStep <$> vals.
Proof.
  unfold readSteps. induction 1 as [|l s ls vals Hl _ IH]; intros Hin; [done|].
  cbn [omap list_omap fmap list_fmap]. rewrite stripAll_lookup.
  rewrite bool_decide_eq_true_2 by (apply Hin, list_elem_of_here).
  rewrite Hl. cbn. f_equal. apply IH. intros x Hx. by apply Hin, list_elem_of_further.
Qed.

Lemma sanitize_freeze (session : SavedSession nat) (h : Heap) :
  let '(copy, h') := sanitizeSession session h in
  freeze h' copy = stripped (freeze h session).
Proof.
  unfold sanitizeSession, stripped, freeze.
  destruct (lessonPlan session) as [plan|] eqn:Ep; cbn; [|by rewrite Ep].
  pose proof (allocSteps_spec (readSteps h (steps plan)) h) as Ha.
  destruct (allocSteps (readSteps h (steps plan)) h) as [ls h1].
  destruct Ha as (_ & _ & Hcopy). cbn. f_equal. f_equal. unfold withSteps. cbn.
  f_equal. change (omap (fun l : nat => stripAll ls h1 !! l) ls)
    with (readSteps (stripAll ls h1) ls).
  rewrite (readSteps_stripAll h1 ls ls _ Hcopy) by done.
  apply list_fmap_ext. intros _ s _. apply stripStep_keptImage.
Qed.

Lemma readSteps_closed (h h1 : Heap) (ls : list nat) :
  Forall (fun l => is_Some (h !! l)) ls ->
  (forall l s, h !! l = Some s -> h1 !! l = Some s) ->
  readSteps h1 ls = readSteps h ls.
Proof.
  unfold readSteps. intros Hc Hk. induction Hc as [|l ls [s Hs] _ IH]; [done|].
  cbn. by rewrite Hs, (Hk l s Hs), IH.
Qed.

Lemma freeze_closed (h h1 : Heap) (session : SavedSession nat) :
  closed h session ->
  (forall l s, h !! l = Some s -> h1 !! l = Some s) ->
  freeze h1 session = freeze h session.
Proof.
  unfold closed, freeze. intros Hc Hk. destruct (lessonPlan session) as [plan|]; [|done].
  cbn. by rewrite (readSteps_closed h h1 _ Hc Hk).
Qed.

Lemma others_absent (sid : string) (store : Store) :
  sid ∉ (id <$> store) -> others sid store = store.
Proof.
  unfold others. induction store as [|s store IH]; [done|]. cbn [fmap list_fmap].
  rewrite not_elem_of_cons. intros [Hne Hin]. cbn [List.filter].
  rewrite bool_decide_eq_false_2 by congruence. cbn. by rewrite IH.
Qed.

Lemma others_present (sid : string) (store : Store) :
  sid ∈ (id <$> store) -> (length (others sid store) < length store)%nat.
Proof.
  unfold others. induction store as [|s store IH]; cbn [fmap list_fmap].
  - intros H. by apply elem_of_nil in H.
  - cbn [List.filter]. case_bool_decide as E; cbn.
    + intros _. pose proof (filter_length_le
        (fun s => negb (bool_decide (id s = sid))) store). lia.
    + rewrite elem_of_cons. intros [H|H]; [congruence|]. specialize (IH H). lia.
Qed.

Lemma others_elem (sid : string) (store : Store) (s : SavedSession LessonStep) :
  s ∈ others sid store <-> s ∈ store /\ id s <> sid.
Proof.
  unfold others. rewrite !list_elem_of_In, filter_In, negb_true_iff.
  rewrite bool_decide_eq_false. tauto.
Qed.

(** What a save leaves under the storage key.  The list is the session
    without its base64 pictures, followed by the nine most recent of the
    other sessions in their old order; when the quota refuses that list but
    takes the session alone, every other session is lost; when it refuses
    both, nothing is written.  So saving a session again pushes nothing out
    while the list holds at most ten, and a new session pushes out the
    oldest of ten. *)
Theorem save_keeps_the_ten_most_recent
    (fits : Store -> bool) (session : SavedSession nat) (h : Heap) (store : Store) :
  closed h session ->
  let c := stripped (freeze h session) in
  let full := c :: take 9 (others (id session) store) in
  let '(h', store', outcome) := saveSessionToStorage fits session h store in
  getSessionsFromStorage store'
  = (if fits full then full else if fits [c] then [c] else store)
  /\ outcome
     = (if fits full then Saved else if fits [c] then SavedCurrentOnly else NotSaved)
  /\ (fits full = true -> id session ∈ (id <$> store) -> (length store <= 10)%nat ->
      forall s, s ∈ store -> id s <> id session -> s ∈ store')
  /\ (fits full = true -> id session ∉ (id <$> store) ->
      store' = c :: take 9 store).
Proof.
  intros Hclosed c full. unfold saveSessionToStorage, getSessionsFromStorage.
  pose proof (sanitize_freeze session h) as Hc.
  pose proof (sanitizeSession_spec session h) as Hs.
  destruct (sanitizeSession session h) as [copy h1].
  destruct Hs as (Hid & _ & Hkeep). rewrite Hc.
  change (id (freeze h1 copy)) with (id copy) in Hid.
  rewrite Hid. fold c. fold (others (id session) store).
  change (take 10 (c :: others (id session) store)) with full.
  destruct (fits full) eqn:Ef.
  - split; [done|]. split; [done|]. split.
    + intros _ Hin Hlen s Hs Hne. apply list_elem_of_further.
      rewrite take_ge.
      * by apply others_elem.
      * pose proof (others_present _ _ Hin). lia.
    + intros _ Hnot. subst full. by rewrite others_absent.
  - pose proof (sanitize_freeze session h1) as Hc2.
    destruct (sanitizeSession session h1) as [again h2].
    rewrite Hc2, (freeze_closed h h1 session Hclosed Hkeep). fold c.
    destruct (fits [c]); (split; [done|]); (split; [done|]); split; discriminate.
Qed.

(** What reads back of a saved session: all of it but the pictures held
    as base64 data.  The copy written has the same identifier, topic, date,
    messages and step index, and its steps are the steps of the live
    session, in order, each with its [imageUrl] dropped if it starts with
    "data:" and untouched otherwise. *)
Theorem sanitized_copy_differs_only_in_base64_pictures
    (session : SavedSession nat) (h : Heap) :
  let '(copy, h') := sanitizeSession session h in
  let r := freeze h' copy in
  id r = id session /\ topic r = topic session /\ lastActive r = lastActive session
  /\ messages r = messages session /\ currentStepIndex r = currentStepIndex session
  /\ match lessonPlan session with
     | None => lessonPlan r = None
     | Some plan =>
         exists steps',
           lessonPlan r = Some (withSteps steps' plan)
           /\ Forall2 (fun s s' =>
                withImage (imageUrl s) s' = s
                /\ imageUrl s'
                   = match imageUrl s with
                     | Some url => if String.prefix "data:" url then None else Some url
                     | None => None
                     end)
                (readSteps h (steps plan)) steps'
     end.
Proof.
  pose proof (sanitize_freeze session h) as Hc.
  destruct (sanitizeSession session h) as [copy h']. cbv zeta. rewrite Hc.
  unfold stripped, freeze. cbn. repeat split; try done.
  destruct (lessonPlan session) as [plan|]; [|done]. cbn.
  eexists. split; [reflexivity|].
  apply Forall2_fmap_r, Forall_Forall2_diag, Forall_forall. intros s _.
  split; [by destruct s|done].
Qed.

(** Deleting a session.  When the write goes through, the stored list
    and the list handed back are the old list without the sessions of that
    identifier, the others in their old order, and a second deletion
    changes nothing.  When the write fails the stored list is as before,
    yet the caller is handed the empty list. *)
Theorem delete_drops_that_session_only
    (fits : Store -> bool) (sid : string) (store : Store) :
  let '(store', returned) := deleteSessionFromStorage fits sid store in
  (fits (others sid store) = true ->
     store' = returned
     /\ (sid ∉ (id <$> store'))
     /\ (forall s, s ∈ store' <-> (s ∈ store /\ id s <> sid))
     /\ sublist store' store
     /\ deleteSessionFromStorage fits sid store' = (store', store'))
  /\ (fits (others sid store) = false -> store' = store /\ returned = []).
Proof.
  unfold deleteSessionFromStorage, getSessionsFromStorage. fold (others sid store).
  destruct (fits (others sid store)) eqn:Ef; (split; [|done]); [|discriminate].
  intros _. split; [done|].
  assert (Hnot : sid ∉ (id <$> others sid store)).
  { intros Hin. apply list_elem_of_fmap in Hin as (s & -> & Hs).
    apply others_elem in Hs. tauto. }
  split; [done|]. split; [apply others_elem|]. split.
  - unfold others. clear Ef Hnot.
    induction store as [|s store IH]; [done|]. cbn [List.filter].
    destruct (negb _); [apply sublist_skip|apply sublist_cons]; exact IH.
  - fold (others sid (others sid store)). by rewrite (others_absent _ _ Hnot), Ef.
Qed.

End StorageMore.

(** ** The synthesis service, over whole sessions *)

Section TtsMore.
Context {K : Type}.
Implicit Types (st : Tts.State K) (e : Tts.Event K).

Lemma find_drop (l : list (Tts.Request K)) (id : nat) (r : Tts.Request K) :
  NoDup (Tts.rq_id <$> l) ->
  List.find (fun r => Nat.eqb (Tts.rq_id r) id) l = Some r ->
  Tts.rq_id r = id
  /\ l ≡ₚ r :: List.filter (fun r => negb (Nat.eqb (Tts.rq_id r) id)) l.
Proof.
  induction l as [|x l IH]; [done|]. cbn [fmap list_fmap List.find List.filter].
  rewrite NoDup_cons. intros [Hx Hnd]. destruct (Nat.eqb_spec (Tts.rq_id x) id) as [E|E].
  - intros [= <-]. split; [done|]. cbn. f_equiv.
    assert (Hall : List.filter (fun r => negb (Nat.eqb (Tts.rq_id r) id)) l = l);
      [|by rewrite Hall].
    clear IH Hnd. induction l as [|y l IH]; [done|]. cbn [List.filter].
    cbn [fmap list_fmap] in Hx. rewrite not_elem_of_cons in Hx. destruct Hx as [Hy Hx].
    destruct (Nat.eqb_spec (Tts.rq_id y) id); [congruence|]. cbn. by rewrite IH.
  - intros Hf. destruct (IH Hnd Hf) as [Hid Hp]. split; [done|]. cbn.
    rewrite Hp at 1. apply Permutation_swap.
Qed.

Lemma NoDup_fmap_filter {A B : Type} (f : A -> B) (p : A -> bool) (l : list A) :
  NoDup (f <$> l) -> NoDup (f <$> List.filter p l).
Proof.
  induction l as [|x l IH]; [done|]. cbn [fmap list_fmap List.filter].
  rewrite NoDup_cons. intros [Hx Hnd]. destruct (p x); [|by apply IH].
  cbn [fmap list_fmap]. apply NoDup_cons. split; [|by apply IH].
  intros Hin. apply Hx. apply list_elem_of_fmap in Hin as (y & -> & Hy).
  apply list_elem_of_fmap. exists y. split; [done|].
  apply list_elem_of_In, filter_In in Hy as [Hy _]. by apply list_elem_of_In.
Qed.

Lemma step_requestsDistinct e st :
  requestsDistinct st -> requestsDistinct (Tts.step e st).1.
Proof.
  intros [Hnd Hlt]. destruct e as [text k | id res]; cbn [Tts.step].
  - unfold Tts.generateGeminiTTS. repeat case_match; try done. split; cbn.
    + rewrite fmap_app. apply NoDup_app. split; [done|]. split; [|apply NoDup_singleton].
      intros x Hx Hin. apply list_elem_of_singleton in Hin as ->.
      apply list_elem_of_fmap in Hx as (r & Hr & Hin).
      rewrite Forall_forall in Hlt. specialize (Hlt r Hin). cbn in Hr. lia.
    + apply Forall_app. split.
      * eapply Forall_impl; [exact Hlt|]. intros r Hr. cbn in *. lia.
      * constructor; [cbn; lia|done].
  - unfold Tts.gatewayReply. destruct (Tts.findRequest id st); [|done].
    assert (Hd : NoDup (Tts.rq_id <$> Tts.dropRequest id st)
                 /\ Forall (fun r => (Tts.rq_id r < Tts.nextRequest st)%nat)
                      (Tts.dropRequest id st)).
    { unfold Tts.dropRequest. split.
      - by apply NoDup_fmap_filter.
      - apply Forall_forall. intros x Hx. rewrite Forall_forall in Hlt. apply Hlt.
        apply list_elem_of_In, filter_In in Hx as [Hx _]. by apply list_elem_of_In. }
    destruct res; repeat case_match; exact Hd.
Qed.

Lemma run_callers (es : list (Tts.Event K)) st :
  requestsDistinct st ->
  let '(st', ds) := Tts.run es st in
  ((ds.*1) ++ (Tts.rq_cont <$> Tts.pending st'))
  ≡ₚ callers es ++ (Tts.rq_cont <$> Tts.pending st).
Proof.
  revert st. induction es as [|e es IH]; intros st Hwf; [cbn; reflexivity|].
  cbn [Tts.run]. pose proof (step_requestsDistinct e st Hwf) as Hwf1.
  destruct (Tts.step e st) as [st1 d] eqn:Es. cbn [fst] in Hwf1.
  specialize (IH st1 Hwf1). destruct (Tts.run es st1) as [st2 ds].
  destruct e as [text k | id res]; cbn [Tts.step callers omap list_omap] in *.
  - unfold Tts.generateGeminiTTS in Es. repeat case_match; simplify_eq; cbn in *;
      try (f_equiv; exact IH).
    rewrite IH, fmap_app, app_assoc. cbn. symmetry. apply Permutation_cons_append.
  - unfold Tts.gatewayReply in Es.
    destruct (Tts.findRequest id st) as [r|] eqn:Ef.
    + destruct (find_drop _ _ _ (proj1 Hwf) Ef) as [_ Hp].
      assert (Hperm : Tts.rq_cont <$> Tts.pending st
                      ≡ₚ Tts.rq_cont r :: (Tts.rq_cont <$> Tts.dropRequest id st))
        by (unfold Tts.dropRequest; rewrite Hp at 1; done).
      destruct res; repeat case_match; simplify_eq; cbn in *;
        rewrite IH, Hperm; by rewrite Permutation_middle.
    + simplify_eq. exact IH.
Qed.

(** Whatever the order of calls and answers, every caller of
    [generateGeminiTTS] is resumed exactly once or is still waiting: the
    callers resumed so far, together with those of the pending requests,
    are the callers of the session.  A request is answered once: the
    answer removes it, and a second answer for it does nothing. *)
Theorem every_caller_is_resumed_exactly_once (es : list (Tts.Event K)) :
  let '(st, ds) := Tts.run es Tts.empty in
  ((ds.*1) ++ (Tts.rq_cont <$> Tts.pending st)) ≡ₚ callers es
  /\ (forall id res,
        Tts.findRequest id (Tts.gatewayReply id res st).1 = None
        /\ Tts.gatewayReply id res (Tts.gatewayReply id res st).1
           = ((Tts.gatewayReply id res st).1, None)).
Proof.
  assert (Hwf0 : requestsDistinct (K:=K) Tts.empty) by (split; constructor).
  pose proof (run_callers es Tts.empty Hwf0) as Hc.
  assert (Hwf : requestsDistinct (Tts.run es Tts.empty).1).
  { clear Hc. revert Hwf0. generalize (Tts.empty (K:=K)).
    induction es as [|e es IH]; intros st Hst; [done|].
    rewrite run_cons_state. by apply IH, step_requestsDistinct. }
  destruct (Tts.run es Tts.empty) as [st ds]. cbn [fst] in Hwf.
  split; [by rewrite Hc, app_nil_r|].
  intros id res.
  assert (Hgone : Tts.findRequest id (Tts.gatewayReply id res st).1 = None).
  { unfold Tts.gatewayReply. destruct (Tts.findRequest id st) as [r|] eqn:Ef; [|done].
    assert (Hd : List.find (fun r => Nat.eqb (Tts.rq_id r) id) (Tts.dropRequest id st)
                 = None).
    { unfold Tts.dropRequest. clear. induction (Tts.pending st) as [|x l IH]; [done|].
      cbn [List.filter]. destruct (Nat.eqb (Tts.rq_id x) id) eqn:E; cbn; [done|].
      by rewrite E. }
    destruct res; repeat case_match; exact Hd. }
  split; [exact Hgone|].
  unfold Tts.gatewayReply at 1. by rewrite Hgone.
Qed.

Lemma step_cacheSound e st : cacheSound st -> cacheSound (Tts.step e st).1.
Proof.
  intros (Hc & Hp & He). destruct e as [text k | id res]; cbn [Tts.step].
  - unfold Tts.generateGeminiTTS. case_bool_decide as Ht; [done|].
    destruct (Tts.audioCache st !! trim text); [done|]. cbn. split; [|split].
    + intros key data Hk. destruct (Hc key data Hk) as (Hd & t & Hin & Htr).
      split; [done|]. exists t. split; [|done]. apply elem_of_app. by left.
    + apply Forall_app. split.
      * eapply Forall_impl; [exact Hp|]. intros r [Hin Hk]. split; [|done].
        apply elem_of_app. by left.
      * constructor; [|done]. cbn. split; [|done]. apply elem_of_app. right.
        by apply list_elem_of_singleton.
    + intros H. apply elem_of_app in H as [H|H]; [done|].
      apply list_elem_of_singleton in H. congruence.
  - unfold Tts.gatewayReply. destruct (Tts.findRequest id st) as [r|] eqn:Ef; [|done].
    assert (Hr : Tts.rq_text r ∈ Tts.invocations st
                 /\ Tts.rq_key r = trim (Tts.rq_text r)).
    { rewrite Forall_forall in Hp. apply Hp. unfold Tts.findRequest in Ef.
      apply find_some in Ef as [Hin _]. by apply list_elem_of_In. }
    assert (Hp' : Forall (fun r => Tts.rq_text r ∈ Tts.invocations st
                      /\ Tts.rq_key r = trim (Tts.rq_text r)) (Tts.dropRequest id st)).
    { apply Forall_forall. intros x Hx. rewrite Forall_forall in Hp. apply Hp.
      apply list_elem_of_In, filter_In in Hx as [Hx _]. by apply list_elem_of_In. }
    destruct res as [data| | |]; [case_bool_decide as Hd|..];
      (split; [|split; [exact Hp'|exact He]]); cbn; try exact Hc.
    intros key d Hk.
    destruct (decide (Tts.rq_key r = key)) as [<-|Hne].
    + rewrite lookup_insert_eq in Hk. injection Hk as <-. split; [done|].
      exists (Tts.rq_text r). by destruct Hr.
    + rewrite lookup_insert_ne in Hk by done. by apply Hc.
Qed.

(** In every session the cache holds nothing but non-empty audio, each
    under the trimmed form of a text that was sent to the gateway; the
    empty text is never sent; and a request that finds its text in the
    cache is answered with that audio, never with [null]. *)
Theorem cache_holds_audio_of_requested_texts_only (es : list (Tts.Event K)) :
  let st := (Tts.run es Tts.empty).1 in
  (forall key data, Tts.audioCache st !! key = Some data ->
     data <> "" /\ exists text, text ∈ Tts.invocations st /\ trim text = key)
  /\ ("" ∉ Tts.invocations st)
  /\ (forall text k data,
        text <> "" -> Tts.audioCache st !! trim text = Some data ->
        Tts.generateGeminiTTS text k st = (st, Some (k, Some data))).
Proof.
  intros st.
  assert (Hs : cacheSound st).
  { subst st. assert (H0 : cacheSound (K:=K) Tts.empty).
    { split; [|split; [constructor|apply not_elem_of_nil]].
      intros key data H. cbn in H. by rewrite lookup_empty in H. }
    revert H0. generalize (Tts.empty (K:=K)).
    induction es as [|e es IH]; intros s Hs; [done|].
    rewrite run_cons_state. by apply IH, step_cacheSound. }
  clearbody st. destruct Hs as (Hc & _ & He).
  split; [exact Hc|]. split; [exact He|].
  intros text k data Hne Hk. rewrite (generateGeminiTTS_cached st text k data Hne Hk).
  destruct (Hc _ _ Hk) as [Hd _]. by rewrite bool_decide_eq_false_2.
Qed.

End TtsMore.

(** ** Pictures: generated, merged, saved, requested again *)

Section PicturesMore.

Variable encodeURIComponent : string -> string.

Lemma firstInline_data (parts : list Gemini.Part) (url : string) :
  Gemini.firstInline parts = Some url ->
  exists rest, url = "data:" +:+ rest.
Proof.
  induction parts as [|p parts IH]; [done|]. cbn [Gemini.firstInline].
  destruct (Gemini.inlineData p) as [d|]; [|exact IH].
  intros [= <-]. eexists. reflexivity.
Qed.

Lemma firstInline_None (parts : list Gemini.Part) :
  Gemini.firstInline parts = None
  <-> Forall (fun p => Gemini.inlineData p = None) parts.
Proof.
  induction parts as [|p parts IH]; cbn [Gemini.firstInline].
  - split; [constructor|done].
  - rewrite Forall_cons. destruct (Gemini.inlineData p); [|tauto].
    split; [discriminate|]. intros [H _]. discriminate.
Qed.

Lemma prefix_append (s1 s2 : string) : String.prefix s1 (s1 +:+ s2) = true.
Proof.
  induction s1 as [|a s1 IH].
  - change ("" +:+ s2) with s2. by destruct s2.
  - change (String a s1 +:+ s2) with (String a (s1 +:+ s2)). cbn [String.prefix].
    destruct (Ascii.ascii_dec a a); [exact IH|done].
Qed.

Lemma stripStep_data (rest : string) (s : LessonStep) :
  Storage.stripStep (withImage (Some ("data:" +:+ rest)) s) = withImage None s.
Proof.
  unfold Storage.stripStep, truthy. cbn [imageUrl withImage].
  rewrite bool_decide_eq_false_2 by (cbn; discriminate).
  by rewrite prefix_append.
Qed.

Lemma stripStep_fallback (query : string) (i : nat) (s : LessonStep) :
  Storage.stripStep
    (withImage (Some (Enrichment.fallbackUrl encodeURIComponent query i)) s)
  = withImage (Some (Enrichment.fallbackUrl encodeURIComponent query i)) s.
Proof.
  unfold Storage.stripStep. cbn [imageUrl withImage].
  assert (String.prefix "data:" (Enrichment.fallbackUrl encodeURIComponent query i)
          = false) as -> by reflexivity.
  by rewrite andb_false_r.
Qed.

(** The address merged into a step is never empty.  When the image model
    answered with inline data it is a [data:] address, built from the first
    such part, and a later save drops it from the stored step; in every
    other case (no such part, no parts, an exception) it is the
    Pollinations address, which a save keeps. *)
Theorem generated_pictures_are_data_addresses
    (r : Gemini.Response) (query : string) (index : nat) (s : LessonStep) :
  let url := Enrichment.assetUrl encodeURIComponent r query index in
  truthy (Some url) = true
  /\ (Gemini.generateDiagram r = None
      <-> r = Gemini.Thrown
          \/ exists parts, r = Gemini.Content parts
               /\ Forall (fun p => Gemini.inlineData p = None) (default [] parts))
  /\ match Gemini.generateDiagram r with
     | Some d =>
         url = d /\ String.prefix "data:" d = true
         /\ Storage.stripStep (withImage (Some url) s) = withImage None s
     | None =>
         url = Enrichment.fallbackUrl encodeURIComponent query index
         /\ String.prefix "data:" url = false
         /\ Storage.stripStep (withImage (Some url) s) = withImage (Some url) s
     end.
Proof.
  intros url. subst url. unfold Enrichment.assetUrl, Lesson.finalUrl.
  assert (Hnone : Gemini.generateDiagram r = None
      <-> r = Gemini.Thrown
          \/ exists parts, r = Gemini.Content parts
               /\ Forall (fun p => Gemini.inlineData p = None) (default [] parts)).
  { destruct r as [parts|]; cbn [Gemini.generateDiagram].
    - rewrite firstInline_None. split.
      + intros H. right. by exists parts.
      + intros [H|(ps & [= <-] & H)]; [discriminate|done].
    - split; [by left|done]. }
  destruct (Gemini.generateDiagram r) as [d|] eqn:Eg.
  - assert (Hd : exists rest, d = "data:" +:+ rest).
    { destruct r as [parts|]; [|discriminate]. by eapply firstInline_data. }
    destruct Hd as [rest ->]. cbn [orElse].
    rewrite bool_decide_eq_false_2 by discriminate.
    split; [reflexivity|]. split; [exact Hnone|]. split; [done|].
    split; [apply prefix_append|apply stripStep_data].
  - cbn [orElse]. split; [reflexivity|]. split; [exact Hnone|]. split; [done|].
    split; [reflexivity|apply stripStep_fallback].
Qed.

Lemma writeSlot_length (i : nat) (v : Lesson.StepSlot) (arr : list Lesson.StepSlot) :
  length (Lesson.writeSlot i v arr) = Nat.max (length arr) (S i).
Proof.
  unfold Lesson.writeSlot. case_decide.
  - rewrite length_insert. lia.
  - rewrite !length_app, length_replicate. cbn. lia.
Qed.

Lemma writeSlot_lookup (i k : nat) (v : Lesson.StepSlot) (arr : list Lesson.StepSlot) :
  Lesson.writeSlot i v arr !! k
  = if decide (k = i) then Some v
    else if decide (k < length arr)%nat then arr !! k
    else if decide (k < i)%nat then Some Lesson.Hole else None.
Proof.
  unfold Lesson.writeSlot. destruct (decide (i < length arr)%nat) as [Hi|Hi].
  - destruct (decide (k = i)) as [->|Hk].
    + by rewrite list_lookup_insert_eq.
    + rewrite list_lookup_insert_ne by done.
      destruct (decide (k < length arr)%nat); [done|].
      rewrite lookup_ge_None_2 by lia. destruct (decide (k < i)%nat); [lia|done].
  - destruct (decide (k = i)) as [->|Hk].
    + rewrite lookup_app_r by lia. rewrite lookup_app_r; rewrite length_replicate; [|lia].
      by rewrite Nat.sub_diag.
    + destruct (decide (k < length arr)%nat) as [Hl|Hl].
      * by rewrite lookup_app_l.
      * rewrite lookup_app_r by lia. destruct (decide (k < i)%nat) as [Hki|Hki].
        -- rewrite lookup_app_l by (rewrite length_replicate; lia).
           apply lookup_replicate_2. lia.
        -- apply lookup_ge_None_2. rewrite length_app, length_replicate. cbn. lia.
Qed.

Lemma spreadImage_beyond (url : string) (arr : list Lesson.StepSlot) (i : nat)
    (o : option Lesson.StepSlot) :
  (length arr <= i)%nat -> (o = None \/ o = Some Lesson.Hole) ->
  Lesson.spreadImage url o = Lesson.spreadImage url (arr !! i).
Proof.
  intros Hi Ho. rewrite (lookup_ge_None_2 arr i) by lia. by destruct Ho as [-> | ->].
Qed.

Lemma writeSlot_comm (i j : nat) (a b : string) (arr : list Lesson.StepSlot) :
  i <> j ->
  let w1 := Lesson.writeSlot j (Lesson.spreadImage b (arr !! j)) arr in
  let w2 := Lesson.writeSlot i (Lesson.spreadImage a (arr !! i)) arr in
  Lesson.writeSlot i (Lesson.spreadImage a (w1 !! i)) w1
  = Lesson.writeSlot j (Lesson.spreadImage b (w2 !! j)) w2.
Proof.
  intros Hij w1 w2.
  assert (H1 : Lesson.spreadImage a (w1 !! i) = Lesson.spreadImage a (arr !! i)).
  { subst w1. rewrite writeSlot_lookup. destruct (decide (i = j)); [done|].
    destruct (decide (i < length arr)%nat); [done|].
    apply spreadImage_beyond; [lia|]. destruct (decide (i < j)%nat); auto. }
  assert (H2 : Lesson.spreadImage b (w2 !! j) = Lesson.spreadImage b (arr !! j)).
  { subst w2. rewrite writeSlot_lookup. destruct (decide (j = i)); [done|].
    destruct (decide (j < length arr)%nat); [done|].
    apply spreadImage_beyond; [lia|]. destruct (decide (j < i)%nat); auto. }
  rewrite H1, H2. subst w1 w2. apply list_eq. intros k.
  rewrite !writeSlot_lookup, !writeSlot_length.
  repeat (case_decide; try lia; try done).
  all: try (rewrite lookup_ge_None_2 by lia); try done.
Qed.

(** The order in which two pictures arrive does not matter: the updaters
    of two different steps commute, whatever the live lesson is (none,
    another topic, shorter than the plan they were requested for); and of
    two pictures for the same step the later one stays. *)
Theorem pictures_merge_in_any_order
    (planTopic : string) (i j : nat) (a b : string)
    (prev : option (LessonPlan Lesson.StepSlot)) :
  (i <> j ->
   Lesson.mergeAsset planTopic i a (Lesson.mergeAsset planTopic j b prev)
   = Lesson.mergeAsset planTopic j b (Lesson.mergeAsset planTopic i a prev))
  /\ Lesson.mergeAsset planTopic i a (Lesson.mergeAsset planTopic i b prev)
     = Lesson.mergeAsset planTopic i a prev.
Proof.
  unfold Lesson.mergeAsset. destruct prev as [p|]; [|done].
  destruct (bool_decide (topic p ≠ planTopic)) eqn:Et.
  { by rewrite Et. }
  cbn [withSteps topic steps]. rewrite Et. split.
  - intros Hij. f_equal. unfold withSteps. cbn [topic]. f_equal.
    by apply (writeSlot_comm i j a b (steps p)).
  - f_equal. unfold withSteps. cbn [topic]. f_equal. apply list_eq. intros k.
    rewrite !writeSlot_lookup, !writeSlot_length.
    destruct (decide (k = i)) as [->|Hk].
    + f_equal. rewrite decide_True by done.
      destruct (steps p !! i) as [[s| |]|]; reflexivity.
    + repeat (case_decide; try lia; try done).
Qed.

Lemma assetRequests_elem (plan : LessonPlan LessonStep) (i : nat) (q : string) :
  (i, q) ∈ Lesson.assetRequests plan
  <-> exists s, steps plan !! i = Some s /\ truthy (imageUrl s) = false
                /\ q = diagram_scrape_query s.
Proof.
  unfold Lesson.assetRequests. rewrite list_elem_of_omap. split.
  - intros ([k s] & Hin & Hf). apply elem_of_lookup_imap in Hin as (k' & s' & [= -> ->] & Hl).
    destruct (truthy (imageUrl s')) eqn:Et; [discriminate|]. injection Hf as <- <-.
    by exists s'.
  - intros (s & Hl & Ht & ->). exists (i, s). split.
    + apply elem_of_lookup_imap. by exists i, s.
    + by rewrite Ht.
Qed.

(** A lesson that was saved and is opened again asks for pictures anew,
    for the steps that never had one and for those whose picture was held
    as base64 data (as every picture of the image model is), and for no
    other step. *)
Theorem reopened_lesson_requests_its_stripped_pictures
    (session : Storage.SavedSession nat) (h : Storage.Heap) :
  let '(copy, h') := Storage.sanitizeSession session h in
  match Storage.lessonPlan session, Storage.lessonPlan (Storage.freeze h' copy) with
  | Some plan, Some saved =>
      forall i q,
        (i, q) ∈ Lesson.assetRequests saved
        <-> exists s, Storage.readSteps h (steps plan) !! i = Some s
                      /\ q = diagram_scrape_query s
                      /\ (truthy (imageUrl s) = false
                          \/ exists url, imageUrl s = Some url
                                         /\ String.prefix "data:" url = true)
  | None, None => True
  | _, _ => False
  end.
Proof.
  pose proof (sanitize_freeze session h) as Hc.
  destruct (Storage.sanitizeSession session h) as [copy h']. rewrite Hc.
  unfold stripped, Storage.freeze. cbn [Storage.lessonPlan].
  destruct (Storage.lessonPlan session) as [plan|]; [|done]. cbn [fmap option_fmap option_map].
  intros i q. rewrite assetRequests_elem. cbn [steps withSteps].
  rewrite list_lookup_fmap. split.
  - intros (s' & Hl & Ht & ->).
    destruct (Storage.readSteps h (steps plan) !! i) as [s|]; [|discriminate].
    injection Hl as <-. exists s. split; [done|]. split; [done|].
    cbn [imageUrl withImage] in Ht. unfold keptImage in Ht.
    destruct (imageUrl s) as [url|]; [|by left].
    destruct (String.prefix "data:" url) eqn:P; [right; by exists url|by left].
  - intros (s & Hl & -> & Hpic). rewrite Hl. eexists. split; [reflexivity|].
    split; [|done]. cbn [imageUrl withImage]. unfold keptImage.
    destruct Hpic as [Ht|(url & Hu & P)].
    + destruct (imageUrl s) as [url|]; [|done]. by destruct (String.prefix "data:" url).
    + by rewrite Hu, P.
Qed.

Lemma assetUrl_truthy (r : Gemini.Response) (query : string) (index : nat) :
  truthy (Some (Enrichment.assetUrl encodeURIComponent r query index)) = true.
Proof.
  unfold Enrichment.assetUrl, Lesson.finalUrl.
  destruct (Gemini.generateDiagram r) as [d|] eqn:Eg; cbn [orElse]; [|reflexivity].
  destruct r as [parts|]; [|discriminate].
  destruct (firstInline_data _ _ Eg) as [rest ->].
  by rewrite bool_decide_eq_false_2 by discriminate.
Qed.

(** The live lesson when the pictures of the steps in [done] have
    settled. *)
Lemma enrichment_progress (plan : LessonPlan LessonStep)
    (answers : nat -> Gemini.Response) (loaded : nat -> bool) (done : list nat) :
  NoDup done -> Forall (fun k => (k < length (steps plan))%nat) done ->
  Enrichment.startBackgroundAssetGeneration encodeURIComponent plan answers loaded done
    (Some (Lesson.dense plan))
  = Some (withSteps
            (imap (fun i s =>
                     Lesson.Present
                       (if bool_decide (i ∈ done)
                        then pictured encodeURIComponent answers loaded i s else s))
               (steps plan)) plan).
Proof.
  unfold Enrichment.startBackgroundAssetGeneration.
  induction done as [|k done IH] using rev_ind; intros Hnd Hlt.
  - cbn [foldl]. unfold Lesson.dense. f_equal. f_equal. apply list_eq. intros i.
    rewrite list_lookup_imap, list_lookup_fmap. destruct (steps plan !! i); [|done].
    cbn. by rewrite bool_decide_eq_false_2 by apply not_elem_of_nil.
  - rewrite foldl_app. cbn [foldl].
    apply NoDup_app in Hnd as (Hnd & Hk & _). apply Forall_app in Hlt as [Hlt Hkn].
    rewrite Forall_singleton in Hkn. rewrite (IH Hnd Hlt). clear IH.
    assert (Hnotin : k ∉ done).
    { intros Hin. apply (Hk k Hin). by apply list_elem_of_singleton. }
    destruct (lookup_lt_is_Some_2 _ _ Hkn) as [s Hs]. rewrite Hs.
    assert (Hext : forall v : LessonStep,
      v = pictured encodeURIComponent answers loaded k s ->
      <[k := Lesson.Present v]>
        (imap (fun i s =>
                 Lesson.Present
                   (if bool_decide (i ∈ done)
                    then pictured encodeURIComponent answers loaded i s else s))
           (steps plan))
      = imap (fun i s =>
                Lesson.Present
                  (if bool_decide (i ∈ done ++ [k])
                   then pictured encodeURIComponent answers loaded i s else s))
          (steps plan)).
    { intros v ->. apply list_eq. intros i. destruct (decide (i = k)) as [->|Hik].
      - rewrite list_lookup_insert_eq by (by rewrite length_imap).
        rewrite list_lookup_imap, Hs. cbn.
        rewrite bool_decide_eq_true_2; [done|]. apply elem_of_app. right.
        by apply list_elem_of_singleton.
      - rewrite list_lookup_insert_ne by done. rewrite !list_lookup_imap.
        destruct (steps plan !! i) as [si|]; [|done]. cbn. do 2 f_equal.
        rewrite (bool_decide_ext (i ∈ done ++ [k]) (i ∈ done)); [done|]. rewrite elem_of_app, list_elem_of_singleton. split; [intros [Hi|Hi]; [exact Hi|contradiction]|by left]. }
    assert (Hself : imap (fun i s =>
                Lesson.Present
                  (if bool_decide (i ∈ done)
                   then pictured encodeURIComponent answers loaded i s else s))
          (steps plan) !! k = Some (Lesson.Present s)).
    { rewrite list_lookup_imap, Hs. cbn. by rewrite bool_decide_eq_false_2. }
    unfold Enrichment.enrichStep.
    destruct (truthy (imageUrl s)) eqn:Et.
    { f_equal. f_equal. rewrite <- (Hext s).
      - symmetry. by apply list_insert_id.
      - unfold pictured. by rewrite Et. }
    destruct (loaded k) eqn:El.
    + unfold Lesson.mergeAsset. cbn [withSteps topic steps].
      rewrite bool_decide_eq_false_2 by (intros H; by apply H).
      f_equal. unfold withSteps. cbn [topic]. f_equal.
      unfold Lesson.writeSlot. rewrite decide_True by (by rewrite length_imap).
      rewrite Hself. cbn [Lesson.spreadImage]. apply Hext.
      unfold pictured. by rewrite Et, El.
    + f_equal. f_equal. rewrite <- (Hext s).
      * symmetry. by apply list_insert_id.
      * unfold pictured. by rewrite Et, El.
Qed.

(** What the background enrichment of a lesson comes to, while that
    lesson stays the live one: whatever the order in which the pictures
    settle, every step that had no picture and whose picture loaded gets
    the chosen address, and nothing else of the lesson changes.  If every
    picture loads, every step ends up with one. *)
Theorem enrichment_gives_every_loaded_picture_its_step
    (plan : LessonPlan LessonStep)
    (answers : nat -> Gemini.Response) (loaded : nat -> bool) (order : list nat) :
  order ≡ₚ seq 0 (length (steps plan)) ->
  Enrichment.startBackgroundAssetGeneration encodeURIComponent plan answers loaded order
    (Some (Lesson.dense plan))
  = Some (Lesson.dense
            (withSteps (imap (pictured encodeURIComponent answers loaded) (steps plan))
               plan))
  /\ ((forall i, loaded i = true) ->
      Forall (fun s => truthy (imageUrl s) = true)
        (imap (pictured encodeURIComponent answers loaded) (steps plan))).
Proof.
  intros Hp. split.
  - rewrite enrichment_progress.
    + unfold Lesson.dense. cbn [withSteps steps topic]. f_equal. unfold withSteps.
      f_equal. apply list_eq. intros i.
      rewrite list_lookup_fmap, !list_lookup_imap.
      destruct (steps plan !! i) as [s|] eqn:Es; [|done]. cbn.
      rewrite bool_decide_eq_true_2; [done|]. rewrite Hp. apply elem_of_seq.
      apply lookup_lt_Some in Es. lia.
    + rewrite Hp. apply NoDup_seq.
    + apply Forall_forall. intros k Hk. rewrite Hp in Hk. apply elem_of_seq in Hk. lia.
  - intros Hall. apply Forall_forall. intros s Hs.
    apply elem_of_lookup_imap in Hs as (i & s0 & -> & _).
    unfold pictured. rewrite Hall. cbn [negb]. rewrite orb_false_r.
    destruct (truthy (imageUrl s0)) eqn:Et; [exact Et|].
    cbn [imageUrl withImage]. apply assetUrl_truthy.
Qed.

End PicturesMore.

(** *** Decoding the synthesized audio *)

Section PcmMore.

Variable atob : string -> option (list Z).
Variable littleEndian : bool.
Variable createBuffer : nat -> bool.

Lemma toInt16_range (first second : Z) :
  (0 <= first < 256)%Z -> (0 <= second < 256)%Z ->
  (-32768 <= Pcm.toInt16 littleEndian first second < 32768)%Z.
Proof.
  intros H1 H2. unfold Pcm.toInt16. destruct littleEndian; cbv zeta;
    case_match; rewrite ?Z.ltb_lt, ?Z.ltb_ge in *; lia.
Qed.

Lemma int16Array_spec (bytes : list Z) :
  Forall (fun b => (0 <= b < 256)%Z) bytes ->
  if Nat.odd (length bytes) then Pcm.int16Array littleEndian bytes = None
  else exists samples,
         Pcm.int16Array littleEndian bytes = Some samples
         /\ length samples = (length bytes / 2)%nat
         /\ Forall (fun v => (-32768 <= v < 32768)%Z) samples.
Proof.
  assert (H : forall n bytes, (length bytes <= n)%nat ->
            Forall (fun b => (0 <= b < 256)%Z) bytes ->
            if Nat.odd (length bytes) then Pcm.int16Array littleEndian bytes = None
            else exists samples,
                   Pcm.int16Array littleEndian bytes = Some samples
                   /\ length samples = (length bytes / 2)%nat
                   /\ Forall (fun v => (-32768 <= v < 32768)%Z) samples).
  { clear bytes. induction n as [|n IH]; intros bytes Hlen Hb.
    - destruct bytes; [|cbn in Hlen; lia]. cbn. exists []. by repeat split.
    - destruct bytes as [|b0 [|b1 rest]].
      + cbn. exists []. by repeat split.
      + reflexivity.
      + apply Forall_cons in Hb as [H0 Hb]. apply Forall_cons in Hb as [H1 Hb].
        specialize (IH rest ltac:(cbn in Hlen; lia) Hb).
        change (length (b0 :: b1 :: rest)) with (S (S (length rest))).
        rewrite Nat.odd_succ_succ. cbn [Pcm.int16Array].
        destruct (Nat.odd (length rest)).
        * by rewrite IH.
        * destruct IH as (samples & -> & Hl & Hr). eexists. split; [reflexivity|].
          split.
          -- cbn [length]. rewrite Hl.
             change (S (S (length rest))) with (1 * 2 + length rest)%nat.
             rewrite Nat.div_add_l by lia. lia.
          -- constructor; [by apply toInt16_range|done]. }
  apply (H (length bytes)). lia.
Qed.

Lemma toFloat_range (v : Z) :
  (-32768 <= v < 32768)%Z -> (-1 <= Pcm.toFloat v)%Q /\ (Pcm.toFloat v < 1)%Q.
Proof.
  intros Hv. unfold Pcm.toFloat, Qdiv, Qle, Qlt. cbn. lia.
Qed.

(** What [decodePCM] makes of a payload.  It throws when [atob] does,
    when the decoded bytes are odd in number, and when the audio context
    refuses the length; otherwise the buffer has one channel at 24 kHz
    with one sample for every two bytes, and every sample lies in
    [-1, 1). *)
Theorem decodePCM_yields_one_sample_in_range_per_two_bytes (base64Data : string) :
  let decoded := Pcm.decodePCM atob littleEndian createBuffer base64Data in
  match atob base64Data with
  | None => decoded = None
  | Some binaryString =>
      if Nat.odd (length binaryString) then decoded = None
      else if createBuffer (length binaryString / 2)
      then exists buffer,
             decoded = Some buffer
             /\ Pcm.numberOfChannels buffer = 1%nat
             /\ Pcm.sampleRate buffer = 24000%Z
             /\ length (Pcm.channelData buffer) = (length binaryString / 2)%nat
             /\ Forall (fun x => (-1 <= x)%Q /\ (x < 1)%Q) (Pcm.channelData buffer)
      else decoded = None
  end.
Proof.
  cbv zeta. unfold Pcm.decodePCM. destruct (atob base64Data) as [binaryString|]; [|done].
  assert (Hb : Forall (fun b => (0 <= b < 256)%Z) (Pcm.toUint8 <$> binaryString)).
  { apply Forall_fmap, Forall_forall. intros c _. cbn. unfold Pcm.toUint8.
    apply Z.mod_pos_bound. lia. }
  pose proof (int16Array_spec _ Hb) as Hs. rewrite length_fmap in Hs.
  destruct (Nat.odd (length binaryString)); [by rewrite Hs|].
  destruct Hs as (samples & -> & Hl & Hr). cbv zeta. rewrite length_fmap, Hl.
  destruct (createBuffer (length binaryString / 2)); [|done].
  eexists. split; [reflexivity|]. cbn. split; [done|]. split; [done|].
  split; [by rewrite length_fmap|].
  apply Forall_fmap. eapply Forall_impl; [exact Hr|]. intros v Hv. by apply toFloat_range.
Qed.

End PcmMore.

(** ** A save, in full *)

Section SavedSessions.
Import Storage.

(** What is written and what the caller learns, by what [setItem]
    accepts. *)
Lemma save_exact (fits : Store -> bool) (session : SavedSession nat) (h : Heap)
    (store : Store) :
  closed h session ->
  let c := stripped (freeze h session) in
  let full := c :: take 9 (others (id session) store) in
  let '(h', store', outcome) := saveSessionToStorage fits session h store in
  store' = (if fits full then full else if fits [c] then [c] else store)
  /\ outcome
     = (if fits full then Saved else if fits [c] then SavedCurrentOnly else NotSaved)
  /\ freeze h' session = freeze h session.
Proof.
  intros Hclosed c full. unfold saveSessionToStorage, getSessionsFromStorage.
  pose proof (sanitize_freeze session h) as Hc.
  pose proof (sanitizeSession_spec session h) as Hs.
  destruct (sanitizeSession session h) as [copy h1].
  destruct Hs as (Hid & _ & Hkeep). rewrite Hc.
  change (id (freeze h1 copy)) with (id copy) in Hid.
  rewrite Hid. fold c. fold (others (id session) store).
  change (take 10 (c :: others (id session) store)) with full.
  destruct (fits full) eqn:Ef.
  - split; [done|]. split; [done|]. by apply freeze_closed.
  - pose proof (sanitize_freeze session h1) as Hc2.
    pose proof (sanitizeSession_spec session h1) as Hs2.
    destruct (sanitizeSession session h1) as [again h2].
    destruct Hs2 as (_ & _ & Hkeep2).
    rewrite Hc2, (freeze_closed h h1 session Hclosed Hkeep). fold c.
    assert (Hlive : freeze h2 session = freeze h session).
    { apply freeze_closed; [done|]. intros l s Hl. by apply Hkeep2, Hkeep. }
    destruct (fits [c]); done.
Qed.

Lemma stripped_steps (s : SavedSession LessonStep) :
  id (stripped s) = id s /\ topic (stripped s) = topic s
  /\ lastActive (stripped s) = lastActive s /\ messages (stripped s) = messages s
  /\ currentStepIndex (stripped s) = currentStepIndex s
  /\ match lessonPlan s with
     | None => lessonPlan (stripped s) = None
     | Some plan =>
         exists steps',
           lessonPlan (stripped s) = Some (withSteps steps' plan)
           /\ Forall2 (fun st st' =>
                withImage (imageUrl st) st' = st
                /\ imageUrl st'
                   = match imageUrl st with
                     | Some url => if String.prefix "data:" url then None else Some url
                     | None => None
                     end) (steps plan) steps'
     end.
Proof.
  unfold stripped. cbn. do 5 (split; [done|]).
  destruct (lessonPlan s) as [plan|]; [|done]. cbn. eexists. split; [reflexivity|].
  apply Forall2_fmap_r, Forall_Forall2_diag, Forall_forall. intros st _.
  split; [by destruct st|]. reflexivity.
Qed.

(** C10: a save of a session whose steps all exist, after whatever saves
    and deletions.  The save goes through in full if [setItem] accepts the
    session followed by the nine most recent others, for the session alone
    if it accepts only that, and not at all otherwise; the caller's outcome
    says which.  In every case the persisted list holds at most 10
    sessions, no two with the same id, and no step with an [imageUrl] that
    starts with "data:".  After a save that went through, the list starts
    with the copy of the session, which occurs nowhere else; the copy has
    the session's identifier, topic, date, messages and step index and its
    steps in order, each with its [imageUrl] dropped if it starts with
    "data:" and untouched otherwise.  The step objects of the running
    application are left as they were, so the live session reads as
    before. *)
Theorem saved_sessions_are_bounded_unique_and_stripped
    (ops : list Op) (fits : Store -> bool) (session : SavedSession nat) (h : Heap) :
  closed h session ->
  let store := history ops in
  let live := freeze h session in
  let c := stripped live in
  let full := c :: take 9 (others (id session) store) in
  let '(h', store', outcome) := saveSessionToStorage fits session h store in
  (store' = (if fits full then full else if fits [c] then [c] else store)
   /\ outcome
      = (if fits full then Saved else if fits [c] then SavedCurrentOnly else NotSaved))
  /\ ((length store' <= 10)%nat
      /\ NoDup (id <$> store')
      /\ Forall (fun s =>
           forall plan, lessonPlan s = Some plan ->
           Forall (fun st => forall url, imageUrl st = Some url ->
                     String.prefix "data:" url = false) (steps plan)) store')
  /\ match outcome with
     | NotSaved => store' = store
     | Saved | SavedCurrentOnly =>
         exists rest, store' = c :: rest /\ id session ∉ (id <$> rest)
     end
  /\ (id c = id session /\ topic c = topic live /\ lastActive c = lastActive live
      /\ messages c = messages live /\ currentStepIndex c = currentStepIndex live
      /\ match lessonPlan live with
         | None => lessonPlan c = None
         | Some plan =>
             exists steps',
               lessonPlan c = Some (withSteps steps' plan)
               /\ Forall2 (fun st st' =>
                    withImage (imageUrl st) st' = st
                    /\ imageUrl st'
                       = match imageUrl st with
                         | Some url =>
                             if String.prefix "data:" url then None else Some url
                         | None => None
                         end) (steps plan) steps'
         end)
  /\ ((forall l s, h !! l = Some s -> h' !! l = Some s)
      /\ freeze h' session = live).
Proof.
  intros Hclosed store live c full.
  pose proof (save_spec fits session h store (history_wellKept ops)) as H.
  pose proof (save_exact fits session h store Hclosed) as He. cbv zeta in He.
  fold live c full in He.
  destruct (saveSessionToStorage fits session h store) as [[h' store'] o].
  destruct H as ((Hlen & Hnd & Hcl) & Hout & Hkeep).
  destruct He as (Hstore & Ho & Hlive).
  split; [done|]. split; [|split; [|split; [|done]]].
  - split; [done|]. split; [done|].
    eapply Forall_impl; [exact Hcl|]. simpl.
    intros s Hs plan Hp. unfold sessionClean in Hs. rewrite Hp in Hs.
    apply Forall_forall. intros x Hx url Hu.
    rewrite forallb_forall in Hs. apply list_elem_of_In in Hx.
    specialize (Hs x Hx). unfold stepClean in Hs. rewrite Hu in Hs.
    by apply negb_true_iff.
  - destruct o; [| |done].
    + destruct Hout as (c0 & rest & Hs & _ & Hnot). exists rest. split; [|done].
      rewrite Hs in Hstore. destruct (fits full).
      * subst full. by injection Hstore as -> _.
      * destruct (fits [c]); discriminate.
    + destruct Hout as (c0 & rest & Hs & _ & Hnot). exists rest. split; [|done].
      rewrite Hs in Hstore. destruct (fits full); [discriminate|].
      destruct (fits [c]); [|discriminate]. by injection Hstore as -> _.
  - pose proof (stripped_steps live) as (H1 & H2 & H3 & H4 & H5 & H6).
    change (id live) with (id session) in H1. done.
Qed.

End SavedSessions.

(** ** Pictures that arrive while the lesson plays *)

Section SessionFacts.
Import Player.

(** On a plan without holes and for one of its steps, the updater of
    [img.onload] is [mergePicture]. *)
Lemma mergePicture_updater (plan : LessonPlan LessonStep) (i : nat) (url : string) :
  (i < length (steps plan))%nat ->
  Lesson.mergeAsset (topic plan) i url (Some (Lesson.dense plan))
  = Some (Lesson.dense (Session.mergePicture i url plan)).
Proof.
  intros Hi. unfold Lesson.mergeAsset, Lesson.dense, Session.mergePicture.
  cbn [topic steps withSteps].
  rewrite bool_decide_eq_false_2 by (intros H; by apply H).
  f_equal. unfold withSteps. cbn [topic steps]. f_equal.
  unfold Lesson.writeSlot. rewrite decide_True by (by rewrite length_fmap).
  destruct (lookup_lt_is_Some_2 _ _ Hi) as [s Hs].
  rewrite list_lookup_fmap, Hs. cbn [fmap option_fmap option_map Lesson.spreadImage].
  apply list_eq. intros j. destruct (decide (j = i)) as [->|Hne].
  - rewrite list_lookup_insert_eq by (by rewrite length_fmap).
    rewrite list_lookup_fmap, list_lookup_alter_eq, Hs. done.
  - rewrite list_lookup_insert_ne by done.
    rewrite !list_lookup_fmap, list_lookup_alter_ne by done. done.
Qed.

End SessionFacts.

(** *** The player: what holds of every run *)

Section PlayerMore.

Import Player.

Variable plan : LessonPlan LessonStep.
Variable decodable : string -> bool.

Ltac flow :=
  unfold effectA, effectB, effectC, effectD, effectP,
    runCleanupB, runCleanupC, runCleanupP,
    settle, resolveImage, afterImage, deliver, afterSpeech, updTask,
    playPCM, startSource, fallbackToWebSpeech, addHandle,
    grace, handleEnded, handleNextStep, stopAudio, clearTimeout, setTimeout in *.

Lemma muted_upd (k : nat) (f : PrepTask -> PrepTask) (l : list PrepTask) :
  (forall t, p_render (f t) = p_render t) ->
  Forall (fun t => isMuted (p_render t) = true) l ->
  Forall (fun t => isMuted (p_render t) = true)
    ((fun t => if Nat.eqb (p_id t) k then f t else t) <$> l).
Proof.
  intros Hf Hl. apply Forall_fmap. eapply Forall_impl; [exact Hl|].
  intros t Ht. cbn. destruct (Nat.eqb (p_id t) k); [by rewrite Hf|exact Ht].
Qed.

Lemma stopAudio_soundless w : soundless w -> soundless (stopAudio w).
Proof.
  unfold soundless, stopAudio. intros (Hh & Hr & Ha & Ht & Hf & Hp).
  destruct (speech w); cbn; rewrite ?Ha, ?Hh; cbn; rewrite ?Hh; done.
Qed.

Lemma afterSpeech_soundless k a w : soundless w -> soundless (afterSpeech k a w).
Proof.
  unfold soundless, afterSpeech. intros (Hh & Hr & Ha & Ht & Hf & Hp).
  destruct (findTask k w) as [t|]; [|done].
  destruct (isCancelled t); cbn; (repeat split; try done); by apply muted_upd.
Qed.

Lemma findTask_elem k w t : findTask k w = Some t -> t ∈ tasks w.
Proof. intros H. apply list_elem_of_In. exact (proj1 (find_some _ _ H)). Qed.

Lemma afterImage_soundless k w : soundless w -> soundless (afterImage plan k w).
Proof.
  intros Hs. unfold afterImage. destruct (findTask k w) as [t|] eqn:Ef; [|done].
  destruct Hs as (Hh & Hr & Ha & Ht & Hf & Hp).
  rewrite (proj1 (Forall_forall _ _) Ht t (findTask_elem _ _ _ Ef)).
  by apply afterSpeech_soundless.
Qed.

Lemma resolveImage_soundless k w : soundless w -> soundless (resolveImage plan k w).
Proof.
  intros Hs. unfold resolveImage. destruct (findTask k w) as [t|]; [|done].
  destruct (p_stage t); try done. by apply afterImage_soundless.
Qed.

Lemma settle_soundless k w : soundless w -> soundless (settle k w).
Proof.
  unfold soundless, settle. intros (Hh & Hr & Ha & Ht & Hf & Hp).
  destruct (findTask k w) as [t|]; [|done].
  destruct (isCancelled t); cbn; (repeat split; try done); by apply muted_upd.
Qed.

Lemma deliver_soundless d w : soundless w -> soundless (deliver d w).
Proof.
  intros Hs. unfold deliver. destruct d as [[[k|] a]|]; try done.
  by apply afterSpeech_soundless.
Qed.

Lemma effectA_soundless u w : soundless w -> soundless (effectA plan u w).
Proof.
  intros Hs. unfold effectA. repeat case_match; try done.
  exact (stopAudio_soundless _ Hs).
Qed.

Lemma effectB_soundless u w :
  isMuted u = true -> soundless w -> soundless (effectB plan u w).1.
Proof.
  intros Hm Hs. unfold effectB. destruct (stepProp plan u) as [s|]; [|done].
  destruct (negb (isPreparing u) || isLiveSession u); [done|].
  set (w1 := setNextId _ _).
  assert (H1 : soundless w1).
  { destruct Hs as (Hh & Hr & Ha & Ht & Hf & Hp). subst w1. unfold soundless. cbn.
    repeat split; try done. apply Forall_app. split; [done|]. by repeat constructor. }
  clearbody w1. destruct (negb (is3DMode u) && truthy (imageUrl s)); cbn [fst].
  - exact H1.
  - by apply afterImage_soundless.
Qed.

Lemma effectC_soundless u w :
  isMuted u = true -> soundless w -> soundless (effectC plan decodable u w).1.
Proof.
  intros Hm Hs. unfold effectC. rewrite Hm, andb_false_r. cbn [negb andb].
  repeat case_match; try done. cbn [fst].
  exact (stopAudio_soundless _ Hs).
Qed.

Lemma effectP_soundless u w : soundless w -> soundless (effectP plan u w).1.
Proof. intros Hs. unfold effectP. by repeat case_match. Qed.

Lemma runCleanupB_soundless c w : soundless w -> soundless (runCleanupB c w).
Proof.
  intros Hs. destruct c as [k|]; [|done].
  destruct Hs as (Hh & Hr & Ha & Ht & Hf & Hp). unfold soundless. cbn.
  repeat split; try done. by apply muted_upd.
Qed.

Lemma runCleanupC_soundless c w : soundless w -> soundless (runCleanupC c w).
Proof. intros Hs. destruct c; [by apply stopAudio_soundless|done]. Qed.

Lemma runCleanupP_soundless c w : soundless w -> soundless (runCleanupP c w).
Proof. intros Hs. by destruct c. Qed.

Lemma render_soundless w :
  isMuted (ui w) = true -> soundless w -> soundless (render plan decodable w).
Proof.
  intros Hm Hs. unfold render. cbv zeta.
  set (u := ui w) in *. set (fx := effects w).
  set (chA := bool_decide (depsA fx ≠ _)). set (chB := bool_decide (depsB fx ≠ _)).
  set (chC := bool_decide (depsC fx ≠ _)). set (chD := bool_decide (depsD fx ≠ _)).
  set (chP := bool_decide (depsP fx ≠ _)).
  clearbody u.
  set (w1 := if chB then _ else w).
  assert (H1 : soundless w1).
  { subst w1. destruct chB; [by apply runCleanupB_soundless|done]. }
  clearbody w1.
  set (w2 := if chC then _ else w1).
  assert (H2 : soundless w2).
  { subst w2. destruct chC; [by apply runCleanupC_soundless|done]. }
  clearbody w2.
  set (w3 := if chP then _ else w2).
  assert (H3 : soundless w3).
  { subst w3. destruct chP; [by apply runCleanupP_soundless|done]. }
  clearbody w3.
  set (w4 := if chA then _ else w3).
  assert (H4 : soundless w4).
  { subst w4. destruct chA; [by apply effectA_soundless|done]. }
  clearbody w4.
  set (rB := if chB then _ else (w4, _)).
  assert (HB : soundless rB.1).
  { subst rB. destruct chB; [by apply effectB_soundless|done]. }
  clearbody rB.
  set (rC := if chC then _ else (rB.1, _)).
  assert (HC : soundless rC.1).
  { subst rC. destruct chC; [by apply effectC_soundless|done]. }
  clearbody rC.
  set (w5 := if chD then _ else rC.1).
  assert (H5 : soundless w5).
  { subst w5. by destruct chD. }
  clearbody w5.
  set (rP := if chP then _ else (w5, _)).
  assert (HP : soundless rP.1).
  { subst rP. destruct chP; [by apply effectP_soundless|done]. }
  clearbody rP. exact HP.
Qed.

Lemma muted_appState u u' : appState u' = appState u -> isMuted u = true -> isMuted u' = true.
Proof. unfold appState. intros H. injection H as _ _ Hm _ _. by rewrite Hm. Qed.

Lemma commit_soundless n w :
  isMuted (ui w) = true -> soundless w -> soundless (commit plan decodable n w).
Proof.
  revert w. induction n as [|n IH]; intros w Hm Hs; cbn [commit]; [done|].
  case_bool_decide; [by apply render_soundless|].
  apply IH; [|by apply render_soundless].
  eapply muted_appState; [apply render_appState|exact Hm].
Qed.

Lemma generate_prefetch text (st : Tts.State Cont) :
  Forall (fun r => Tts.rq_cont r = PrefetchCont) (Tts.pending st) ->
  Forall (fun r => Tts.rq_cont r = PrefetchCont)
    (Tts.pending (Tts.generateGeminiTTS text PrefetchCont st).1)
  /\ forall k a, (Tts.generateGeminiTTS text PrefetchCont st).2 = Some (k, a) ->
                 k = PrefetchCont.
Proof.
  intros Hp. unfold Tts.generateGeminiTTS. case_bool_decide.
  - split; [done|]. cbn. by intros k a [= <- _].
  - destruct (Tts.audioCache st !! trim text).
    + split; [done|]. cbn. by intros k a [= <- _].
    + split; [|done]. cbn. apply Forall_app. split; [done|]. by repeat constructor.
Qed.

Lemma reply_prefetch id res (st : Tts.State Cont) :
  Forall (fun r => Tts.rq_cont r = PrefetchCont) (Tts.pending st) ->
  Forall (fun r => Tts.rq_cont r = PrefetchCont)
    (Tts.pending (Tts.gatewayReply id res st).1)
  /\ forall k a, (Tts.gatewayReply id res st).2 = Some (k, a) -> k = PrefetchCont.
Proof.
  intros Hp. unfold Tts.gatewayReply.
  destruct (Tts.findRequest id st) as [r|] eqn:Ef; [|done].
  assert (Hr : Tts.rq_cont r = PrefetchCont).
  { apply (proj1 (Forall_forall _ _) Hp). apply list_elem_of_In.
    exact (proj1 (find_some _ _ Ef)). }
  assert (Hd : Forall (fun r => Tts.rq_cont r = PrefetchCont) (Tts.dropRequest id st)).
  { unfold Tts.dropRequest. apply Forall_forall. intros x Hx.
    apply list_elem_of_In, filter_In in Hx as [Hx _].
    apply (proj1 (Forall_forall _ _) Hp). by apply list_elem_of_In. }
  destruct res; try case_bool_decide; cbn; (split; [exact Hd|]);
    intros k a [= <- _]; exact Hr.
Qed.

Lemma soundless_tts st w :
  soundless w ->
  Forall (fun r => Tts.rq_cont r = PrefetchCont) (Tts.pending st) ->
  soundless (setTts st w).
Proof. intros (Hh & Hr & Ha & Ht & Hf & Hp) H. unfold soundless. cbn. done. Qed.

Lemma deliver_prefetch (d : option (Tts.Delivery Cont)) w :
  (forall k a, d = Some (k, a) -> k = PrefetchCont) -> deliver d w = w.
Proof.
  intros H. destruct d as [[k a]|]; [|done]. by rewrite (H k a eq_refl).
Qed.

Lemma fire_soundless t w : soundless w -> soundless (fire plan t w).
Proof.
  intros Hs. unfold fire. cbv zeta.
  set (w1 := clearTimeout _ _).
  assert (H1 : soundless w1) by exact Hs. clearbody w1.
  destruct (t_action t) as [k|k|c|c|text].
  - by apply resolveImage_soundless.
  - by apply settle_soundless.
  - exact H1.
  - unfold grace, handleNextStep. by repeat case_match.
  - destruct H1 as (Hh & Hr & Ha & Ht & Hf & Hp).
    destruct (generate_prefetch text (tts w1) Hp) as [Hp' Hd].
    destruct (Tts.generateGeminiTTS text PrefetchCont (tts w1)) as [st d].
    rewrite (deliver_prefetch d _ Hd). unfold soundless. cbn. done.
Qed.

Lemma fire_muted t w : isMuted (ui (fire plan t w)) = isMuted (ui w).
Proof.
  unfold fire. cbv zeta. destruct (t_action t) as [k|k|c|c|text]; flow;
    repeat (case_match; simpl in * ); try reflexivity.
Qed.

Lemma handle_soundless e w :
  e <> ToggleMute -> isMuted (ui w) = true -> soundless w ->
  soundless (handle plan decodable e w) /\ isMuted (ui (handle plan decodable e w)) = true.
Proof.
  intros He Hm Hs.
  assert (Hsame : forall f, soundless (updUi f w) /\ isMuted (ui w) = true)
    by (intros f; split; [exact Hs|exact Hm]).
  destruct e; unfold handle; cbv zeta.
  - case_match; [apply Hsame|done].
  - case_match; [apply Hsame|done].
  - case_match; [apply Hsame|done].
  - done.
  - case_match; [apply Hsame|done].
  - destruct (playerShown plan (ui w)); [|done]. unfold toggleLiveSession.
    destruct (isLiveSession (ui w)); [apply Hsame|]. split.
    + change (soundless (stopAudio (updUi (setPlayerState PAUSED) w))).
      by apply stopAudio_soundless.
    + cbn [ui updUi setIsLiveSession isMuted]. rewrite stopAudio_ui. exact Hm.
  - apply Hsame.
  - destruct (followUp w) eqn:Ef; [done|]. split; [|done].
    destruct Hs as (Hh & Hr & Ha & Ht & Hf & Hp). unfold soundless. cbn.
    repeat split; try done. by intros c [= <-].
  - destruct (followUp w) as [c|] eqn:Ef; [|done].
    assert (Hc : isMuted c = true) by (destruct Hs as (_ & _ & _ & _ & Hf & _); by apply Hf).
    assert (H0 : soundless (setFollowUp None w)).
    { destruct Hs as (Hh & Hr & Ha & Ht & Hf & Hp). unfold soundless. cbn. done. }
    unfold answerFollowUp. rewrite Hc.
    destruct (Lesson.handleFollowUp _ _ _); [done|].
    repeat case_match; done.
  - destruct (followUp w) eqn:Ef; [|done]. split; [|done].
    destruct Hs as (Hh & Hr & Ha & Ht & Hf & Hp). unfold soundless. cbn. done.
  - destruct (earliest (timers w)) as [t|]; [|done].
    split; [by apply fire_soundless|by rewrite fire_muted].
  - by case_match.
  - split; [by apply resolveImage_soundless|].
    unfold resolveImage. flow. repeat (case_match; simpl in * ); done.
  - destruct Hs as (Hh & Hr & Ha & Ht & Hf & Hp).
    destruct (reply_prefetch id res (tts w) Hp) as [Hp' Hd].
    destruct (Tts.gatewayReply id res (tts w)) as [st d].
    rewrite (deliver_prefetch d _ Hd). unfold soundless. cbn. done.
  - destruct (audioContext w) as [[|]|]; try done.
    destruct Hs as (Hh & Hr & Ha & Ht & Hf & Hp). rewrite Hr. done.
  - destruct Hs as (Hh & Hr & Ha & Ht & Hf & Hp). rewrite Hh. done.
Qed.

Lemma react_soundless e w :
  e <> ToggleMute -> isMuted (ui w) = true -> soundless w ->
  soundless (react plan decodable e w) /\ isMuted (ui (react plan decodable e w)) = true.
Proof.
  intros He Hm Hs. destruct (handle_soundless e w He Hm Hs) as [Hs1 Hm1].
  unfold react. case_bool_decide; [done|]. split.
  - by apply commit_soundless.
  - eapply muted_appState; [apply commit_appState|exact Hm1].
Qed.

(** A lesson that is muted when it starts and whose mute button is never
    pressed makes no sound of its own: whatever else happens, the player
    creates no buffer source and queues no utterance, no [playPCM] waits
    for the audio context, and the only synthesis requests on their way
    are prefetches, none for the narration of the step shown. *)
Theorem muted_lesson_starts_no_sound
    (es : list Event) (ctx : option CtxState) (synth : bool) :
  ToggleMute ∉ es ->
  let w := run plan decodable es (mount plan decodable true ctx synth) in
  isMuted (ui w) = true
  /\ handles w = [] /\ resuming w = [] /\ audioSourceRef w = None
  /\ Forall (fun r => Tts.rq_cont r = PrefetchCont) (Tts.pending (tts w)).
Proof.
  intros Hes.
  assert (Hrun : forall es w, ToggleMute ∉ es -> isMuted (ui w) = true -> soundless w ->
            soundless (run plan decodable es w)
            /\ isMuted (ui (run plan decodable es w)) = true).
  { clear. induction es as [|e es IH]; intros w Hes Hm Hs; [done|].
    apply not_elem_of_cons in Hes as [He Hes].
    destruct (react_soundless e w (not_eq_sym He) Hm Hs) as [Hs1 Hm1].
    exact (IH _ Hes Hm1 Hs1). }
  assert (H0 : soundless (mount plan decodable true ctx synth)
               /\ isMuted (ui (mount plan decodable true ctx synth)) = true).
  { unfold mount. split.
    - apply commit_soundless; [done|]. unfold soundless. cbn.
      repeat split; try done; constructor.
    - eapply muted_appState; [apply commit_appState|done]. }
  destruct H0 as [Hs0 Hm0].
  destruct (Hrun es _ Hes Hm0 Hs0) as [(Hh & Hr & Ha & _ & _ & Hp) Hm].
  cbv zeta. done.
Qed.

(** *** The player catches up with the step index *)

Lemma caughtUp_depsA u u' :
  depsAof plan u = depsAof plan u' -> caughtUp plan u -> caughtUp plan u'.
Proof.
  unfold depsAof, caughtUp, stepKey. intros H. injection H as Hc Hk Hl Hi.
  rewrite Hc, Hl, Hi.
  assert (Hn : stepProp plan u = None <-> stepProp plan u' = None).
  { destruct (stepProp plan u), (stepProp plan u'); done. }
  tauto.
Qed.

Lemma render_caughtUp w :
  (depsA (effects w) = Some (depsAof plan (ui w)) -> caughtUp plan (ui w)) ->
  caughtUp plan (ui (render plan decodable w)).
Proof.
  intros H.
  change (caughtUp plan (noAudio (ui (render plan decodable w)))).
  rewrite render_noAudio. unfold afterD, afterA.
  assert (HD : forall u, caughtUp plan u ->
            caughtUp plan (if bool_decide (depsD (effects w) ≠ Some (currentStepIndex (ui w)))
                           then setIs3DMode false u else u)).
  { intros u Hu. by case_match. }
  apply HD. clear HD.
  destruct (bool_decide (depsA (effects w) ≠ Some (depsAof plan (ui w)))) eqn:HA;
    cbn [andb].
  - destruct (firesA plan (ui w)) eqn:Hf.
    + right. right. reflexivity.
    + unfold firesA in Hf. unfold caughtUp.
      destruct (stepProp plan (ui w)); [|by left].
      destruct (isLiveSession (ui w)); [right; by left|].
      rewrite bool_decide_eq_true_2 in Hf by done. cbn [andb negb] in Hf.
      apply bool_decide_eq_false in Hf. right. right. symmetry. by apply dec_stable.
  - apply H. apply bool_decide_eq_false in HA. by apply dec_stable.
Qed.

Lemma commit_unfold n w :
  commit plan decodable (S n) w
  = if bool_decide (ui (render plan decodable w) = ui w)
    then render plan decodable w
    else commit plan decodable n (render plan decodable w).
Proof. cbn [commit]. reflexivity. Qed.

Lemma commit_caughtUp n w :
  (depsA (effects w) = Some (depsAof plan (ui w)) -> caughtUp plan (ui w)) ->
  caughtUp plan (ui (commit plan decodable (S n) w)).
Proof.
  revert w. induction n as [|n IH]; intros w H; rewrite commit_unfold.
  - pose proof (render_caughtUp w H) as Hr. cbn [commit]. by case_bool_decide.
  - pose proof (render_caughtUp w H) as Hr. case_bool_decide; [exact Hr|].
    apply IH. intros _. exact Hr.
Qed.

Lemma react_caughtUp e w :
  settled plan w -> caughtUp plan (ui w) -> caughtUp plan (ui (react plan decodable e w)).
Proof.
  intros (HA & _) Hc. unfold react. case_bool_decide as Hui; [by rewrite Hui|].
  apply (commit_caughtUp 49). rewrite handle_effects, HA.
  intros Heq. apply (caughtUp_depsA (ui w)); [congruence|exact Hc].
Qed.

(** Between two events the player is never behind the step index of
    [App]: whenever a step is shown outside a live session, the internal
    step index equals the current one, so the index guard of the playback
    effect holds nothing back. *)
Theorem player_catches_up_with_the_step_index
    (es : list Event) (muted : bool) (ctx : option CtxState) (synth : bool) :
  let u := ui (run plan decodable es (mount plan decodable muted ctx synth)) in
  stepProp plan u = None \/ isLiveSession u = true
  \/ internalStepIndex u = currentStepIndex u.
Proof.
  assert (Hrun : forall es w, good plan w -> caughtUp plan (ui w) ->
            caughtUp plan (ui (run plan decodable es w))).
  { clear. induction es as [|e es IH]; intros w Hg Hc; [done|].
    apply IH; [by apply react_good|]. apply react_caughtUp; [apply Hg|exact Hc]. }
  cbv zeta. apply Hrun; [apply mount_good|].
  unfold mount. apply (commit_caughtUp 49). cbn. done.
Qed.

(** *** Changing the narration language *)

(** A render that finds the index-change effect and the 3D reset at rest
    and the player not preparing sets no state. *)
Lemma render_at_rest w :
  depsA (effects w) = Some (depsAof plan (ui w)) ->
  depsD (effects w) = Some (currentStepIndex (ui w)) ->
  isPreparing (ui w) = false ->
  ui (render plan decodable w) = ui w /\ tts (render plan decodable w) = tts w.
Proof.
  intros HA HD Hp. unfold render. cbv zeta.
  rewrite (bool_decide_eq_false_2 (depsA _ ≠ _)) by (by intros H; apply H).
  rewrite (bool_decide_eq_false_2 (depsD _ ≠ _)) by (by intros H; apply H).
  set (u := ui w) in *. set (fx := effects w).
  set (chB := bool_decide (depsB fx ≠ _)).
  set (chC := bool_decide (depsC fx ≠ _)). set (chP := bool_decide (depsP fx ≠ _)).
  set (w1 := if chB then _ else w).
  set (w2 := if chC then _ else w1).
  set (w3 := if chP then _ else w2).
  assert (H3 : ui w3 = u /\ tts w3 = tts w).
  { subst w3 w2 w1. destruct chB, chC, chP;
      rewrite ?runCleanupP_ui, ?runCleanupC_ui, ?runCleanupB_ui,
        ?runCleanupP_tts, ?runCleanupC_tts, ?runCleanupB_tts; done. }
  clearbody w3.
  set (rB := if chB then _ else (w3, _)).
  assert (HB : rB.1 = w3).
  { subst rB. destruct chB; [|done]. unfold effectB. rewrite Hp. cbn [negb orb].
    by destruct (stepProp plan u). }
  clearbody rB.
  set (rC := if chC then _ else (rB.1, _)).
  assert (HC : ui rC.1 = u /\ tts rC.1 = tts w).
  { subst rC. rewrite HB. destruct chC; [|done].
    by rewrite effectC_ui, effectC_tts. }
  clearbody rC.
  set (rP := if chP then _ else (rC.1, _)).
  assert (HP : ui rP.1 = u /\ tts rP.1 = tts w).
  { subst rP. destruct chP; [|done]. by rewrite effectP_ui, effectP_tts. }
  clearbody rP. exact HP.
Qed.

(** Changing the narration language of a step that has been prepared
    prepares nothing again: the player keeps the audio it holds, which was
    synthesized for the old language, stays out of the loading state and
    sends no text to the synthesis gateway. *)
Theorem language_change_keeps_the_prepared_audio (w : World) (l : Lang) :
  settled plan w -> isPreparing (ui w) = false -> controlsShown plan (ui w) = true ->
  let w' := react plan decodable (SetAudioLanguage l) w in
  ui w' = setAudioLanguage l (ui w) /\ tts w' = tts w.
Proof.
  intros (HA & _ & _ & HD & _) Hp Hc. cbv zeta. unfold react.
  cbn [handle]. rewrite Hc.
  set (w1 := updUi (setAudioLanguage l) w).
  assert (H1 : ui (render plan decodable w1) = ui w1 /\ tts (render plan decodable w1) = tts w1).
  { apply render_at_rest; [exact HA|exact HD|exact Hp]. }
  case_bool_decide as Hui; [done|].
  change maxUpdateDepth with (S 49). rewrite commit_unfold.
  rewrite (bool_decide_eq_true_2 _ (proj1 H1)). exact H1.
Qed.

(** *** The follow-up answer *)




End PlayerMore.

(** *** A preparation under way always has its wake-up pending *)

Section PreparationMore.

Import Player.

Variable plan : LessonPlan LessonStep.
Variable decodable : string -> bool.

Ltac flow :=
  unfold effectA, effectB, effectC, effectD, effectP,
    runCleanupB, runCleanupC, runCleanupP,
    settle, resolveImage, afterImage, deliver, afterSpeech, updTask,
    playPCM, startSource, fallbackToWebSpeech, addHandle,
    grace, handleEnded, handleNextStep, stopAudio, clearTimeout, setTimeout in *.

(** Equalities and inequalities between the fields of a world and of what
    a function makes of it. *)
Ltac fieldeq := intros; flow; repeat (case_match; simpl in * ); simpl; first [reflexivity | lia | assumption].

Lemma pendingFor_mono w w' k s :
  (forall x, x ∈ timers w -> x ∈ timers w') ->
  (forall r, r ∈ Tts.pending (tts w) -> r ∈ Tts.pending (tts w')) ->
  pendingFor w k s -> pendingFor w' k s.
Proof.
  intros Ht Hr. destruct s; cbn [pendingFor]; try done.
  - intros (x & Hx & Ha). exists x. auto.
  - intros (r & Hx & Ha). exists r. auto.
  - intros (x & Hx & Ha). exists x. auto.
Qed.

Lemma kept_frame cp skip w w' :
  tasks w' = tasks w -> timers w' = timers w -> tts w' = tts w ->
  (nextId w <= nextId w')%nat ->
  kept cp skip w -> kept cp skip w'.
Proof.
  intros Ht Hx Hr Hn (H1 & H2 & H3 & H4 & H5 & H6 & H7). unfold kept.
  rewrite Ht, Hx, Hr.
  split; [done|]. split.
  { eapply Forall_impl; [exact H2|]. intros t Hlt. cbn in Hlt. lia. }
  split; [done|]. split.
  { eapply Forall_impl; [exact H4|]. intros t Hlt. cbn in Hlt. lia. }
  split; [done|]. split.
  { eapply Forall_impl; [exact H6|]. intros t [Hs|Hp]; [by left|right].
    eapply pendingFor_mono; [| |exact Hp]; intros ?; by rewrite ?Hx, ?Hr. }
  intros id Hid. destruct (H7 id Hid). split; [lia|done].
Qed.

Lemma kept_weaken cp skip skip' w :
  kept cp skip w ->
  (forall t, t ∈ tasks w -> skip (p_id t) (p_stage t) ->
             skip' (p_id t) (p_stage t) \/ pendingFor w (p_id t) (p_stage t)) ->
  kept cp skip' w.
Proof.
  intros (H1 & H2 & H3 & H4 & H5 & H6 & H7) Hw. unfold kept.
  do 5 (split; [done|]). split; [|done].
  apply Forall_forall. intros t Ht.
  destruct (proj1 (Forall_forall _ _) H6 t Ht) as [Hs|Hp]; [by apply Hw|by right].
Qed.

Lemma kept_setTimeout a d cp skip w :
  kept cp skip w -> kept cp skip (setTimeout a d w).
Proof.
  intros (H1 & H2 & H3 & H4 & H5 & H6 & H7). unfold kept, setTimeout.
  cbn [tasks timers tts nextId setNextId setTimers].
  split; [done|]. split.
  { eapply Forall_impl; [exact H2|]. intros t Hlt. cbn in Hlt. lia. }
  split.
  { rewrite fmap_app. apply NoDup_app. split; [done|]. split; [|apply NoDup_singleton].
    intros i Hi Hin. apply list_elem_of_singleton in Hin as ->.
    apply list_elem_of_fmap in Hi as (x & Hx & Hin).
    pose proof (proj1 (Forall_forall _ _) H4 x Hin) as Hlt. cbn in Hx, Hlt. lia. }
  split.
  { apply Forall_app. split.
    - eapply Forall_impl; [exact H4|]. intros t Hlt. cbn in Hlt. lia.
    - constructor; [cbn; lia|done]. }
  split; [done|]. split.
  { eapply Forall_impl; [exact H6|]. intros t [Hs|Hp]; [by left|right].
    eapply pendingFor_mono; [| |exact Hp]; cbn; [|done].
    intros x Hx. apply elem_of_app. by left. }
  intros id Hid. destruct (H7 id Hid) as [Hlt Hpre]. split; [lia|].
  apply Forall_app. split; [done|]. constructor; [|done]. cbn. intros Heq. lia.
Qed.

Lemma pending_setTimeout_image k d w :
  pendingFor (setTimeout (ImageTimeout k) d w) k AwaitImage.
Proof.
  cbn. eexists. split; [apply elem_of_app; right; apply list_elem_of_singleton; reflexivity|].
  reflexivity.
Qed.

Lemma pending_setTimeout_settle k d w :
  pendingFor (setTimeout (Settle k) d w) k AwaitSettle.
Proof.
  cbn. eexists. split; [apply elem_of_app; right; apply list_elem_of_singleton; reflexivity|].
  reflexivity.
Qed.

(** An update of the tasks numbered [k] that leaves identifiers alone. *)
Lemma kept_updTask cp skip skip' k (f : PrepTask -> PrepTask) w :
  (forall t, p_id (f t) = p_id t) ->
  (forall t, p_id t <> k -> skip (p_id t) (p_stage t) -> skip' (p_id t) (p_stage t)) ->
  (forall t, t ∈ tasks w -> p_id t = k ->
     skip' k (p_stage (f t)) \/ pendingFor w k (p_stage (f t))) ->
  kept cp skip w -> kept cp skip' (updTask k f w).
Proof.
  intros Hid Hskip Hk (H1 & H2 & H3 & H4 & H5 & H6 & H7). unfold kept, updTask.
  cbn [tasks timers tts nextId setTasks].
  assert (Hids : p_id <$> ((fun t => if Nat.eqb (p_id t) k then f t else t) <$> tasks w)
                 = p_id <$> tasks w).
  { rewrite <- list_fmap_compose. apply list_fmap_ext. intros i t _. cbn.
    destruct (Nat.eqb (p_id t) k); [apply Hid|done]. }
  rewrite Hids. split; [done|]. split.
  { apply Forall_fmap. eapply Forall_impl; [exact H2|]. intros t Hlt. cbn in *.
    destruct (Nat.eqb (p_id t) k); [by rewrite Hid|done]. }
  do 3 (split; [done|]). split; [|done].
  apply Forall_fmap. apply Forall_forall. intros t Ht. cbn.
  destruct (Nat.eqb_spec (p_id t) k) as [He|Hne].
  - rewrite Hid, He. by apply Hk.
  - destruct (proj1 (Forall_forall _ _) H6 t Ht) as [Hs|Hp]; [left; by apply Hskip|by right].
Qed.

Lemma findTask_Some k w t : findTask k w = Some t -> t ∈ tasks w /\ p_id t = k.
Proof.
  intros H. destruct (find_some _ _ H) as [Hin He].
  split; [by apply list_elem_of_In|by apply Nat.eqb_eq].
Qed.

Lemma findTask_None k w t : findTask k w = None -> t ∈ tasks w -> p_id t <> k.
Proof.
  intros H Hin He. apply list_elem_of_In in Hin.
  pose proof (find_none _ _ H t Hin) as Hf. cbn in Hf. rewrite He, Nat.eqb_refl in Hf.
  discriminate.
Qed.

(** With distinct identifiers the task found is the only one of its
    number. *)
Lemma findTask_only k w t t' :
  NoDup (p_id <$> tasks w) -> findTask k w = Some t -> t' ∈ tasks w -> p_id t' = k ->
  t' = t.
Proof.
  intros Hnd Hf Hin He. destruct (findTask_Some _ _ _ Hf) as [Hin0 He0].
  apply list_elem_of_lookup in Hin as [i Hi]. apply list_elem_of_lookup in Hin0 as [j Hj].
  assert (i = j).
  { eapply NoDup_lookup; [exact Hnd| |]; rewrite list_lookup_fmap.
    - by rewrite Hi.
    - rewrite Hj. cbn. by rewrite He, He0. }
  subst j. congruence.
Qed.

Lemma afterSpeech_kept cp k a w :
  kept cp (task k) w -> kept cp nobody (afterSpeech k a w).
Proof.
  intros Hk. unfold afterSpeech. destruct (findTask k w) as [t|] eqn:Ef.
  - destruct (isCancelled t).
    + eapply kept_updTask; [done| | |exact Hk].
      * intros t' Hne Hs. by destruct Hne.
      * intros t' _ _. by right.
    + apply (kept_weaken cp (task k)).
      * apply kept_setTimeout.
        eapply kept_updTask; [done| | |].
        -- intros t' Hne Hs. exact Hs.
        -- intros t' _ _. by left.
        -- eapply kept_frame; [| | | |exact Hk]; done.
      * intros t' Hin Hs. right. unfold task in Hs. rewrite Hs.
        assert (Hst : p_stage t' = AwaitSettle).
        { cbn [tasks setTimeout setNextId setTimers updTask setTasks] in Hin.
          apply list_elem_of_fmap in Hin as (t0 & -> & _).
          cbn in Hs. destruct (Nat.eqb_spec (p_id t0) k); [done|]. by destruct n. }
        rewrite Hst. apply pending_setTimeout_settle.
  - eapply kept_weaken; [exact Hk|]. intros t Hin Hs.
    by destruct (findTask_None _ _ _ Ef Hin).
Qed.

Lemma generate_kept cp skip text (c : Cont) w :
  kept cp skip w ->
  kept cp skip (setTts (Tts.generateGeminiTTS text c (tts w)).1 w)
  /\ match (Tts.generateGeminiTTS text c (tts w)).2 with
     | None => exists r, r ∈ Tts.pending (Tts.generateGeminiTTS text c (tts w)).1
                         /\ Tts.rq_cont r = c
     | Some (c', _) => c' = c
     end.
Proof.
  intros Hk.
  pose proof (step_requestsDistinct (Tts.Call text c) (tts w)) as Hd.
  cbn [Tts.step] in Hd.
  assert (Hsub : forall r, r ∈ Tts.pending (tts w) ->
                   r ∈ Tts.pending (Tts.generateGeminiTTS text c (tts w)).1).
  { intros r Hr. unfold Tts.generateGeminiTTS. repeat case_match; try done.
    cbn. apply elem_of_app. by left. }
  split.
  - destruct Hk as (H1 & H2 & H3 & H4 & H5 & H6 & H7). unfold kept.
    cbn [tasks timers tts nextId setTts].
    do 4 (split; [done|]). split; [by apply Hd|]. split; [|done].
    eapply Forall_impl; [exact H6|]. intros t [Hs|Hp]; [by left|right].
    eapply pendingFor_mono; [| |exact Hp]; [done|]. exact Hsub.
  - unfold Tts.generateGeminiTTS. destruct (bool_decide (text = "")); cbn [fst snd]; [done|].
    destruct (Tts.audioCache (tts w) !! trim text); cbn [fst snd]; [done|].
    cbn. eexists. split; [apply elem_of_app; right; apply list_elem_of_singleton; reflexivity|].
    reflexivity.
Qed.

Lemma setTts_same cp skip w : kept cp skip w -> kept cp skip (setTts (tts w) w).
Proof. apply kept_frame; done. Qed.

Lemma deliver_kept cp (d : option (Tts.Delivery Cont)) w :
  kept cp (match d with Some (PrepCont k, _) => task k | _ => nobody end) w ->
  kept cp nobody (deliver d w).
Proof.
  destruct d as [[[k|] a]|]; cbn [deliver]; try done. apply afterSpeech_kept.
Qed.

Lemma kept_task cp k w : kept cp nobody w -> kept cp (task k) w.
Proof. intros H. eapply kept_weaken; [exact H|]. intros t _ []. Qed.

Lemma afterImage_kept cp k w :
  kept cp (task k) w -> kept cp nobody (afterImage plan k w).
Proof.
  intros Hk. unfold afterImage. destruct (findTask k w) as [t|] eqn:Ef.
  - destruct (isMuted (p_render t)); [by apply afterSpeech_kept|].
    destruct (generate_kept cp (task k) (currentText plan (p_render t)) (PrepCont k) w Hk)
      as [Hg Hd].
    destruct (Tts.generateGeminiTTS (currentText plan (p_render t)) (PrepCont k) (tts w))
      as [st d]. cbn [fst snd] in Hg, Hd.
    assert (Hu : kept cp (task k) (updTask k (setStage AwaitSpeech) (setTts st w))).
    { eapply kept_updTask; [done| | |exact Hg].
      - intros t' _ Hs. exact Hs.
      - intros t' _ _. by left. }
    destruct d as [[c a]|].
    + subst c. by apply deliver_kept.
    + cbn [deliver]. eapply kept_weaken; [exact Hu|]. intros t' Hin Hs. right.
      unfold task in Hs. rewrite Hs.
      assert (Hst : p_stage t' = AwaitSpeech).
      { cbn [tasks updTask setTasks setTts] in Hin.
        apply list_elem_of_fmap in Hin as (t0 & -> & _).
        cbn in Hs. destruct (Nat.eqb_spec (p_id t0) k); [done|]. by destruct n. }
      rewrite Hst. exact Hd.
  - eapply kept_weaken; [exact Hk|]. intros t Hin Hs.
    by destruct (findTask_None _ _ _ Ef Hin).
Qed.

Lemma resolveImage_kept cp k w :
  kept cp (taskAt k AwaitImage) w -> kept cp nobody (resolveImage plan k w).
Proof.
  intros Hk. unfold resolveImage. destruct (findTask k w) as [t|] eqn:Ef.
  - destruct (p_stage t) eqn:Es.
    + apply afterImage_kept. eapply kept_weaken; [exact Hk|].
      intros t' _ [Hs _]. by left.
    + eapply kept_weaken; [exact Hk|]. intros t' Hin [Hi Hs].
      rewrite (findTask_only k w t t' (proj1 Hk) Ef Hin Hi) in Hs. congruence.
    + eapply kept_weaken; [exact Hk|]. intros t' Hin [Hi Hs].
      rewrite (findTask_only k w t t' (proj1 Hk) Ef Hin Hi) in Hs. congruence.
    + eapply kept_weaken; [exact Hk|]. intros t' Hin [Hi Hs].
      rewrite (findTask_only k w t t' (proj1 Hk) Ef Hin Hi) in Hs. congruence.
  - eapply kept_weaken; [exact Hk|]. intros t Hin [Hs _].
    by destruct (findTask_None _ _ _ Ef Hin).
Qed.

Lemma settle_kept cp skip k w :
  (forall k' s, skip k' s -> k' = k) ->
  kept cp skip w -> kept cp nobody (settle k w).
Proof.
  intros Hskip Hk. unfold settle. destruct (findTask k w) as [t|] eqn:Ef.
  - eapply (kept_updTask cp skip); [done| | |].
    + intros t' Hne Hs. destruct Hne. by apply (Hskip _ _ Hs).
    + intros t' _ _. by right.
    + destruct (isCancelled t); [exact Hk|]. eapply kept_frame; [| | | |exact Hk]; done.
  - eapply kept_weaken; [exact Hk|]. intros t Hin Hs.
    destruct (findTask_None _ _ _ Ef Hin). by apply (Hskip _ _ Hs).
Qed.

(** Clearing the timers numbered [id] excuses the tasks that waited for
    one of them. *)
Lemma kept_clear cp skip skip' id w :
  (forall k s, skip k s -> skip' k s) ->
  (forall t y, t ∈ tasks w -> y ∈ timers w -> t_id y = id ->
     (t_action y = ImageTimeout (p_id t) /\ p_stage t = AwaitImage)
     \/ (t_action y = Settle (p_id t) /\ p_stage t = AwaitSettle) ->
     skip' (p_id t) (p_stage t)) ->
  kept cp skip w -> kept cp skip' (clearTimeout id w).
Proof.
  intros Hskip Hex (H1 & H2 & H3 & H4 & H5 & H6 & H7). unfold kept, clearTimeout.
  cbn [tasks timers tts nextId setTimers].
  assert (Hin : forall y, y ∈ timers w -> t_id y <> id ->
            y ∈ List.filter (fun t => negb (Nat.eqb (t_id t) id)) (timers w)).
  { intros y Hy Hne. apply list_elem_of_In, filter_In. split; [by apply list_elem_of_In|].
    apply negb_true_iff, Nat.eqb_neq, Hne. }
  assert (Hsub : forall (P : Timer -> Prop), Forall P (timers w) ->
            Forall P (List.filter (fun t => negb (Nat.eqb (t_id t) id)) (timers w))).
  { intros P HP. apply Forall_forall. intros y Hy.
    apply list_elem_of_In, filter_In in Hy as [Hy _].
    apply (proj1 (Forall_forall _ _) HP). by apply list_elem_of_In. }
  do 2 (split; [done|]). split; [by apply NoDup_fmap_filter|].
  split; [by apply Hsub|]. split; [done|]. split.
  - apply Forall_forall. intros t Ht.
    destruct (proj1 (Forall_forall _ _) H6 t Ht) as [Hs|Hp]; [left; by apply Hskip|].
    destruct (p_stage t) eqn:Es; cbn [pendingFor] in *.
    + destruct Hp as (y & Hy & Ha). destruct (decide (t_id y = id)) as [He|Hne].
      * left. rewrite <- Es. apply (Hex t y Ht Hy He). left. by rewrite Es.
      * right. exists y. split; [by apply Hin|done].
    + by right.
    + destruct Hp as (y & Hy & Ha). destruct (decide (t_id y = id)) as [He|Hne].
      * left. rewrite <- Es. apply (Hex t y Ht Hy He). right. by rewrite Es.
      * right. exists y. split; [by apply Hin|done].
    + by right.
  - intros i Hi. destruct (H7 i Hi) as [Hlt Hpre]. split; [done|by apply Hsub].
Qed.

Lemma stopAudio_kept cp skip w : kept cp skip w -> kept cp skip (stopAudio w).
Proof. apply kept_frame; fieldeq. Qed.

Lemma fallback_kept cp skip c w :
  kept cp skip w -> kept cp skip (fallbackToWebSpeech c w).
Proof.
  intros Hk. unfold fallbackToWebSpeech. destruct (speech w).
  - eapply kept_frame; [| | | |exact Hk]; fieldeq.
  - by apply kept_setTimeout.
Qed.

Lemma startSource_kept cp skip data c w :
  kept cp skip w -> kept cp skip (startSource decodable data c w).
Proof.
  intros Hk. unfold startSource. destruct (decodable data).
  - eapply kept_frame; [| | | |exact Hk]; fieldeq.
  - by apply fallback_kept.
Qed.

Lemma playPCM_kept cp skip data c w :
  kept cp skip w -> kept cp skip (playPCM decodable data c w).
Proof.
  intros Hk. unfold playPCM. destruct (audioContext w) as [[|]|].
  - eapply kept_frame; [| | | |exact Hk]; fieldeq.
  - by apply startSource_kept.
  - by apply kept_setTimeout.
Qed.

Lemma effectA_kept cp skip u w : kept cp skip w -> kept cp skip (effectA plan u w).
Proof. apply kept_frame; fieldeq. Qed.

Lemma effectC_kept cp skip u w :
  kept cp skip w -> kept cp skip (effectC plan decodable u w).1.
Proof.
  intros Hk. unfold effectC. repeat case_match; cbn [fst]; try done.
  - by apply playPCM_kept, stopAudio_kept.
  - by apply fallback_kept, stopAudio_kept.
  - by apply kept_setTimeout, stopAudio_kept.
Qed.

Lemma effectB_kept cp u w :
  kept cp nobody w -> kept cp nobody (effectB plan u w).1.
Proof.
  intros Hk. unfold effectB. destruct (stepProp plan u) as [s|]; [|done].
  destruct (negb (isPreparing u) || isLiveSession u); [done|]. cbv zeta.
  set (new := {| p_id := nextId w; p_render := u; isCancelled := false;
                 p_stage := AwaitImage |}).
  set (w1 := setNextId _ _).
  assert (H1 : kept cp (taskAt (nextId w) AwaitImage) w1).
  { destruct Hk as (H1 & H2 & H3 & H4 & H5 & H6 & H7). subst w1. unfold kept.
    cbn [tasks timers tts nextId setNextId setTasks].
    split.
    { rewrite fmap_app. apply NoDup_app. split; [done|]. split; [|apply NoDup_singleton].
      intros i Hi Hin. apply list_elem_of_singleton in Hin. cbn in Hin. subst i.
      apply list_elem_of_fmap in Hi as (x & Hx & Hin).
      pose proof (proj1 (Forall_forall _ _) H2 x Hin) as Hlt. cbn in Hlt. lia. }
    split.
    { apply Forall_app. split.
      - eapply Forall_impl; [exact H2|]. intros t Hlt. cbn in Hlt. lia.
      - constructor; [cbn; lia|done]. }
    split; [done|]. split.
    { eapply Forall_impl; [exact H4|]. intros t Hlt. cbn in Hlt. lia. }
    split; [done|]. split.
    { apply Forall_app. split.
      - eapply Forall_impl; [exact H6|]. intros t [[]|Hp]. right.
        eapply pendingFor_mono; [| |exact Hp]; done.
      - constructor; [|done]. left. by split. }
    intros id Hid. destruct (H7 id Hid). split; [lia|done]. }
  clearbody w1. destruct (negb (is3DMode u) && truthy (imageUrl s)); cbn [fst].
  - eapply kept_weaken; [apply kept_setTimeout, H1|].
    intros t _ [Hi Hs]. right. rewrite Hi, Hs. apply pending_setTimeout_image.
  - apply afterImage_kept. eapply kept_weaken; [exact H1|]. intros t _ [Hi _]. by left.
Qed.

Lemma kept_forget cp skip w : kept cp skip w -> kept None skip w.
Proof.
  intros (H1 & H2 & H3 & H4 & H5 & H6 & H7). unfold kept. do 6 (split; [done|]). done.
Qed.

Lemma effectP_kept cp u w :
  kept cp nobody w -> kept (effectP plan u w).2 nobody (effectP plan u w).1.
Proof.
  intros Hk. unfold effectP. destruct (totalSteps plan - 1 <=? currentStepIndex u)%Z;
    [by apply (kept_forget cp)|].
  destruct (stepAt plan (currentStepIndex u + 1)) as [nextStep|]; [|by apply (kept_forget cp)].
  cbn [fst snd].
  pose proof (kept_setTimeout (Prefetch (narrationFor (audioLanguage u) nextStep)) 4000
                None nobody w (kept_forget _ _ _ Hk)) as (H1 & H2 & H3 & H4 & H5 & H6 & _).
  unfold kept. do 6 (split; [done|]). intros id [= <-]. split; [cbn; lia|].
  cbn [timers setTimeout setNextId setTimers]. apply Forall_app. split.
  - destruct Hk as (_ & _ & _ & Hlt & _). eapply Forall_impl; [exact Hlt|].
    intros x Hx He. cbn in Hx. lia.
  - constructor; [|done]. intros _. by eexists.
Qed.

Lemma runCleanupB_kept cp skip c w : kept cp skip w -> kept cp skip (runCleanupB c w).
Proof.
  intros Hk. destruct c as [k|]; [|done]. cbn [runCleanupB].
  eapply kept_updTask; [done| | |exact Hk].
  - intros t _ Hs. exact Hs.
  - intros t Ht He. cbn [p_stage cancel]. rewrite <- He.
    destruct Hk as (_ & _ & _ & _ & _ & H6 & _).
    exact (proj1 (Forall_forall _ _) H6 t Ht).
Qed.

Lemma runCleanupC_kept cp skip c w : kept cp skip w -> kept cp skip (runCleanupC c w).
Proof. destruct c; [apply stopAudio_kept|done]. Qed.

Lemma runCleanupP_kept skip c w : kept c skip w -> kept c skip (runCleanupP c w).
Proof.
  intros Hk. destruct c as [id|]; [|done]. cbn [runCleanupP].
  eapply kept_clear; [|..|exact Hk]; [done|].
  intros t y _ Hy He Hact. exfalso.
  destruct Hk as (_ & _ & _ & _ & _ & _ & H7). destruct (H7 id eq_refl) as [_ Hpre].
  destruct (proj1 (Forall_forall _ _) Hpre y Hy He) as [text Htext].
  destruct Hact as [[Ha _]|[Ha _]]; congruence.
Qed.

Lemma setEffects_kept cp skip fx w : kept cp skip w -> kept cp skip (setEffects fx w).
Proof. apply kept_frame; done. Qed.

Lemma render_kept w :
  kept (cleanupP (effects w)) nobody w ->
  kept (cleanupP (effects (render plan decodable w))) nobody (render plan decodable w).
Proof.
  intros Hk. unfold render. cbv zeta.
  set (u := ui w) in *. set (fx := effects w) in *.
  set (chA := bool_decide (depsA fx ≠ _)). set (chB := bool_decide (depsB fx ≠ _)).
  set (chC := bool_decide (depsC fx ≠ _)). set (chD := bool_decide (depsD fx ≠ _)).
  set (chP := bool_decide (depsP fx ≠ _)).
  clearbody u.
  set (w1 := if chB then _ else w).
  assert (H1 : kept (cleanupP fx) nobody w1).
  { subst w1. destruct chB; [by apply runCleanupB_kept|done]. }
  clearbody w1.
  set (w2 := if chC then _ else w1).
  assert (H2 : kept (cleanupP fx) nobody w2).
  { subst w2. destruct chC; [by apply runCleanupC_kept|done]. }
  clearbody w2.
  set (w3 := if chP then _ else w2).
  assert (H3 : kept (cleanupP fx) nobody w3).
  { subst w3. destruct chP; [by apply runCleanupP_kept|done]. }
  clearbody w3.
  set (w4 := if chA then _ else w3).
  assert (H4 : kept (cleanupP fx) nobody w4).
  { subst w4. destruct chA; [by apply effectA_kept|done]. }
  clearbody w4.
  set (rB := if chB then _ else (w4, _)).
  assert (HB : kept (cleanupP fx) nobody rB.1).
  { subst rB. destruct chB; [by apply effectB_kept|done]. }
  clearbody rB.
  set (rC := if chC then _ else (rB.1, _)).
  assert (HC : kept (cleanupP fx) nobody rC.1).
  { subst rC. destruct chC; [by apply effectC_kept|done]. }
  clearbody rC.
  set (w5 := if chD then _ else rC.1).
  assert (H5 : kept (cleanupP fx) nobody w5).
  { subst w5. destruct chD; [|done]. eapply kept_frame; [| | | |exact HC]; done. }
  clearbody w5.
  set (rP := if chP then _ else (w5, _)).
  assert (HP : kept rP.2 nobody rP.1).
  { subst rP. destruct chP; [exact (effectP_kept _ _ _ H5)|exact H5]. }
  clearbody rP. cbn [effects setEffects cleanupP]. by apply setEffects_kept.
Qed.

Lemma commit_kept n w :
  kept (cleanupP (effects w)) nobody w ->
  kept (cleanupP (effects (commit plan decodable n w))) nobody (commit plan decodable n w).
Proof.
  revert w. induction n as [|n IH]; intros w Hk; [done|]. rewrite commit_unfold.
  case_bool_decide; [by apply render_kept|]. by apply IH, render_kept.
Qed.

Lemma earliest_elem ts x : earliest ts = Some x -> x ∈ ts.
Proof.
  destruct ts as [|t r]; [done|]. cbn [earliest]. intros [= <-].
  assert (H : forall best, fold_left (fun best x =>
              if Qle_bool (t_due best) (t_due x) then best else x) r best ∈ best :: r).
  { induction r as [|y r IH]; intros best; cbn [fold_left]; [by left|].
    destruct (Qle_bool (t_due best) (t_due y)).
    - specialize (IH best). apply elem_of_cons in IH as [->|IH]; [by left|].
      by do 2 right.
    - right. apply IH. }
  apply H.
Qed.

Lemma timer_only w x y :
  NoDup (t_id <$> timers w) -> x ∈ timers w -> y ∈ timers w -> t_id y = t_id x -> y = x.
Proof.
  intros Hnd Hx Hy He.
  apply list_elem_of_lookup in Hx as [i Hi]. apply list_elem_of_lookup in Hy as [j Hj].
  assert (i = j).
  { eapply NoDup_lookup; [exact Hnd| |]; rewrite list_lookup_fmap.
    - by rewrite Hi.
    - rewrite Hj. cbn. by rewrite He. }
  subst j. congruence.
Qed.

Lemma grace_kept cp skip c w : kept cp skip w -> kept cp skip (grace plan c w).
Proof. apply kept_frame; fieldeq. Qed.

Lemma fire_kept cp x w :
  x ∈ timers w -> kept cp nobody w -> kept cp nobody (fire plan x w).
Proof.
  intros Hx Hk. unfold fire. cbv zeta.
  set (w0 := setNow _ w).
  assert (H0 : kept cp nobody w0) by (eapply kept_frame; [| | | |exact Hk]; done).
  assert (Hx0 : x ∈ timers w0) by exact Hx.
  clearbody w0. clear Hk Hx.
  assert (Hclear : forall skip',
            (forall t, t ∈ tasks w0 ->
               (t_action x = ImageTimeout (p_id t) /\ p_stage t = AwaitImage)
               \/ (t_action x = Settle (p_id t) /\ p_stage t = AwaitSettle) ->
               skip' (p_id t) (p_stage t)) ->
            kept cp skip' (clearTimeout (t_id x) w0)).
  { intros skip' Hs. eapply kept_clear; [| |exact H0]; [by intros ? ? []|].
    intros t y Ht Hy He Hact. apply Hs; [exact Ht|].
    destruct H0 as (_ & _ & Hnd & _).
    by rewrite <- (timer_only w0 x y Hnd Hx0 Hy He). }
  destruct (t_action x) as [k|k|c|c|text] eqn:Ea.
  - apply resolveImage_kept, Hclear. intros t _ [[[= ->] Hs]|[[=] _]]. by split.
  - apply (settle_kept cp (task k)); [by intros ? ? ->|]. apply Hclear.
    intros t _ [[[=] _]|[[= ->] Hs]]. done.
  - apply kept_setTimeout, Hclear. by intros t _ [[[=] _]|[[=] _]].
  - apply grace_kept, Hclear. by intros t _ [[[=] _]|[[=] _]].
  - assert (H1 : kept cp nobody (clearTimeout (t_id x) w0)).
    { apply Hclear. by intros t _ [[[=] _]|[[=] _]]. }
    set (w1 := clearTimeout (t_id x) w0) in *. clearbody w1.
    destruct (generate_kept cp nobody text PrefetchCont w1 H1) as [Hg Hd].
    destruct (Tts.generateGeminiTTS text PrefetchCont (tts w1)) as [st d].
    cbn [fst snd] in Hg, Hd. destruct d as [[c a]|]; [subst c|]; exact Hg.
Qed.

Lemma reply_kept cp id res w :
  kept cp nobody w ->
  kept cp (match (Tts.gatewayReply id res (tts w)).2 with
           | Some (PrepCont k, _) => task k
           | _ => nobody
           end)
    (setTts (Tts.gatewayReply id res (tts w)).1 w).
Proof.
  intros Hk.
  pose proof (step_requestsDistinct (Tts.Reply id res) (tts w)) as Hd.
  cbn [Tts.step] in Hd.
  destruct (Tts.findRequest id (tts w)) as [r|] eqn:Ef.
  - destruct (gatewayReply_delivers id res (tts w) r Ef) as [a Ha]. rewrite Ha.
    assert (Hp : Tts.pending (Tts.gatewayReply id res (tts w)).1
                 = Tts.dropRequest id (tts w)).
    { unfold Tts.gatewayReply. rewrite Ef. by repeat case_match. }
    destruct Hk as (H1 & H2 & H3 & H4 & H5 & H6 & H7). unfold kept.
    cbn [tasks timers tts nextId setTts].
    do 4 (split; [done|]). split; [by apply Hd|]. split; [|done].
    apply Forall_forall. intros t Ht.
    destruct (proj1 (Forall_forall _ _) H6 t Ht) as [[]|Hpend].
    destruct (p_stage t) eqn:Es; cbn [pendingFor] in *; try by right.
    destruct Hpend as (r' & Hr' & Hc).
    destruct (decide (Tts.rq_id r' = id)) as [He|Hne].
    + left. assert (r' = r).
      { destruct (find_some _ _ Ef) as [Hin Hid]. apply Nat.eqb_eq in Hid.
        apply list_elem_of_In in Hin.
        destruct H5 as [Hnd _].
        apply list_elem_of_lookup in Hr' as [i Hi].
        apply list_elem_of_lookup in Hin as [j Hj].
        assert (i = j).
        { eapply NoDup_lookup; [exact Hnd| |]; rewrite list_lookup_fmap.
          - by rewrite Hi.
          - rewrite Hj. cbn. by rewrite He, Hid. }
        subst j. congruence. }
      subst r'. rewrite Hc. reflexivity.
    + right. exists r'. split; [|done]. cbn [tts setTts]. rewrite Hp. unfold Tts.dropRequest.
      apply list_elem_of_In, filter_In. split; [by apply list_elem_of_In|].
      apply negb_true_iff, Nat.eqb_neq, Hne.
  - unfold Tts.gatewayReply. rewrite Ef. cbn [fst snd]. by apply setTts_same.
Qed.

Lemma resumeAll_kept cp skip (ps : list PcmTask) w :
  kept cp skip w ->
  kept cp skip
    (fold_left (fun w' p => startSource decodable (pcm_data p) (pcm_render p) w') ps w).
Proof.
  revert w. induction ps as [|p ps IH]; intros w Hk; cbn [fold_left]; [done|].
  by apply IH, startSource_kept.
Qed.

Lemma handle_kept cp e w :
  kept cp nobody w -> kept cp nobody (handle plan decodable e w).
Proof.
  intros Hk.
  assert (Hui : forall f, kept cp nobody (updUi f w))
    by (intros f; eapply kept_frame; [| | | |exact Hk]; done).
  destruct e; unfold handle; cbv zeta.
  - case_match; [apply Hui|done].
  - case_match; [apply Hui|done].
  - case_match; [apply Hui|done].
  - case_match; [apply Hui|done].
  - case_match; [apply Hui|done].
  - case_match; [|done]. unfold toggleLiveSession. case_match; [apply Hui|].
    eapply kept_frame; [| | | |exact Hk]; fieldeq.
  - apply Hui.
  - case_match; [done|]. eapply kept_frame; [| | | |exact Hk]; done.
  - destruct (followUp w) as [c|]; [|done]. unfold answerFollowUp.
    eapply kept_frame; [| | | |exact Hk]; fieldeq.
  - case_match; [|done]. eapply kept_frame; [| | | |exact Hk]; done.
  - destruct (earliest (timers w)) as [x|] eqn:Ee; [|done].
    apply fire_kept; [by apply earliest_elem|done].
  - case_match; [|done]. eapply kept_frame; [| | | |exact Hk]; done.
  - apply resolveImage_kept. eapply kept_weaken; [exact Hk|]. by intros t _ [].
  - pose proof (reply_kept cp id res w Hk) as Hr.
    destruct (Tts.gatewayReply id res (tts w)) as [st d]. cbn [fst snd] in Hr.
    by apply deliver_kept.
  - destruct (audioContext w) as [[|]|]; try done.
    destruct (resuming w) as [|p ps] eqn:E; [done|]. rewrite <- E.
    apply resumeAll_kept. eapply kept_frame; [| | | |exact Hk]; done.
  - destruct (List.find _ (handles w)) as [h|]; [|done].
    set (w1 := setHandles _ w).
    assert (H1 : kept cp nobody w1) by (eapply kept_frame; [| | | |exact Hk]; done).
    clearbody w1. destruct (h_onEnded h); [by apply kept_setTimeout|done].
Qed.

Lemma react_kept e w :
  kept (cleanupP (effects w)) nobody w ->
  kept (cleanupP (effects (react plan decodable e w))) nobody (react plan decodable e w).
Proof.
  intros Hk. pose proof (handle_kept _ e w Hk) as Hh.
  rewrite <- (handle_effects plan decodable e w) in Hh.
  unfold react. case_bool_decide; [exact Hh|]. by apply commit_kept.
Qed.

(** *** Tasks that ran to their end *)

Lemma noneFinished_refl w : noneFinished w w.
Proof. by intros t Ht _ _. Qed.

Lemma noneFinished_trans w1 w2 w3 :
  noneFinished w1 w2 -> noneFinished w2 w3 -> noneFinished w1 w3.
Proof. intros H12 H23 t Ht Hs Hc. apply H12; [|done|done]. by apply H23. Qed.

Lemma noneFinished_frame w w' : tasks w' = tasks w -> noneFinished w w'.
Proof. intros He t Ht _ _. by rewrite <- He. Qed.

Lemma updTask_ids k (f : PrepTask -> PrepTask) w :
  (forall t, p_id (f t) = p_id t) ->
  p_id <$> tasks (updTask k f w) = p_id <$> tasks w.
Proof.
  intros Hid. unfold updTask. cbn [tasks setTasks].
  rewrite <- list_fmap_compose. apply list_fmap_ext. intros i t _. cbn.
  destruct (Nat.eqb (p_id t) k); [apply Hid|done].
Qed.

(** Moving the tasks numbered [k] to a stage other than the last. *)
Lemma updTask_noneFinished k s w :
  s <> Finished -> noneFinished w (updTask k (setStage s) w).
Proof.
  intros Hs t Ht Hf Hc. cbn [tasks updTask setTasks] in Ht.
  apply list_elem_of_fmap in Ht as (t0 & -> & Ht0).
  destruct (Nat.eqb (p_id t0) k); [by destruct Hs|done].
Qed.

(** Ending the tasks numbered [k] when the one found is cancelled. *)
Lemma updTask_cancelled_noneFinished k w t :
  NoDup (p_id <$> tasks w) -> findTask k w = Some t -> isCancelled t = true ->
  noneFinished w (updTask k (setStage Finished) w).
Proof.
  intros Hnd Hf Hcan t' Ht' _ Hc. cbn [tasks updTask setTasks] in Ht'.
  apply list_elem_of_fmap in Ht' as (t0 & -> & Ht0).
  destruct (Nat.eqb_spec (p_id t0) k) as [He|Hne]; [|done].
  rewrite (findTask_only k w t t0 Hnd Hf Ht0 He) in Hc. cbn in Hc. congruence.
Qed.

Lemma afterSpeech_noneFinished k a w :
  NoDup (p_id <$> tasks w) -> noneFinished w (afterSpeech k a w).
Proof.
  intros Hnd. unfold afterSpeech. destruct (findTask k w) as [t|] eqn:Ef;
    [|apply noneFinished_refl].
  destruct (isCancelled t) eqn:Ec.
  - by eapply updTask_cancelled_noneFinished.
  - intros t' Ht' Hs Hc.
    apply (updTask_noneFinished k AwaitSettle (updUi (setReadyAudio a) w)); done.
Qed.

Lemma deliver_noneFinished d w :
  NoDup (p_id <$> tasks w) -> noneFinished w (deliver d w).
Proof.
  intros Hnd. destruct d as [[[k|] a]|]; cbn [deliver]; try apply noneFinished_refl.
  by apply afterSpeech_noneFinished.
Qed.

Lemma afterImage_noneFinished k w :
  NoDup (p_id <$> tasks w) -> noneFinished w (afterImage plan k w).
Proof.
  intros Hnd. unfold afterImage. destruct (findTask k w) as [t|] eqn:Ef;
    [|apply noneFinished_refl].
  destruct (isMuted (p_render t)); [by apply afterSpeech_noneFinished|].
  destruct (Tts.generateGeminiTTS _ _ _) as [st d].
  eapply noneFinished_trans; [|apply deliver_noneFinished].
  - apply (updTask_noneFinished k AwaitSpeech (setTts st w)). done.
  - by rewrite updTask_ids.
Qed.

Lemma resolveImage_noneFinished k w :
  NoDup (p_id <$> tasks w) -> noneFinished w (resolveImage plan k w).
Proof.
  intros Hnd. unfold resolveImage. destruct (findTask k w) as [t|];
    [|apply noneFinished_refl].
  destruct (p_stage t); try apply noneFinished_refl. by apply afterImage_noneFinished.
Qed.

Lemma finishedQuiet_step w w' :
  noneFinished w w' -> (isPreparing (ui w') = true -> isPreparing (ui w) = true) ->
  finishedQuiet w -> finishedQuiet w'.
Proof.
  intros Hn Hp Hf. apply Forall_forall. intros t Ht Hs Hc.
  pose proof (proj1 (Forall_forall _ _) Hf t (Hn t Ht Hs Hc) Hs Hc) as Hq.
  destruct (isPreparing (ui w')); [|done]. rewrite Hp in Hq; done.
Qed.

Lemma settle_finishedQuiet k w :
  NoDup (p_id <$> tasks w) -> finishedQuiet w -> finishedQuiet (settle k w).
Proof.
  intros Hnd Hf. unfold settle. destruct (findTask k w) as [t|] eqn:Ef; [|done].
  destruct (isCancelled t) eqn:Ec.
  - apply (finishedQuiet_step w); [|done|exact Hf].
    by eapply updTask_cancelled_noneFinished.
  - apply Forall_forall. by intros t' _ _ _.
Qed.

Lemma afterSpeech_isPreparing k a w :
  isPreparing (ui (afterSpeech k a w)) = isPreparing (ui w).
Proof. fieldeq. Qed.

Lemma deliver_isPreparing d w : isPreparing (ui (deliver d w)) = isPreparing (ui w).
Proof. destruct d as [[[k|] a]|]; cbn [deliver]; try done. apply afterSpeech_isPreparing. Qed.

Lemma afterImage_isPreparing k w :
  isPreparing (ui (afterImage plan k w)) = isPreparing (ui w).
Proof.
  unfold afterImage. destruct (findTask k w) as [t|]; [|done].
  destruct (isMuted (p_render t)); [apply afterSpeech_isPreparing|].
  destruct (Tts.generateGeminiTTS _ _ _) as [st d]. by rewrite deliver_isPreparing.
Qed.

Lemma resolveImage_isPreparing k w :
  isPreparing (ui (resolveImage plan k w)) = isPreparing (ui w).
Proof.
  unfold resolveImage. destruct (findTask k w) as [t|]; [|done].
  destruct (p_stage t); try done. apply afterImage_isPreparing.
Qed.

Lemma fire_finishedQuiet x w :
  NoDup (p_id <$> tasks w) -> finishedQuiet w -> finishedQuiet (fire plan x w).
Proof.
  intros Hnd Hf. unfold fire. cbv zeta.
  set (w1 := clearTimeout _ _).
  assert (Hnd1 : NoDup (p_id <$> tasks w1)) by exact Hnd.
  assert (Hf1 : finishedQuiet w1) by exact Hf.
  clearbody w1. destruct (t_action x) as [k|k|c|c|text].
  - apply (finishedQuiet_step w1); [by apply resolveImage_noneFinished| |exact Hf1].
    by rewrite resolveImage_isPreparing.
  - by apply settle_finishedQuiet.
  - exact Hf1.
  - apply (finishedQuiet_step w1); [apply noneFinished_frame| |exact Hf1]; fieldeq.
  - destruct (Tts.generateGeminiTTS _ _ _) as [st d].
    apply (finishedQuiet_step w1); [| |exact Hf1].
    + by apply (deliver_noneFinished d (setTts st w1)).
    + by rewrite deliver_isPreparing.
Qed.

Lemma handle_finishedQuiet e w :
  NoDup (p_id <$> tasks w) -> finishedQuiet w -> finishedQuiet (handle plan decodable e w).
Proof.
  intros Hnd Hf.
  assert (Hsame : forall w', tasks w' = tasks w -> isPreparing (ui w') = isPreparing (ui w) ->
                    finishedQuiet w').
  { intros w' Ht Hp. apply (finishedQuiet_step w); [by apply noneFinished_frame| |exact Hf].
    by rewrite Hp. }
  destruct e; unfold handle; cbv zeta.
  - case_match; [by apply Hsame|done].
  - case_match; [by apply Hsame|done].
  - case_match; [by apply Hsame|done].
  - case_match; [by apply Hsame|done].
  - case_match; [by apply Hsame|done].
  - case_match; [|done]. unfold toggleLiveSession. case_match; [by apply Hsame|].
    apply Hsame; fieldeq.
  - by apply Hsame.
  - case_match; [done|]. by apply Hsame.
  - destruct (followUp w) as [c|]; [|done]. unfold answerFollowUp.
    apply Hsame; fieldeq.
  - case_match; [|done]. by apply Hsame.
  - destruct (earliest (timers w)) as [x|]; [|done]. by apply fire_finishedQuiet.
  - case_match; [|done]. by apply Hsame.
  - apply (finishedQuiet_step w); [by apply resolveImage_noneFinished| |exact Hf].
    by rewrite resolveImage_isPreparing.
  - destruct (Tts.gatewayReply id res (tts w)) as [st d].
    apply (finishedQuiet_step w); [| |exact Hf].
    + by apply (deliver_noneFinished d (setTts st w)).
    + by rewrite deliver_isPreparing.
  - destruct (audioContext w) as [[|]|]; try done.
    destruct (resuming w) as [|p ps] eqn:E; [done|]. rewrite <- E.
    destruct (resumeAll_frame decodable (resuming w)
                (setResuming [] (setAudioContext (Some running) w))) as (Hu & Ht & _ & _).
    apply Hsame; [by rewrite Ht|by rewrite Hu].
  - destruct (List.find _ (handles w)) as [h|]; [|done].
    destruct (h_onEnded h); by apply Hsame.
Qed.

(** *** The bookkeeping of the prepare effect *)

Lemma stageOnly_render (P : Ui -> Prop) l l' :
  stageOnly l l' ->
  Forall (fun t => P (p_render t)) l -> Forall (fun t => P (p_render t)) l'.
Proof.
  induction 1 as [|t t' l l' (_ & Hr & _) _ IH]; intros H; [done|].
  apply Forall_cons in H as [Ht Hl]. constructor; [by rewrite Hr|by apply IH].
Qed.

Lemma stageOnly_elem l l' t :
  stageOnly l l' -> t ∈ l -> exists t', t' ∈ l' /\ sameTask t t'.
Proof.
  intros Hs Ht. apply list_elem_of_lookup in Ht as [i Hi].
  destruct (Forall2_lookup_l _ _ _ _ _ Hs Hi) as (t' & Hi' & Hsame).
  exists t'. split; [by eapply list_elem_of_lookup_2|done].
Qed.

Lemma handle_fromPreparing e w :
  fromPreparing w -> fromPreparing (handle plan decodable e w).
Proof. apply (stageOnly_render (fun u => isPreparing u = true)), handle_tasks. Qed.

Lemma cancel_fromPreparing c w : fromPreparing w -> fromPreparing (runCleanupB c w).
Proof.
  intros H. destruct c as [k|]; [|done]. unfold fromPreparing. cbn.
  apply Forall_fmap. eapply Forall_impl; [exact H|]. intros t Ht. cbn.
  by destruct (Nat.eqb (p_id t) k).
Qed.

Lemma render_fromPreparing w :
  fromPreparing w -> fromPreparing (render plan decodable w).
Proof.
  intros H. destruct (render_tasks plan decodable w) as (wB & HwB & Ht & _).
  unfold fromPreparing. rewrite Ht. clear Ht.
  assert (HB : fromPreparing wB).
  { unfold fromPreparing. rewrite HwB. case_match; [by apply cancel_fromPreparing|done]. }
  case_match; cbn [fst]; [|exact HB].
  destruct (effectB_tasks plan (ui w) wB) as [[_ Hsame]|(k & _ & _ & Hp & _ & Hst)].
  - by rewrite Hsame.
  - eapply (stageOnly_render (fun u => isPreparing u = true)); [exact Hst|].
    apply Forall_app. split; [exact HB|]. by repeat constructor.
Qed.

Lemma handle_currentTask e w :
  currentTask plan w -> currentTask plan (handle plan decodable e w).
Proof.
  intros H u0. rewrite handle_effects. intros Hd Hp Hs Hl.
  destruct (H u0 Hd Hp Hs Hl) as (t & Ht & Hc & Hn).
  destruct (stageOnly_elem _ _ t (handle_tasks plan decodable e w) Ht)
    as (t' & Ht' & Hi & _ & Hcan).
  exists t'. split; [done|]. by rewrite Hi, Hcan.
Qed.

Lemma effectB_guard u w :
  (effectB plan u w).2 = None ->
  isPreparing u = false \/ stepProp plan u = None \/ isLiveSession u = true.
Proof.
  unfold effectB. destruct (stepProp plan u); [|by right; left].
  destruct (isPreparing u); [|by left]. destruct (isLiveSession u); [by right; right|].
  cbn. discriminate.
Qed.

Lemma depsBof_guard u u0 :
  depsBof plan u0 = depsBof plan u ->
  isPreparing u0 = isPreparing u /\ isLiveSession u0 = isLiveSession u
  /\ (stepProp plan u0 = None <-> stepProp plan u = None).
Proof.
  unfold depsBof, stepKey. intros H. injection H as Hp Hk _ _ _ Hl.
  split; [done|]. split; [done|].
  destruct (stepProp plan u0), (stepProp plan u); done.
Qed.

Lemma render_currentTask w :
  currentTask plan w -> currentTask plan (render plan decodable w).
Proof.
  intros H. destruct (render_tasks plan decodable w) as (wB & HwB & Ht & Hc & Hd).
  intros u0. rewrite Ht, Hc, Hd. intros Hu' Hp Hs Hl.
  assert (Hu : depsBof plan (ui w) = depsBof plan u0) by (by apply (inj Some)).
  destruct (depsBof_guard _ _ (eq_sym Hu)) as (Hp' & Hl' & Hs').
  destruct (bool_decide (depsB (effects w) ≠ Some (depsBof plan (ui w)))) eqn:Hch.
  - destruct (effectB_tasks plan (ui w) wB) as [[Hn _]|(k & Hk & _ & _ & _ & Hst)].
    + exfalso. destruct (effectB_guard _ _ Hn) as [Hx|[Hx|Hx]].
      * congruence.
      * apply Hs. by apply Hs'.
      * congruence.
    + apply Forall2_app_inv_l in Hst as (l1 & l2 & _ & Hlast & Heq).
      apply Forall2_cons_inv_l in Hlast as (t' & l3 & (Hi & _ & Hcan) & _ & ->).
      exists t'. split.
      * rewrite Heq. apply elem_of_app. right. by left.
      * cbn in Hi, Hcan. by rewrite Hk, Hi, Hcan.
  - apply bool_decide_eq_false in Hch. cbn [fst snd]. rewrite HwB.
    apply (H u0); try done. rewrite <- Hu. by apply dec_stable.
Qed.

Lemma effectB_noneFinished cp u w :
  kept cp nobody w -> noneFinished w (effectB plan u w).1.
Proof.
  intros Hk. unfold effectB. destruct (stepProp plan u) as [s|]; [|apply noneFinished_refl].
  destruct (negb (isPreparing u) || isLiveSession u); [apply noneFinished_refl|]. cbv zeta.
  set (new := {| p_id := nextId w; p_render := u; isCancelled := false;
                 p_stage := AwaitImage |}).
  set (w1 := setNextId _ _).
  assert (H1 : noneFinished w w1).
  { intros t Ht Hs _. cbn in Ht. apply elem_of_app in Ht as [Ht|Ht]; [done|].
    apply list_elem_of_singleton in Ht. subst t. discriminate. }
  assert (Hnd : NoDup (p_id <$> tasks w1)).
  { destruct Hk as (Hnd & Hlt & _). subst w1. cbn [tasks setNextId setTasks].
    rewrite fmap_app. apply NoDup_app. split; [done|]. split; [|apply NoDup_singleton].
    intros i Hi Hin. apply list_elem_of_singleton in Hin. cbn in Hin. subst i.
    apply list_elem_of_fmap in Hi as (x & Hx & Hin).
    pose proof (proj1 (Forall_forall _ _) Hlt x Hin) as Hlt'. cbn in Hlt'. lia. }
  clearbody w1. destruct (negb (is3DMode u) && truthy (imageUrl s)); cbn [fst].
  - exact H1.
  - eapply noneFinished_trans; [exact H1|]. by apply afterImage_noneFinished.
Qed.

(** After a render no task has run to its end without being cancelled. *)
Lemma render_finishedQuiet w :
  tasksOk plan w -> fromPreparing w -> kept (cleanupP (effects w)) nobody w ->
  finishedQuiet w -> finishedQuiet (render plan decodable w).
Proof.
  intros Hok Hfrom Hk Hf.
  assert (Hnone : Forall (fun t => p_stage t = Finished -> isCancelled t = true)
                    (tasks (render plan decodable w))).
  { unfold render. cbv zeta.
    pose proof (runCleanupB_cancels plan w Hok) as [_ Hcan].
    set (u := ui w) in *. set (fx := effects w) in *.
    set (chA := bool_decide (depsA fx ≠ _)). set (chB := bool_decide (depsB fx ≠ _)).
    set (chC := bool_decide (depsC fx ≠ _)). set (chD := bool_decide (depsD fx ≠ _)).
    set (chP := bool_decide (depsP fx ≠ _)).
    set (w1 := if chB then _ else w).
    assert (H1 : kept (cleanupP fx) nobody w1
                 /\ Forall (fun t => p_stage t = Finished -> isCancelled t = true) (tasks w1)).
    { subst w1. destruct chB eqn:Hch.
      - split; [by apply runCleanupB_kept|].
        eapply Forall_impl; [exact Hcan|]. by intros t Ht _.
      - split; [done|]. apply bool_decide_eq_false in Hch.
        assert (Hd : depsB fx = Some (depsBof plan u)) by (by apply dec_stable).
        apply Forall_forall. intros t Ht Hs.
        destruct (isCancelled t) eqn:Ec; [done|]. exfalso.
        pose proof (proj1 (Forall_forall _ _) Hf t Ht Hs Ec) as Hq.
        pose proof (proj1 (Forall_forall _ _) Hfrom t Ht) as Hp.
        destruct (proj1 (Forall_forall _ _) Hok t Ht) as [_ Hcur].
        destruct (Hcur Ec) as [_ Hdeps]. fold fx in Hdeps. rewrite Hd in Hdeps.
        apply (inj Some) in Hdeps.
        destruct (depsBof_guard _ _ (eq_sym Hdeps)) as (Hp' & _). fold u in Hq. congruence. }
    clearbody w1. clear Hcan.
    set (w2 := if chC then _ else w1).
    assert (H2 : kept (cleanupP fx) nobody w2
                 /\ Forall (fun t => p_stage t = Finished -> isCancelled t = true) (tasks w2)).
    { subst w2. destruct H1 as [H1 H1']. destruct chC; [|done].
      split; [by apply runCleanupC_kept|]. by rewrite runCleanupC_tasks. }
    clearbody w2.
    set (w3 := if chP then _ else w2).
    assert (H3 : kept (cleanupP fx) nobody w3
                 /\ Forall (fun t => p_stage t = Finished -> isCancelled t = true) (tasks w3)).
    { subst w3. destruct H2 as [H2 H2']. destruct chP; [|done].
      split; [by apply runCleanupP_kept|]. by rewrite runCleanupP_tasks. }
    clearbody w3.
    set (w4 := if chA then _ else w3).
    assert (H4 : kept (cleanupP fx) nobody w4
                 /\ Forall (fun t => p_stage t = Finished -> isCancelled t = true) (tasks w4)).
    { subst w4. destruct H3 as [H3 H3']. destruct chA; [|done].
      split; [by apply effectA_kept|]. by rewrite effectA_tasks. }
    clearbody w4.
    set (rB := if chB then _ else (w4, _)).
    assert (HB : Forall (fun t => p_stage t = Finished -> isCancelled t = true) (tasks rB.1)).
    { subst rB. destruct H4 as [H4 H4']. destruct chB; [|done].
      apply Forall_forall. intros t Ht Hs. destruct (isCancelled t) eqn:Ec; [done|].
      pose proof (effectB_noneFinished _ u w4 H4 t Ht Hs Ec) as Hin.
      rewrite <- Ec. by apply (proj1 (Forall_forall _ _) H4' t Hin). }
    clearbody rB.
    set (rC := if chC then _ else (rB.1, _)).
    assert (HC : tasks rC.1 = tasks rB.1).
    { subst rC. destruct chC; [apply effectC_tasks|done]. }
    clearbody rC.
    set (w5 := if chD then _ else rC.1).
    assert (H5 : tasks w5 = tasks rC.1) by (subst w5; by destruct chD).
    clearbody w5.
    set (rP := if chP then _ else (w5, _)).
    assert (HP : tasks rP.1 = tasks w5).
    { subst rP. destruct chP; [apply effectP_tasks|done]. }
    clearbody rP. cbn [tasks setEffects]. by rewrite HP, H5, HC. }
  eapply Forall_impl; [exact Hnone|]. intros t Ht Hs Hc. rewrite (Ht Hs) in Hc. discriminate.
Qed.

(** *** The invariant of a run *)

Lemma steady_render w :
  tasksOk plan w /\ kept (cleanupP (effects w)) nobody w /\ fromPreparing w
  /\ currentTask plan w /\ finishedQuiet w ->
  let w' := render plan decodable w in
  tasksOk plan w' /\ kept (cleanupP (effects w')) nobody w' /\ fromPreparing w'
  /\ currentTask plan w' /\ finishedQuiet w'.
Proof.
  intros (Hok & Hk & Hfrom & Hcur & Hf). cbv zeta.
  split; [by apply render_tasksOk|]. split; [by apply render_kept|].
  split; [by apply render_fromPreparing|]. split; [by apply render_currentTask|].
  by apply render_finishedQuiet.
Qed.

Lemma steady_commit n w :
  tasksOk plan w /\ kept (cleanupP (effects w)) nobody w /\ fromPreparing w
  /\ currentTask plan w /\ finishedQuiet w ->
  let w' := commit plan decodable n w in
  tasksOk plan w' /\ kept (cleanupP (effects w')) nobody w' /\ fromPreparing w'
  /\ currentTask plan w' /\ finishedQuiet w'.
Proof.
  revert w. induction n as [|n IH]; intros w H; [done|]. cbv zeta.
  rewrite commit_unfold. pose proof (steady_render w H) as Hr. cbv zeta in Hr.
  case_bool_decide; [exact Hr|]. by apply IH.
Qed.

Lemma steady_react e w :
  tasksOk plan w /\ kept (cleanupP (effects w)) nobody w /\ fromPreparing w
  /\ currentTask plan w /\ finishedQuiet w ->
  let w' := react plan decodable e w in
  tasksOk plan w' /\ kept (cleanupP (effects w')) nobody w' /\ fromPreparing w'
  /\ currentTask plan w' /\ finishedQuiet w'.
Proof.
  intros (Hok & Hk & Hfrom & Hcur & Hf).
  assert (Hh : let w' := handle plan decodable e w in
               tasksOk plan w' /\ kept (cleanupP (effects w')) nobody w' /\ fromPreparing w'
               /\ currentTask plan w' /\ finishedQuiet w').
  { cbv zeta. split; [by apply handle_tasksOk|]. split.
    { rewrite handle_effects. by apply handle_kept. }
    split; [by apply handle_fromPreparing|]. split; [by apply handle_currentTask|].
    apply handle_finishedQuiet; [apply Hk|done]. }
  cbv zeta in *. unfold react. case_bool_decide; [exact Hh|].
  by apply (steady_commit maxUpdateDepth).
Qed.

Lemma run_steady (es : list Event) (muted : bool) (ctx : option CtxState) (synth : bool) :
  let w := run plan decodable es (mount plan decodable muted ctx synth) in
  tasksOk plan w /\ kept (cleanupP (effects w)) nobody w /\ fromPreparing w
  /\ currentTask plan w /\ finishedQuiet w.
Proof.
  assert (Hrun : forall es w,
            (tasksOk plan w /\ kept (cleanupP (effects w)) nobody w /\ fromPreparing w
             /\ currentTask plan w /\ finishedQuiet w) ->
            let w' := run plan decodable es w in
            tasksOk plan w' /\ kept (cleanupP (effects w')) nobody w' /\ fromPreparing w'
            /\ currentTask plan w' /\ finishedQuiet w').
  { clear. induction es as [|e es IH]; intros w H; [done|].
    cbv zeta. apply (IH (react plan decodable e w)). by apply steady_react. }
  apply Hrun. unfold mount. apply (steady_commit maxUpdateDepth).
  split; [constructor|]. split.
  { unfold kept. cbn. repeat split; try done; try constructor. }
  split; [constructor|]. split; [|constructor].
  intros u0. cbn. discriminate.
Qed.

(** The loading state never hangs.  Between two events, whenever the
    player shows a step as preparing outside a live session, the
    preparation that will end that state is under way: the task of the
    last run of the prepare effect is not cancelled, it was started for
    what is shown now, and the timer or the gateway answer it waits for is
    pending. *)
Theorem preparing_player_has_its_wake_up_pending
    (es : list Event) (muted : bool) (ctx : option CtxState) (synth : bool) :
  let w := run plan decodable es (mount plan decodable muted ctx synth) in
  isPreparing (ui w) = false \/ stepProp plan (ui w) = None
  \/ isLiveSession (ui w) = true
  \/ exists t, underWay plan w t.
Proof.
  pose proof (run_steady es muted ctx synth) as (Hok & Hk & Hfrom & Hcur & Hf).
  pose proof (run_good plan decodable es _ (mount_good plan decodable muted ctx synth))
    as [_ (_ & HdB & _)].
  cbv zeta in *.
  set (w := run plan decodable es (mount plan decodable muted ctx synth)) in *.
  clearbody w.
  destruct (isPreparing (ui w)) eqn:Ep; [|by left].
  destruct (stepProp plan (ui w)) as [s|] eqn:Es; [|right; by left].
  destruct (isLiveSession (ui w)) eqn:El; [right; right; by left|].
  right. right. right.
  destruct (Hcur (ui w) HdB Ep) as (t & Ht & Hc & Hn); [by rewrite Es|done|].
  exists t. unfold underWay. split; [done|]. split; [done|]. split; [done|].
  destruct (proj1 (Forall_forall _ _) Hok t Ht) as [_ Hlive].
  destruct (Hlive Hn) as [_ Hd]. rewrite HdB in Hd. apply (inj Some) in Hd.
  split; [done|]. split.
  - intros Hs. pose proof (proj1 (Forall_forall _ _) Hf t Ht Hs Hn). congruence.
  - destruct Hk as (_ & _ & _ & _ & _ & Hw & _).
    by destruct (proj1 (Forall_forall _ _) Hw t Ht) as [[]|Hp].
Qed.

(** *** The look-ahead prefetch *)

Lemma grow_refl w : timersGrow w w.
Proof. apply Forall_forall. intros x Hx. by left. Qed.

Lemma grow_trans w1 w2 w3 : timersGrow w1 w2 -> timersGrow w2 w3 -> timersGrow w1 w3.
Proof.
  intros H12 H23. apply Forall_forall. intros x Hx.
  destruct (proj1 (Forall_forall _ _) H23 x Hx) as [H|H]; [|by right].
  exact (proj1 (Forall_forall _ _) H12 x H).
Qed.

Lemma grow_frame w w' : timers w' = timers w -> timersGrow w w'.
Proof. intros He. unfold timersGrow. rewrite He. apply grow_refl. Qed.

Lemma grow_setTimeout a d w :
  (forall text, a <> Prefetch text) -> timersGrow w (setTimeout a d w).
Proof.
  intros Ha. unfold timersGrow, setTimeout. cbn [timers setNextId setTimers].
  apply Forall_app. split; [apply grow_refl|]. constructor; [|done]. right.
  unfold isPrefetch. cbn. destruct a; try done. by destruct (Ha textToPreload).
Qed.

Lemma grow_clear id w : timersGrow w (clearTimeout id w).
Proof.
  apply Forall_forall. intros x Hx. left. cbn in Hx.
  apply list_elem_of_In, filter_In in Hx as [Hx _]. by apply list_elem_of_In.
Qed.

Lemma afterSpeech_grow k a w : timersGrow w (afterSpeech k a w).
Proof.
  unfold afterSpeech. destruct (findTask k w) as [t|]; [|apply grow_refl].
  destruct (isCancelled t); [by apply grow_frame|].
  eapply grow_trans; [|by apply grow_setTimeout]. by apply grow_frame.
Qed.

Lemma deliver_grow d w : timersGrow w (deliver d w).
Proof.
  destruct d as [[[k|] a]|]; cbn [deliver]; try apply grow_refl. apply afterSpeech_grow.
Qed.

Lemma afterImage_grow k w : timersGrow w (afterImage plan k w).
Proof.
  unfold afterImage. destruct (findTask k w) as [t|]; [|apply grow_refl].
  destruct (isMuted (p_render t)); [apply afterSpeech_grow|].
  destruct (Tts.generateGeminiTTS _ _ _) as [st d].
  eapply grow_trans; [|apply deliver_grow]. by apply grow_frame.
Qed.

Lemma resolveImage_grow k w : timersGrow w (resolveImage plan k w).
Proof.
  unfold resolveImage. destruct (findTask k w) as [t|]; [|apply grow_refl].
  destruct (p_stage t); try apply grow_refl. apply afterImage_grow.
Qed.

Lemma fallback_grow c w : timersGrow w (fallbackToWebSpeech c w).
Proof.
  unfold fallbackToWebSpeech. destruct (speech w); [by apply grow_frame|].
  by apply grow_setTimeout.
Qed.

Lemma startSource_grow data c w : timersGrow w (startSource decodable data c w).
Proof.
  unfold startSource. destruct (decodable data); [by apply grow_frame|apply fallback_grow].
Qed.

Lemma playPCM_grow data c w : timersGrow w (playPCM decodable data c w).
Proof.
  unfold playPCM. destruct (audioContext w) as [[|]|].
  - by apply grow_frame.
  - apply startSource_grow.
  - by apply grow_setTimeout.
Qed.

Lemma stopAudio_timers w : timers (stopAudio w) = timers w.
Proof. fieldeq. Qed.

Lemma effectA_grow u w : timersGrow w (effectA plan u w).
Proof. apply grow_frame. fieldeq. Qed.

Lemma effectB_grow u w : timersGrow w (effectB plan u w).1.
Proof.
  unfold effectB. destruct (stepProp plan u) as [s|]; [|apply grow_refl].
  destruct (negb (isPreparing u) || isLiveSession u); [apply grow_refl|]. cbv zeta.
  set (w1 := setNextId _ _).
  assert (H1 : timersGrow w w1) by (by apply grow_frame).
  clearbody w1. destruct (negb (is3DMode u) && truthy (imageUrl s)); cbn [fst].
  - eapply grow_trans; [exact H1|]. by apply grow_setTimeout.
  - eapply grow_trans; [exact H1|]. apply afterImage_grow.
Qed.

Lemma effectC_grow u w : timersGrow w (effectC plan decodable u w).1.
Proof.
  unfold effectC. repeat case_match; cbn [fst]; try apply grow_refl;
    (eapply grow_trans; [apply grow_frame, stopAudio_timers|]).
  - apply playPCM_grow.
  - apply fallback_grow.
  - by apply grow_setTimeout.
Qed.

Lemma onePrefetch_grow cp d w w' :
  timersGrow w w' -> onePrefetch plan cp d w -> onePrefetch plan cp d w'.
Proof.
  intros Hg H. apply Forall_forall. intros x Hx Hp.
  destruct (proj1 (Forall_forall _ _) Hg x Hx) as [Hin|Hn]; [|congruence].
  exact (proj1 (Forall_forall _ _) H x Hin Hp).
Qed.

Lemma fire_grow x w : timersGrow w (fire plan x w).
Proof.
  unfold fire. cbv zeta. set (w1 := clearTimeout _ _).
  assert (H1 : timersGrow w w1) by apply (grow_clear _ (setNow _ w)).
  clearbody w1. eapply grow_trans; [exact H1|].
  destruct (t_action x) as [k|k|c|c|text].
  - apply resolveImage_grow.
  - apply grow_frame. fieldeq.
  - by apply grow_setTimeout.
  - apply grow_frame. fieldeq.
  - destruct (Tts.generateGeminiTTS _ _ _) as [st d]. apply (deliver_grow d (setTts st w1)).
Qed.

Lemma resumeAll_grow (ps : list PcmTask) w :
  timersGrow w
    (fold_left (fun w' p => startSource decodable (pcm_data p) (pcm_render p) w') ps w).
Proof.
  revert w. induction ps as [|p ps IH]; intros w; cbn [fold_left]; [apply grow_refl|].
  eapply grow_trans; [apply startSource_grow|apply IH].
Qed.

Lemma handle_grow e w : timersGrow w (handle plan decodable e w).
Proof.
  destruct e; unfold handle; cbv zeta.
  - case_match; by apply grow_frame.
  - case_match; by apply grow_frame.
  - case_match; by apply grow_frame.
  - case_match; by apply grow_frame.
  - case_match; by apply grow_frame.
  - case_match; [|apply grow_refl]. unfold toggleLiveSession.
    case_match; [by apply grow_frame|]. apply grow_frame. fieldeq.
  - by apply grow_frame.
  - case_match; by apply grow_frame.
  - destruct (followUp w) as [c|]; [|apply grow_refl]. unfold answerFollowUp.
    apply grow_frame. fieldeq.
  - case_match; by apply grow_frame.
  - destruct (earliest (timers w)) as [x|]; [apply fire_grow|apply grow_refl].
  - case_match; by apply grow_frame.
  - apply resolveImage_grow.
  - destruct (Tts.gatewayReply id res (tts w)) as [st d]. apply (deliver_grow d (setTts st w)).
  - destruct (audioContext w) as [[|]|]; try apply grow_refl.
    destruct (resuming w) as [|p ps] eqn:E; [apply grow_refl|]. rewrite <- E.
    apply (resumeAll_grow (resuming w) (setResuming [] (setAudioContext (Some running) w))).
  - destruct (List.find _ (handles w)) as [h|]; [|apply grow_refl].
    destruct (h_onEnded h); [|by apply grow_frame].
    eapply grow_trans; [|by apply grow_setTimeout]. by apply grow_frame.
Qed.

Lemma render_onePrefetch w :
  onePrefetch plan (cleanupP (effects w)) (depsP (effects w)) w ->
  let w' := render plan decodable w in
  onePrefetch plan (cleanupP (effects w')) (depsP (effects w')) w'.
Proof.
  intros H. cbv zeta. unfold render. cbv zeta.
  set (u := ui w) in *. set (fx := effects w) in *.
  set (chA := bool_decide (depsA fx ≠ _)). set (chB := bool_decide (depsB fx ≠ _)).
  set (chC := bool_decide (depsC fx ≠ _)). set (chD := bool_decide (depsD fx ≠ _)).
  set (chP := bool_decide (depsP fx ≠ Some (depsPof u))).
  (* what holds of the timers once the cleanups have run *)
  set (cq := if chP then None else cleanupP fx).
  set (w1 := if chB then _ else w).
  set (w2 := if chC then _ else w1).
  assert (H2 : onePrefetch plan (cleanupP fx) (depsP fx) w2).
  { eapply onePrefetch_grow; [|exact H]. apply grow_frame. subst w2 w1.
    destruct chB, chC; unfold runCleanupC, runCleanupB; repeat case_match;
      rewrite ?stopAudio_timers; reflexivity. }
  clearbody w2. clear H.
  set (w3 := if chP then _ else w2).
  assert (H3 : onePrefetch plan cq (depsP fx) w3).
  { subst w3 cq. destruct chP; [|exact H2]. unfold runCleanupP.
    destruct (cleanupP fx) as [id|] eqn:Ecp.
    - apply Forall_forall. intros x Hx Hp. exfalso. cbn in Hx.
      apply list_elem_of_In, filter_In in Hx as [Hx Hne].
      apply list_elem_of_In in Hx.
      destruct (proj1 (Forall_forall _ _) H2 x Hx Hp) as [[= ->] _].
      by rewrite Nat.eqb_refl in Hne.
    - exact H2. }
  clearbody w3. clear H2.
  set (w4 := if chA then _ else w3).
  assert (H4 : onePrefetch plan cq (depsP fx) w4).
  { subst w4. destruct chA; [|exact H3]. eapply onePrefetch_grow; [apply effectA_grow|exact H3]. }
  clearbody w4. clear H3.
  set (rB := if chB then _ else (w4, _)).
  assert (HB : onePrefetch plan cq (depsP fx) rB.1).
  { subst rB. destruct chB; [|exact H4]. eapply onePrefetch_grow; [apply effectB_grow|exact H4]. }
  clearbody rB. clear H4.
  set (rC := if chC then _ else (rB.1, _)).
  assert (HC : onePrefetch plan cq (depsP fx) rC.1).
  { subst rC. destruct chC; [|exact HB]. eapply onePrefetch_grow; [apply effectC_grow|exact HB]. }
  clearbody rC. clear HB.
  set (w5 := if chD then _ else rC.1).
  assert (H5 : onePrefetch plan cq (depsP fx) w5).
  { subst w5. destruct chD; [|exact HC]. exact HC. }
  clearbody w5. clear HC.
  set (rP := if chP then _ else (w5, _)).
  assert (HP : onePrefetch plan rP.2 (Some (depsPof u)) rP.1).
  { subst rP cq. destruct chP eqn:Hch.
    - assert (Hnone : Forall (fun x => isPrefetch x = false) (timers w5)).
      { eapply Forall_impl; [exact H5|]. intros x Hx. cbn in Hx.
        destruct (isPrefetch x); [|done]. by destruct (Hx eq_refl) as [? _]. }
      unfold effectP. destruct (totalSteps plan - 1 <=? currentStepIndex u)%Z.
      + eapply Forall_impl; [exact Hnone|]. intros x Hx Hp. cbn in Hx. congruence.
      + destruct (stepAt plan (currentStepIndex u + 1)) as [nextStep|] eqn:En.
        * cbn [fst snd timers setTimeout setNextId setTimers]. apply Forall_app. split.
          -- eapply Forall_impl; [exact Hnone|]. intros x Hx Hp. cbn in Hx. congruence.
          -- constructor; [|done]. intros _. split; [done|].
             exists (currentStepIndex u), (audioLanguage u), nextStep. done.
        * eapply Forall_impl; [exact Hnone|]. intros x Hx Hp. cbn in Hx. congruence.
    - apply bool_decide_eq_false in Hch.
      assert (Hd : depsP fx = Some (depsPof u)) by (by apply dec_stable).
      cbn [fst snd]. by rewrite <- Hd. }
  clearbody rP. exact HP.
Qed.

Lemma commit_onePrefetch n w :
  onePrefetch plan (cleanupP (effects w)) (depsP (effects w)) w ->
  let w' := commit plan decodable n w in
  onePrefetch plan (cleanupP (effects w')) (depsP (effects w')) w'.
Proof.
  revert w. induction n as [|n IH]; intros w H; [done|]. cbv zeta.
  rewrite commit_unfold. pose proof (render_onePrefetch w H) as Hr. cbv zeta in Hr.
  case_bool_decide; [exact Hr|]. by apply IH.
Qed.

Lemma run_onePrefetch (es : list Event) (muted : bool) (ctx : option CtxState) (synth : bool) :
  let w := run plan decodable es (mount plan decodable muted ctx synth) in
  onePrefetch plan (cleanupP (effects w)) (depsP (effects w)) w.
Proof.
  assert (Hrun : forall es w,
            onePrefetch plan (cleanupP (effects w)) (depsP (effects w)) w ->
            let w' := run plan decodable es w in
            onePrefetch plan (cleanupP (effects w')) (depsP (effects w')) w').
  { clear. induction es as [|e es IH]; intros w H; [done|].
    cbv zeta. apply (IH (react plan decodable e w)).
    assert (Hh : onePrefetch plan (cleanupP (effects (handle plan decodable e w)))
                   (depsP (effects (handle plan decodable e w))) (handle plan decodable e w)).
    { rewrite handle_effects. eapply onePrefetch_grow; [apply handle_grow|exact H]. }
    unfold react. case_bool_decide; [exact Hh|]. by apply commit_onePrefetch. }
  apply Hrun. unfold mount. apply commit_onePrefetch. constructor.
Qed.

Lemma filter_at_most_one {A : Type} (f : A -> nat) (p : A -> bool) (c : nat) (l : list A) :
  NoDup (f <$> l) -> Forall (fun x => p x = true -> f x = c) l ->
  (length (List.filter p l) <= 1)%nat.
Proof.
  induction l as [|x l IH]; [cbn; lia|]. cbn [fmap list_fmap List.filter].
  rewrite NoDup_cons. intros [Hx Hnd] Hall. apply Forall_cons in Hall as [Hpx Hall].
  destruct (p x) eqn:Ep; [|by apply IH]. cbn [length].
  assert (Hnil : List.filter p l = []).
  { destruct (List.filter p l) as [|y r] eqn:Ef; [done|]. exfalso.
    assert (Hy : In y (List.filter p l)) by (rewrite Ef; by left).
    apply filter_In in Hy as [Hy Hpy]. apply list_elem_of_In in Hy.
    apply Hx. apply list_elem_of_fmap. exists y. split; [|done].
    rewrite (Hpx eq_refl). symmetry. exact (proj1 (Forall_forall _ _) Hall y Hy Hpy). }
  rewrite Hnil. cbn. lia.
Qed.

(** The prefetch is gentle.  Between two events at most one prefetch
    timer is pending, and it will ask for the narration of the step after
    the one shown, in the language selected. *)
Theorem at_most_one_prefetch_is_scheduled
    (es : list Event) (muted : bool) (ctx : option CtxState) (synth : bool) :
  let w := run plan decodable es (mount plan decodable muted ctx synth) in
  (length (List.filter isPrefetch (timers w)) <= 1)%nat
  /\ Forall (fun x =>
       match t_action x with
       | Prefetch text =>
           exists s, stepAt plan (currentStepIndex (ui w) + 1) = Some s
                     /\ text = narrationFor (audioLanguage (ui w)) s
       | _ => True
       end) (timers w).
Proof.
  pose proof (run_onePrefetch es muted ctx synth) as Hone.
  pose proof (run_steady es muted ctx synth) as (_ & Hk & _).
  pose proof (run_good plan decodable es _ (mount_good plan decodable muted ctx synth))
    as [_ (_ & _ & _ & _ & HdP)].
  cbv zeta in *.
  set (w := run plan decodable es (mount plan decodable muted ctx synth)) in *.
  clearbody w. split.
  - destruct (cleanupP (effects w)) as [id|] eqn:Ecp.
    + apply (filter_at_most_one t_id isPrefetch id); [apply Hk|].
      eapply Forall_impl; [exact Hone|]. intros x Hx Hp. cbn in Hx.
      by destruct (Hx Hp) as [[= ->] _].
    + apply (filter_at_most_one t_id isPrefetch 0%nat); [apply Hk|].
      eapply Forall_impl; [exact Hone|]. intros x Hx Hp. cbn in Hx.
      by destruct (Hx Hp) as [? _].
  - eapply Forall_impl; [exact Hone|]. intros x Hx. cbn in Hx.
    destruct (t_action x) as [k|k|c|c|text] eqn:Ea; try done.
    destruct Hx as [_ (i & l & s & Hd & Hs & Hact)]; [unfold isPrefetch; by rewrite Ea|].
    rewrite HdP in Hd. unfold depsPof in Hd. injection Hd as <- <-.
    exists s. split; [done|]. rewrite Ea in Hact. by injection Hact.
Qed.

End PreparationMore.

(** ** Further scenarios *)

(** A first save of a one-step session whose picture is a base64 address,
    into an empty list with room for it. *)
Lemma save_witness :
  let picture := withImage (Some "data:image/png;base64,iVBORw0KGgo=")
                   (sampleStep 0 "Light" "Plants make sugar from light..") in
  let h : Storage.Heap := {[ 0%nat := picture ]} in
  let session : Storage.SavedSession nat :=
    {| Storage.id := "s-1"; Storage.topic := "Photosynthesis";
       Storage.lastActive := "2024-05-01T10:00:00.000Z";
       Storage.lessonPlan := Some {| topic := "Photosynthesis"; steps := [0%nat] |};
       Storage.messages := []; Storage.currentStepIndex := 0 |} in
  closed h session
  /\ let '(h', store', outcome) :=
       Storage.saveSessionToStorage (fun _ => true) session h [] in
     outcome = Storage.Saved.
Proof.
  intros picture h session.
  assert (Hc : closed h session).
  { unfold closed. cbn [Storage.lessonPlan session steps].
    apply Forall_cons. split; [|constructor].
    exists picture. subst h.
    apply lookup_singleton_eq. }
  split; [exact Hc|].
  pose proof (save_keeps_the_ten_most_recent (fun _ => true) session h [] Hc) as H.
  cbv zeta in H.
  destruct (Storage.saveSessionToStorage (fun _ => true) session h [])
    as [[h' store'] outcome].
  destruct H as (_ & H & _). exact H.
Defined.

(** The three pictures of the sample lesson settle last, first, second;
    the gateway draws none of them and the second fallback picture does
    not load. *)
Lemma enrichment_witness :
  let enc := fun s : string => s in
  let answers := fun _ : nat => Gemini.Thrown in
  let loaded := fun i : nat => negb (Nat.eqb i 1) in
  [2; 0; 1]%nat ≡ₚ seq 0 (length (steps samplePlan))
  /\ Enrichment.startBackgroundAssetGeneration enc samplePlan answers loaded [2; 0; 1]%nat
       (Some (Lesson.dense samplePlan))
     = Some (Lesson.dense
               (withSteps (imap (pictured enc answers loaded) (steps samplePlan))
                  samplePlan)).
Proof.
  intros enc answers loaded.
  assert (Hp : [2; 0; 1]%nat ≡ₚ seq 0 (length (steps samplePlan))).
  { change (seq 0 (length (steps samplePlan))) with ([0; 1; 2]%nat).
    change ([2; 0; 1]%nat) with ([2]%nat ++ [0; 1]%nat).
    change ([0; 1; 2]%nat) with ([0; 1]%nat ++ [2]%nat).
    apply Permutation_app_comm. }
  split; [exact Hp|].
  exact (proj1 (enrichment_gives_every_loaded_picture_its_step
                  enc samplePlan answers loaded [2; 0; 1]%nat Hp)).
Defined.

(** The sample lesson, muted from the start: the first silent timer and
    the grace delay pass, a question is asked and answered, the lesson is
    paused and played again. *)
Lemma muted_lesson_witness :
  let es := [Player.Tick; Player.Tick; Player.Send; Player.FollowUp jumpToLast;
             Player.ClickPause; Player.ClickPlay] in
  (Player.ToggleMute ∉ es)
  /\ Player.handles
       (Player.run samplePlan Platform.decodes es
          (Player.mount samplePlan Platform.decodes true (Some Player.running) true)) = [].
Proof.
  intros es.
  assert (Hn : Player.ToggleMute ∉ es).
  { subst es. intros H.
    repeat (apply elem_of_cons in H as [H|H]; [discriminate H|]).
    by apply elem_of_nil in H. }
  split; [exact Hn|].
  exact (proj1 (proj2 (muted_lesson_starts_no_sound samplePlan Platform.decodes es
                         (Some Player.running) true Hn))).
Defined.

(** Step 0 of the sample lesson plays its synthesized narration when the
    learner switches to Hindi. *)
Lemma language_change_witness :
  let w := Player.run samplePlan Platform.decodes [Player.Gateway 0 (Tts.Audio "QUJDRA=="); Player.Tick]
             (Player.mount samplePlan Platform.decodes false (Some Player.running) true) in
  settled samplePlan w
  /\ Player.isPreparing (Player.ui w) = false
  /\ Player.controlsShown samplePlan (Player.ui w) = true
  /\ Player.readyAudio
       (Player.ui (Player.react samplePlan Platform.decodes (Player.SetAudioLanguage hi) w))
     = Some "QUJDRA==".
Proof.
  intros w.
  assert (Hs : settled samplePlan w) by (apply run_good, mount_good).
  assert (Hp : Player.isPreparing (Player.ui w) = false) by (vm_compute; reflexivity).
  assert (Hc : Player.controlsShown samplePlan (Player.ui w) = true)
    by (vm_compute; reflexivity).
  assert (Hr : Player.readyAudio (Player.ui w) = Some "QUJDRA==") by (vm_compute; reflexivity).
  clearbody w.
  destruct (language_change_keeps_the_prepared_audio samplePlan Platform.decodes w hi Hs Hp Hc)
    as [Hu _].
  split; [exact Hs|]. split; [exact Hp|]. split; [exact Hc|].
  rewrite Hu. exact Hr.
Defined.

(** A second session is saved after a first one; its picture is held as
    base64 data and the storage has room. *)
Lemma saved_sessions_witness :
  let picture := withImage (Some "data:image/png;base64,iVBORw0KGgo=")
                   (sampleStep 0 "Light" "Plants make sugar from light..") in
  let h : Storage.Heap := {[ 0%nat := picture ]} in
  let saved (sid : string) : Storage.SavedSession nat :=
    {| Storage.id := sid; Storage.topic := "Photosynthesis";
       Storage.lastActive := "2024-05-01T10:00:00.000Z";
       Storage.lessonPlan := Some {| topic := "Photosynthesis"; steps := [0%nat] |};
       Storage.messages := []; Storage.currentStepIndex := 0 |} in
  let session := saved "s-2" in
  let ops := [Storage.Save (fun _ => true) (saved "s-1") h] in
  closed h session
  /\ let '(h', store', outcome) :=
       Storage.saveSessionToStorage (fun _ => true) session h (Storage.history ops) in
     outcome = Storage.Saved
     /\ store'
        = stripped (Storage.freeze h session)
          :: take 9 (others (Storage.id session) (Storage.history ops)).
Proof.
  intros picture h saved session ops.
  assert (Hc : closed h session).
  { unfold closed. cbn [Storage.lessonPlan session saved steps].
    apply Forall_cons. split; [|constructor].
    exists picture. subst h.
    apply lookup_singleton_eq. }
  split; [exact Hc|].
  pose proof (saved_sessions_are_bounded_unique_and_stripped ops (fun _ => true) session h Hc)
    as H.
  cbv zeta in H.
  destruct (Storage.saveSessionToStorage (fun _ => true) session h (Storage.history ops))
    as [[h' store'] outcome].
  destruct H as ((Hs & Ho) & _). split; [exact Ho|exact Hs].
Defined.


